(** * Arcade library: a shallow embedding of [arcade.h] and its properties

    The development follows the implementation part of
    [SuperJumpAdventure/arcade/arcade.h]: input edge detection, sprite
    movement and collision, image sprite loading, animated sprites, sprite
    groups and the pixel remapping of the flip / rotate utilities.

    Conventions.
    - A C [float] is an IEEE-754 binary32 value, modelled by [spec_float]
      with precision 24 and maximal exponent 128; every arithmetic
      operation rounds to nearest-even in that format.
    - A C [int] is a [Z].  Counters that the code increments are
      normalised with [Int.wrap], so that the 32-bit range is explicit; the
      index arithmetic of the pixel loops is exact, because the buffers it
      ranges over have a size that fits in an [int].
    - A pointer that may be [NULL] is an [option]; a function that updates
      its pointee returns the new pointee.
    - Heap blocks are identified by a natural number; the heap records the
      set of live blocks, so that leaks can be stated. *)

From Stdlib Require Import ZArith Lia Bool.
From Stdlib Require Import Floats.SpecFloat.
From stdpp Require Import gmap strings list.

Local Open Scope Z_scope.
Set Warnings "-clear-no-such-hyp".

(* ===================================================================== *)
(** * Part I: definitions *)
(* ===================================================================== *)

(** ** Machine integers *)

Module Int.

Definition min_signed : Z := - 2 ^ 31.
Definition max_signed : Z := 2 ^ 31 - 1.

(** Two's complement normalisation of a mathematical integer to [int]. *)
Definition wrap (z : Z) : Z := (z + 2 ^ 31) mod 2 ^ 32 - 2 ^ 31.

Definition in_range (z : Z) : Prop := min_signed <= z <= max_signed.

(** C's [%] truncates towards zero. *)
Definition rem (a b : Z) : Z := Z.rem a b.

End Int.

(** ** binary32 floating point *)

Module F32.

Definition prec : Z := 24.
Definition emax : Z := 128.

Abbreviation float := spec_float.

Definition add (a b : float) : float := SFadd prec emax a b.
Definition sub (a b : float) : float := SFsub prec emax a b.

(** [lit m e] is the binary32 value nearest to [m * 2^e]; it is used to
    write literals such as [0.5f = lit 1 (-1)]. *)
Definition lit (m e : Z) : float := binary_normalize prec emax m e false.

(** [(float)z] for an [int] z. *)
Definition of_int (z : Z) : float := lit z 0.

Definition zero : float := S754_zero false.

(** The C comparisons [a < b] and [a > b]; both are false on a NaN. *)
Definition lt (a b : float) : bool := SFltb a b.
Definition gt (a b : float) : bool :=
  match SFcompare a b with Some Gt => true | _ => false end.
Definition le (a b : float) : bool := SFleb a b.

Definition is_nan (a : float) : bool :=
  match a with S754_nan => true | _ => false end.

(** [(int)f]: truncation towards zero.  The conversion of a NaN, an
    infinity or a value outside the [int] range is undefined in C; the
    model returns [0] for the first two and the wrapped value for the last. *)
Definition to_int (f : float) : Z :=
  match f with
  | S754_finite s m e =>
      let mag := match e with
                 | Z0 => Zpos m
                 | Zpos _ => Zpos m * 2 ^ e
                 | Zneg _ => Zpos m / 2 ^ (- e)
                 end in
      Int.wrap (cond_Zopp s mag)
  | _ => 0
  end.

Arguments add : simpl never.
Arguments sub : simpl never.
Arguments lit : simpl never.
Arguments of_int : simpl never.
Arguments lt : simpl never.
Arguments gt : simpl never.
Arguments le : simpl never.
Arguments zero : simpl never.

End F32.

(** ** Sprites *)

Module ArcadeSprite.
Record t : Type := mk
  { x : F32.float; y : F32.float;
    width : F32.float; height : F32.float;
    vy : F32.float; vx : F32.float;
    color : Z;
    active : Z }.
Definition set_x (v : F32.float) (s : t) : t :=
  mk v (y s) (width s) (height s) (vy s) (vx s) (color s) (active s).
Definition set_y (v : F32.float) (s : t) : t :=
  mk (x s) v (width s) (height s) (vy s) (vx s) (color s) (active s).
Definition set_vy (v : F32.float) (s : t) : t :=
  mk (x s) (y s) (width s) (height s) v (vx s) (color s) (active s).
End ArcadeSprite.

Module ArcadeImageSprite.
(** [pixels] is [None] for a null pointer and otherwise the block that
    holds the packed pixels together with its contents. *)
Record t : Type := mk
  { x : F32.float; y : F32.float;
    width : F32.float; height : F32.float;
    vy : F32.float; vx : F32.float;
    pixels : option (nat * list Z);
    image_width : Z; image_height : Z;
    active : Z }.
Definition set_x (v : F32.float) (s : t) : t :=
  mk v (y s) (width s) (height s) (vy s) (vx s) (pixels s)
     (image_width s) (image_height s) (active s).
Definition set_y (v : F32.float) (s : t) : t :=
  mk (x s) v (width s) (height s) (vy s) (vx s) (pixels s)
     (image_width s) (image_height s) (active s).
Definition set_vy (v : F32.float) (s : t) : t :=
  mk (x s) (y s) (width s) (height s) v (vx s) (pixels s)
     (image_width s) (image_height s) (active s).
Definition set_vx (v : F32.float) (s : t) : t :=
  mk (x s) (y s) (width s) (height s) (vy s) v (pixels s)
     (image_width s) (image_height s) (active s).
Definition set_width (v : F32.float) (s : t) : t :=
  mk (x s) (y s) v (height s) (vy s) (vx s) (pixels s)
     (image_width s) (image_height s) (active s).
Definition set_height (v : F32.float) (s : t) : t :=
  mk (x s) (y s) (width s) v (vy s) (vx s) (pixels s)
     (image_width s) (image_height s) (active s).
Definition set_pixels (v : option (nat * list Z)) (s : t) : t :=
  mk (x s) (y s) (width s) (height s) (vy s) (vx s) v
     (image_width s) (image_height s) (active s).
Definition set_image_width (v : Z) (s : t) : t :=
  mk (x s) (y s) (width s) (height s) (vy s) (vx s) (pixels s)
     v (image_height s) (active s).
Definition set_image_height (v : Z) (s : t) : t :=
  mk (x s) (y s) (width s) (height s) (vy s) (vx s) (pixels s)
     (image_width s) v (active s).
Definition set_active (v : Z) (s : t) : t :=
  mk (x s) (y s) (width s) (height s) (vy s) (vx s) (pixels s)
     (image_width s) (image_height s) v.
End ArcadeImageSprite.

Module Sprite.

(** [static void move_sprite(ArcadeSprite *sprite, float gravity, int window_height)] *)
Definition move_sprite (sprite : option ArcadeSprite.t) (gravity : F32.float)
    (window_height : Z) : option ArcadeSprite.t :=
  match sprite with
  | None => None
  | Some s =>
      if ArcadeSprite.active s =? 0 then Some s else
      let s := ArcadeSprite.set_vy (F32.add (ArcadeSprite.vy s) gravity) s in
      let s := ArcadeSprite.set_y (F32.add (ArcadeSprite.y s) (ArcadeSprite.vy s)) s in
      let s := ArcadeSprite.set_x (F32.add (ArcadeSprite.x s) (ArcadeSprite.vx s)) s in
      let s := if F32.lt (ArcadeSprite.y s) F32.zero
               then ArcadeSprite.set_vy F32.zero (ArcadeSprite.set_y F32.zero s)
               else s in
      let s := if F32.gt (ArcadeSprite.y s)
                         (F32.sub (F32.of_int window_height) (ArcadeSprite.height s))
               then ArcadeSprite.set_vy F32.zero
                      (ArcadeSprite.set_y
                         (F32.sub (F32.of_int window_height) (ArcadeSprite.height s)) s)
               else s in
      Some s
  end.

(** [void arcade_move_sprite(ArcadeSprite *sprite, float gravity, int window_height)] *)
Definition arcade_move_sprite (sprite : option ArcadeSprite.t) (gravity : F32.float)
    (window_height : Z) : option ArcadeSprite.t :=
  match sprite with
  | Some _ => move_sprite sprite gravity window_height
  | None => None
  end.

(** [void arcade_move_image_sprite(ArcadeImageSprite *sprite, float gravity, int window_height)] *)
Definition arcade_move_image_sprite (sprite : option ArcadeImageSprite.t)
    (gravity : F32.float) (window_height : Z) : option ArcadeImageSprite.t :=
  match sprite with
  | None => None
  | Some s =>
      if ArcadeImageSprite.active s =? 0 then Some s else
      let s := ArcadeImageSprite.set_vy (F32.add (ArcadeImageSprite.vy s) gravity) s in
      let s := ArcadeImageSprite.set_y
                 (F32.add (ArcadeImageSprite.y s) (ArcadeImageSprite.vy s)) s in
      let s := ArcadeImageSprite.set_x
                 (F32.add (ArcadeImageSprite.x s) (ArcadeImageSprite.vx s)) s in
      let s := if F32.lt (ArcadeImageSprite.y s) F32.zero
               then ArcadeImageSprite.set_vy F32.zero
                      (ArcadeImageSprite.set_y F32.zero s)
               else s in
      let s := if F32.gt (ArcadeImageSprite.y s)
                         (F32.sub (F32.of_int window_height) (ArcadeImageSprite.height s))
               then ArcadeImageSprite.set_vy F32.zero
                      (ArcadeImageSprite.set_y
                         (F32.sub (F32.of_int window_height)
                                  (ArcadeImageSprite.height s)) s)
               else s in
      Some s
  end.

(** [static int check_collision(const ArcadeSprite *a, const ArcadeSprite *b)] *)
Definition check_collision (a b : option ArcadeSprite.t) : Z :=
  match a, b with
  | Some a, Some b =>
      if (ArcadeSprite.active a =? 0) || (ArcadeSprite.active b =? 0) then 0
      else if F32.lt (ArcadeSprite.x a) (F32.add (ArcadeSprite.x b) (ArcadeSprite.width b))
              && F32.gt (F32.add (ArcadeSprite.x a) (ArcadeSprite.width a)) (ArcadeSprite.x b)
              && F32.lt (ArcadeSprite.y a) (F32.add (ArcadeSprite.y b) (ArcadeSprite.height b))
              && F32.gt (F32.add (ArcadeSprite.y a) (ArcadeSprite.height a)) (ArcadeSprite.y b)
           then 1 else 0
  | _, _ => 0
  end.

(** [int arcade_check_collision(ArcadeSprite *a, ArcadeSprite *b)] *)
Definition arcade_check_collision (a b : option ArcadeSprite.t) : Z :=
  match a, b with
  | Some _, Some _ => check_collision a b
  | _, _ => 0
  end.

(** [int arcade_check_image_collision(ArcadeImageSprite *a, ArcadeImageSprite *b)] *)
Definition arcade_check_image_collision (a b : option ArcadeImageSprite.t) : Z :=
  match a, b with
  | Some a, Some b =>
      if (ArcadeImageSprite.active a =? 0) || (ArcadeImageSprite.active b =? 0) then 0
      else if F32.lt (ArcadeImageSprite.x a)
                     (F32.add (ArcadeImageSprite.x b) (ArcadeImageSprite.width b))
              && F32.gt (F32.add (ArcadeImageSprite.x a) (ArcadeImageSprite.width a))
                        (ArcadeImageSprite.x b)
              && F32.lt (ArcadeImageSprite.y a)
                        (F32.add (ArcadeImageSprite.y b) (ArcadeImageSprite.height b))
              && F32.gt (F32.add (ArcadeImageSprite.y a) (ArcadeImageSprite.height a))
                        (ArcadeImageSprite.y b)
           then 1 else 0
  | _, _ => 0
  end.

End Sprite.

(** ** Undefined behaviour and loops *)

Module UB.

(** The result of a C computation that may step outside the language:
    a null or out-of-bounds access, a division by zero. *)
Inductive outcome (A : Type) : Type :=
| Done (a : A)
| Undefined.
Arguments Done {A} a.
Arguments Undefined {A}.

Definition bind {A B : Type} (m : outcome A) (k : A -> outcome B) : outcome B :=
  match m with
  | Done a => k a
  | Undefined => Undefined
  end.

(** [l[i]] as an rvalue and [l[i] = v], undefined outside the array. *)
Definition array_get {A : Type} (l : list A) (i : Z) : outcome A :=
  if 0 <=? i
  then match l !! Z.to_nat i with Some a => Done a | None => Undefined end
  else Undefined.

Definition array_set {A : Type} (l : list A) (i : Z) (v : A) : outcome (list A) :=
  if (0 <=? i) && (i <? Z.of_nat (length l))
  then Done (<[Z.to_nat i := v]> l)
  else Undefined.

End UB.

Notation "'let?' x ':=' m 'in' k" := (UB.bind m (fun x => k))
  (at level 10, x name, m at level 200, k at level 200).

Module Loop.

(** [for (int i = 0; i < n; i++) s = body(i, s);] *)
Definition for_loop {A : Type} (n : Z) (body : Z -> A -> A) (s : A) : A :=
  fold_left (fun s i => body (Z.of_nat i) s) (seq 0 (Z.to_nat n)) s.

(** The same loop with a body that may be undefined. *)
Definition for_loop_ub {A : Type} (n : Z) (body : Z -> A -> UB.outcome A) (s : A)
  : UB.outcome A :=
  fold_left (fun m i => UB.bind m (body (Z.of_nat i))) (seq 0 (Z.to_nat n)) (UB.Done s).

(** Buffer cells; the loops below stay inside their buffers (see
    [Transform] and [Loader]), so reads and writes are total here. *)
Definition load (buf : list Z) (i : Z) : Z := buf !!! Z.to_nat i.
Definition store (buf : list Z) (i : Z) (v : Z) : list Z := <[Z.to_nat i := v]> buf.

End Loop.

(** ** Input state tracker *)

Module Input.

(** [key_states] and [last_key_states], two tables of 256 [int]. *)
Record state : Type := mk
  { key_states : list Z;
    last_key_states : list Z }.

Definition initial : state := mk (replicate 256 0) (replicate 256 0).

(** The two backends differ in how a key code selects a table slot.  On
    Windows the switch [arcade_to_vk] maps the code to a virtual-key
    constant of [windows.h]; the table of constants is a parameter. *)
Inductive platform : Type :=
| Win32 (arcade_to_vk : Z -> Z)
| X11.

Definition key_slot (p : platform) (key_val : Z) : Z :=
  match p with
  | Win32 arcade_to_vk => arcade_to_vk key_val
  | X11 => Z.land key_val 255
  end.

(** [int arcade_key_pressed(unsigned int key_val)] *)
Definition arcade_key_pressed (p : platform) (key_val : Z) (st : state) : Z :=
  if key_states st !!! Z.to_nat (key_slot p key_val) =? 0 then 0 else 2.

(** [int arcade_key_pressed_once(unsigned int key_val)] *)
Definition arcade_key_pressed_once (p : platform) (key_val : Z) (st : state)
  : Z * state :=
  let key := key_slot p key_val in
  let current := key_states st !!! Z.to_nat key in
  let last := last_key_states st !!! Z.to_nat key in
  let st' := mk (key_states st) (<[Z.to_nat key := current]> (last_key_states st)) in
  (if (current =? 1) && (last =? 0) then 2 else 0, st').

(** [void arcade_clear_keys(void)] *)
Definition arcade_clear_keys (st : state) : state :=
  mk (replicate (length (key_states st)) 0)
     (replicate (length (last_key_states st)) 0).

(** The events seen by the pump: [KeyPress] / [WM_KEYDOWN] and
    [KeyRelease] / [WM_KEYUP] carry the key symbol (X11) or the virtual key
    (Windows); [CloseRequest] is the window-close message. *)
Inductive event : Type :=
| KeyPress (sym : Z)
| KeyRelease (sym : Z)
| CloseRequest
| OtherEvent.

(** The slot written by the pump: [keysym & 0xFF] on X11, [vk] guarded by
    [vk < 256] on Windows. *)
Definition event_slot (p : platform) (sym : Z) : option Z :=
  match p with
  | Win32 _ => if sym <? 256 then Some sym else None
  | X11 => Some (Z.land sym 255)
  end.

Definition set_key (p : platform) (sym : Z) (v : Z) (st : state) : state :=
  match event_slot p sym with
  | Some i => mk (<[Z.to_nat i := v]> (key_states st)) (last_key_states st)
  | None => st
  end.

(** The event loop of [arcade_update], restricted to the key tables.  It
    returns [false] when the window is closed; the events after the close
    request stay in the queue. *)
Fixpoint arcade_update (p : platform) (events : list event) (st : state)
  : bool * state :=
  match events with
  | [] => (true, st)
  | KeyPress sym :: rest => arcade_update p rest (set_key p sym 1 st)
  | KeyRelease sym :: rest => arcade_update p rest (set_key p sym 0 st)
  | CloseRequest :: _ => (false, st)
  | OtherEvent :: rest => arcade_update p rest st
  end.

(** What a game does with the tracker, in program order. *)
Inductive action : Type :=
| Update (events : list event)
| PressedOnce (key_val : Z)
| ClearKeys.

(** Runs the actions and collects, for every [PressedOnce], the slot that
    was queried and the value returned. *)
Fixpoint run (p : platform) (acts : list action) (st : state)
  : list (Z * Z) * state :=
  match acts with
  | [] => ([], st)
  | Update events :: rest => run p rest (snd (arcade_update p events st))
  | PressedOnce key_val :: rest =>
      let '(r, st1) := arcade_key_pressed_once p key_val st in
      let '(out, st2) := run p rest st1 in
      ((key_slot p key_val, r) :: out, st2)
  | ClearKeys :: rest => run p rest (arcade_clear_keys st)
  end.

(** An event that takes the slot down to 0. *)
Definition releases (p : platform) (slot : Z) (ev : event) : bool :=
  match ev with
  | KeyRelease sym =>
      match event_slot p sym with
      | Some i => Nat.eqb (Z.to_nat i) (Z.to_nat slot)
      | None => false
      end
  | _ => false
  end.

(** The press of [slot] is unbroken along [acts]: no release reaches the
    slot and the tables are not cleared. *)
Definition unbroken (p : platform) (slot : Z) (acts : list action) : bool :=
  forallb (fun a => match a with
                    | Update events => negb (existsb (releases p slot) events)
                    | PressedOnce _ => true
                    | ClearKeys => false
                    end) acts.

(** The number of queries of [slot] that reported a press. *)
Definition reports (slot : Z) (out : list (Z * Z)) : nat :=
  length (filter (fun qr => fst qr = slot /\ snd qr <> 0) out).

Definition well_formed (p : platform) (st : state) : Prop :=
  length (key_states st) = 256%nat /\ length (last_key_states st) = 256%nat /\
  forall key_val, 0 <= key_slot p key_val < 256.

(** The game loop of the scenarios: every tick pumps its batch of events
    and then queries [key_val] once. *)
Definition ticks (key_val : Z) (batches : list (list event)) : list action :=
  flat_map (fun events => [Update events; PressedOnce key_val]) batches.

(** The current and the previous state of a slot. *)
Definition current (st : state) (slot : Z) : Z := key_states st !!! Z.to_nat slot.
Definition previous (st : state) (slot : Z) : Z := last_key_states st !!! Z.to_nat slot.

Definition a_space : Z := 32.

End Input.

(** ** Heap and the stb image library *)

Module Heap.

(** The live blocks and the allocator's future: the n-th entry of [oom]
    tells whether the n-th allocation from now runs out of memory; past
    the end of the list every allocation succeeds. *)
Record t : Type := mk
  { live : gset nat;
    oom : list bool }.

(** [malloc]: a null pointer or a block that was not live. *)
Definition malloc (h : t) : option nat * t :=
  match oom h with
  | true :: rest => (None, mk (live h) rest)
  | false :: rest => (Some (fresh (live h)), mk ({[fresh (live h)]} ∪ live h) rest)
  | [] => (Some (fresh (live h)), mk ({[fresh (live h)]} ∪ live h) [])
  end.

(** [free] and [stbi_image_free]. *)
Definition free (p : nat) (h : t) : t := mk (live h ∖ {[p]}) (oom h).

End Heap.

Module Stb.

(** A decoded image: 4 bytes (R, G, B, A) per pixel, rows first. *)
Record Image : Type := mkImage
  { width : Z; height : Z; data : list Z }.

(** The world outside the program: [files] is what [stbi_load] decodes for
    a path ([None] for a missing or corrupt file) and [resize] is the result
    of [stbir_resize_uint8_srgb] on a source buffer and its dimensions for
    target dimensions ([None] when it returns 0). *)
Record env : Type := mkEnv
  { files : string -> option Image;
    resize : list Z -> Z -> Z -> Z -> Z -> option (list Z) }.

(** [stbi_load(filename, &width, &height, &channels, 4)]: the decoded image
    in a fresh block, or a null pointer when the file cannot be decoded or
    memory runs out. *)
Definition stbi_load (E : env) (filename : string) (h : Heap.t)
  : option (nat * Image) * Heap.t :=
  match files E filename with
  | None => (None, h)
  | Some img =>
      match Heap.malloc h with
      | (None, h) => (None, h)
      | (Some p, h) => (Some (p, img), h)
      end
  end.

End Stb.

(** ** Image sprites and animated sprites *)

Module ArcadeAnimatedSprite.
(** [frames] is [None] for a null pointer and otherwise the block of the
    array together with its elements. *)
Record t : Type := mk
  { frames : option (nat * list ArcadeImageSprite.t);
    frame_count : Z;
    current_frame : Z;
    frame_interval : Z;
    frame_counter : Z }.
(** [(ArcadeAnimatedSprite){0}] *)
Definition zero : t := mk None 0 0 0 0.
End ArcadeAnimatedSprite.

(** Construction, release and movement of image sprites and of animated
    sprites, with the heap threaded through the calls that allocate. *)
Module Loader.

(** The repacking loop of [load_image_sprite]: RGBA bytes to 0xAARRGGBB. *)
Definition pack_pixels (target_width target_height : Z) (resized_data : list Z)
    (pixels : list Z) : list Z :=
  Loop.for_loop target_height (fun y pixels =>
    Loop.for_loop target_width (fun x pixels =>
      let idx := (y * target_width + x) * 4 in
      Loop.store pixels (y * target_width + x)
        (Z.lor (Z.lor (Z.lor (Z.shiftl (Loop.load resized_data idx) 16)
                             (Z.shiftl (Loop.load resized_data (idx + 1)) 8))
                      (Loop.load resized_data (idx + 2)))
               (Z.shiftl (Loop.load resized_data (idx + 3)) 24)
         mod 2 ^ 32))
      pixels)
    pixels.

(** [static int load_image_sprite(ArcadeImageSprite *sprite, const char *filename,
                                  int target_width, int target_height)]
    The result is the returned status, the sprite after the call and the
    heap after the call. *)
Definition load_image_sprite (E : Stb.env) (sprite : option ArcadeImageSprite.t)
    (filename : option string) (target_width target_height : Z) (h : Heap.t)
  : Z * option ArcadeImageSprite.t * Heap.t :=
  match sprite, filename with
  | Some s, Some filename =>
      match Stb.stbi_load E filename h with
      | (None, h) => (1, Some s, h)
      | (Some (data, img), h) =>
          match Heap.malloc h with
          | (None, h) => (1, Some s, Heap.free data h)
          | (Some resized, h) =>
              match Stb.resize E (Stb.data img) (Stb.width img) (Stb.height img)
                               target_width target_height with
              | None => (1, Some s, Heap.free resized (Heap.free data h))
              | Some resized_data =>
                  let s := ArcadeImageSprite.set_image_width target_width s in
                  let s := ArcadeImageSprite.set_image_height target_height s in
                  match Heap.malloc h with
                  | (None, h) =>
                      (1, Some (ArcadeImageSprite.set_pixels None s),
                       Heap.free resized (Heap.free data h))
                  | (Some px, h) =>
                      let pixels :=
                        pack_pixels target_width target_height resized_data
                          (replicate (Z.to_nat (target_width * target_height)) 0) in
                      let s := ArcadeImageSprite.set_pixels (Some (px, pixels)) s in
                      let h := Heap.free resized (Heap.free data h) in
                      let s := ArcadeImageSprite.set_width (F32.of_int target_width) s in
                      let s := ArcadeImageSprite.set_height (F32.of_int target_height) s in
                      let s := ArcadeImageSprite.set_active 1 s in
                      (0, Some s, h)
                  end
              end
          end
      end
  | _, _ => (1, sprite, h)
  end.

(** [ArcadeImageSprite arcade_create_image_sprite(float x, float y, float w, float h,
                                                  const char *filename)] *)
Definition arcade_create_image_sprite (E : Stb.env) (x y w h : F32.float)
    (filename : option string) (hp : Heap.t) : ArcadeImageSprite.t * Heap.t :=
  let sprite :=
    ArcadeImageSprite.mk x y F32.zero F32.zero F32.zero F32.zero None 0 0 1 in
  match filename with
  | None => (sprite, hp)
  | Some _ =>
      match load_image_sprite E (Some sprite) filename (F32.to_int w) (F32.to_int h) hp with
      | (status, Some sprite, hp) =>
          if status =? 0 then (sprite, hp)
          else (ArcadeImageSprite.set_pixels None sprite, hp)
      | (_, None, hp) => (sprite, hp)
      end
  end.

(** [void arcade_free_image_sprite(ArcadeImageSprite *sprite)] *)
Definition arcade_free_image_sprite (sprite : option ArcadeImageSprite.t) (hp : Heap.t)
  : option ArcadeImageSprite.t * Heap.t :=
  match sprite with
  | Some s =>
      match ArcadeImageSprite.pixels s with
      | Some (p, _) =>
          (Some (ArcadeImageSprite.set_active 0
                   (ArcadeImageSprite.set_image_height 0
                      (ArcadeImageSprite.set_image_width 0
                         (ArcadeImageSprite.set_pixels None s)))),
           Heap.free p hp)
      | None => (sprite, hp)
      end
  | None => (None, hp)
  end.

(** The contents of a freshly allocated, not yet written array element. *)
Definition blank : ArcadeImageSprite.t :=
  ArcadeImageSprite.mk F32.zero F32.zero F32.zero F32.zero F32.zero F32.zero None 0 0 0.

(** The rollback loop [for (int j = 0; j < i; j++) arcade_free_image_sprite(&anim.frames[j]);] *)
Definition free_loaded_frames (i : Z) (frames : list ArcadeImageSprite.t) (hp : Heap.t)
  : UB.outcome (list ArcadeImageSprite.t * Heap.t) :=
  Loop.for_loop_ub i (fun j st =>
    let? f := UB.array_get (fst st) j in
    match arcade_free_image_sprite (Some f) (snd st) with
    | (Some f, hp) =>
        let? frames := UB.array_set (fst st) j f in
        UB.Done (frames, hp)
    | (None, hp) => UB.Done (fst st, hp)
    end) (frames, hp).

(** The loading loop of [arcade_create_animated_sprite] from index [i], with
    [todo] iterations left.  It returns the frames and the heap when every
    frame was loaded, and [None] with the heap after the rollback when a
    frame failed (the caller then returns the zero animation). *)
Fixpoint load_frames (E : Stb.env) (x y w h : F32.float)
    (filenames : list (option string)) (block : nat) (todo : nat) (i : Z)
    (frames : list ArcadeImageSprite.t) (hp : Heap.t)
  : UB.outcome (option (list ArcadeImageSprite.t) * Heap.t) :=
  match todo with
  | O => UB.Done (Some frames, hp)
  | S todo =>
      let? filename := UB.array_get filenames i in
      let '(sprite, hp) := arcade_create_image_sprite E x y w h filename hp in
      let? frames := UB.array_set frames i sprite in
      match ArcadeImageSprite.pixels sprite with
      | None =>
          let? st := free_loaded_frames i frames hp in
          UB.Done (None, Heap.free block (snd st))
      | Some _ => load_frames E x y w h filenames block todo (i + 1) frames hp
      end
  end.

(** [ArcadeAnimatedSprite arcade_create_animated_sprite(float x, float y, float w, float h,
        const char **filenames, int frame_count, int frame_interval)]
    The result of [malloc] for the array is used unchecked. *)
Definition arcade_create_animated_sprite (E : Stb.env) (x y w h : F32.float)
    (filenames : list (option string)) (frame_count frame_interval : Z) (hp : Heap.t)
  : UB.outcome (ArcadeAnimatedSprite.t * Heap.t) :=
  match Heap.malloc hp with
  | (None, hp) => UB.Undefined
  | (Some block, hp) =>
      let frames := replicate (Z.to_nat frame_count) blank in
      let? r := load_frames E x y w h filenames block (Z.to_nat frame_count) 0 frames hp in
      match r with
      | (None, hp) => UB.Done (ArcadeAnimatedSprite.zero, hp)
      | (Some frames, hp) =>
          let? f0 := UB.array_get frames 0 in
          let? frames := UB.array_set frames 0 (ArcadeImageSprite.set_active 1 f0) in
          UB.Done (ArcadeAnimatedSprite.mk (Some (block, frames)) frame_count 0
                     frame_interval 0, hp)
      end
  end.

(** [anim->frames[i].field = current->field;] where [current] points to
    [anim->frames[current]]: both elements are read from the array as it is
    when the statement runs. *)
Definition assign_field (set : F32.float -> ArcadeImageSprite.t -> ArcadeImageSprite.t)
    (get : ArcadeImageSprite.t -> F32.float) (i current : Z)
    (frames : list ArcadeImageSprite.t) : UB.outcome (list ArcadeImageSprite.t) :=
  let? fi := UB.array_get frames i in
  let? c := UB.array_get frames current in
  UB.array_set frames i (set (get c) fi).

(** [void arcade_move_animated_sprite(ArcadeAnimatedSprite *anim, float gravity,
                                      int window_height)] *)
Definition arcade_move_animated_sprite (anim : option ArcadeAnimatedSprite.t)
    (gravity : F32.float) (window_height : Z)
  : UB.outcome (option ArcadeAnimatedSprite.t) :=
  match anim with
  | None => UB.Done None
  | Some a =>
      match ArcadeAnimatedSprite.frames a with
      | None => UB.Undefined
      | Some (block, frames) =>
          let? f0 := UB.array_get frames 0 in
          if ArcadeImageSprite.active f0 =? 0 then UB.Done anim else
          let current := ArcadeAnimatedSprite.current_frame a in
          let? cur := UB.array_get frames current in
          let? frames :=
            match Sprite.arcade_move_image_sprite (Some cur) gravity window_height with
            | Some cur => UB.array_set frames current cur
            | None => UB.Done frames
            end in
          let? frames :=
            Loop.for_loop_ub (ArcadeAnimatedSprite.frame_count a) (fun i frames =>
              let? frames := assign_field ArcadeImageSprite.set_x ArcadeImageSprite.x
                               i current frames in
              let? frames := assign_field ArcadeImageSprite.set_y ArcadeImageSprite.y
                               i current frames in
              let? frames := assign_field ArcadeImageSprite.set_vx ArcadeImageSprite.vx
                               i current frames in
              assign_field ArcadeImageSprite.set_vy ArcadeImageSprite.vy
                i current frames) frames in
          let frame_counter := Int.wrap (ArcadeAnimatedSprite.frame_counter a + 1) in
          if ArcadeAnimatedSprite.frame_interval a <=? frame_counter then
            if ArcadeAnimatedSprite.frame_count a =? 0 then UB.Undefined else
            UB.Done (Some (ArcadeAnimatedSprite.mk (Some (block, frames))
                             (ArcadeAnimatedSprite.frame_count a)
                             (Int.rem (Int.wrap (current + 1))
                                      (ArcadeAnimatedSprite.frame_count a))
                             (ArcadeAnimatedSprite.frame_interval a)
                             0))
          else
            UB.Done (Some (ArcadeAnimatedSprite.mk (Some (block, frames))
                             (ArcadeAnimatedSprite.frame_count a)
                             current
                             (ArcadeAnimatedSprite.frame_interval a)
                             frame_counter))
      end
  end.

(** A path that cannot be decoded: the null pointer, or a file that
    [stbi_load] rejects. *)
Definition undecodable (E : Stb.env) (filename : option string) : Prop :=
  match filename with
  | None => True
  | Some fn => Stb.files E fn = None
  end.

(** The heap blocks owned by frames through their [pixels] pointers. *)
Definition pixel_block (f : ArcadeImageSprite.t) : gset nat :=
  match ArcadeImageSprite.pixels f with
  | Some (p, _) => {[p]}
  | None => ∅
  end.

Definition pixel_blocks (frames : list ArcadeImageSprite.t) : gset nat :=
  ⋃ (pixel_block <$> frames).

(** An environment without any image file, and the empty heap. *)
Definition no_files : Stb.env :=
  Stb.mkEnv (fun _ => None) (fun _ _ _ _ _ => None).

Definition empty_heap : Heap.t := Heap.mk ∅ [].

(** An environment with the single file [bird.png], a 1x1 opaque red
    image, and a resizer that fills the target with the first pixel. *)
Definition one_file : Stb.env :=
  Stb.mkEnv
    (fun path => if String.eqb path "bird.png" then Some (Stb.mkImage 1 1 [255; 0; 0; 255])
                 else None)
    (fun data _ _ tw th =>
       Some (concat (replicate (Z.to_nat (tw * th)) (take 4 data)))).

End Loader.

(** ** Sprite groups *)

Module Group.

(** [ArcadeAnySprite]: the union holds one of the two sprite kinds. *)
Inductive ArcadeAnySprite : Type :=
| sprite (s : ArcadeSprite.t)
| image_sprite (s : ArcadeImageSprite.t).

Definition SPRITE_COLOR : Z := 0.
Definition SPRITE_IMAGE : Z := 1.

(** [sprites] and [types] are the two arrays of [capacity] elements. *)
Record SpriteGroup : Type := mk
  { sprites : list ArcadeAnySprite;
    types : list Z;
    count : Z;
    capacity : Z }.

(** [void arcade_add_sprite_to_group(SpriteGroup *group, ArcadeAnySprite sprite, int type)] *)
Definition arcade_add_sprite_to_group (group : SpriteGroup) (s : ArcadeAnySprite)
    (type : Z) : UB.outcome SpriteGroup :=
  if count group <? capacity group then
    let? sprites := UB.array_set (sprites group) (count group) s in
    let? types := UB.array_set (types group) (count group) type in
    UB.Done (mk sprites types (Int.wrap (count group + 1)) (capacity group))
  else UB.Done group.

(** The entry at index [i], as the renderer reads it. *)
Definition entry (group : SpriteGroup) (i : nat) : option (ArcadeAnySprite * Z) :=
  match sprites group !! i, types group !! i with
  | Some s, Some t => Some (s, t)
  | _, _ => None
  end.

End Group.

(** ** Image transforms *)

Module Transform.

(** The remapping of [arcade_flip_image], between [stbi_load] and
    [stbi_write_png]: from the decoded image to the image that is encoded.
    [flipped_data] is the freshly allocated output buffer. *)
Definition arcade_flip_image (img : Stb.Image) (flip_type : Z) : Stb.Image :=
  let width := Stb.width img in
  let height := Stb.height img in
  let data := Stb.data img in
  let flipped_data := replicate (Z.to_nat (width * height * 4)) 0 in
  let flipped_data :=
    if flip_type =? 1 then
      Loop.for_loop height (fun y flipped_data =>
        Loop.for_loop width (fun x flipped_data =>
          let src_idx := (height - 1 - y) * width * 4 + x * 4 in
          let dst_idx := y * width * 4 + x * 4 in
          Loop.for_loop 4 (fun c flipped_data =>
            Loop.store flipped_data (dst_idx + c) (Loop.load data (src_idx + c)))
            flipped_data)
          flipped_data)
        flipped_data
    else
      Loop.for_loop height (fun y flipped_data =>
        Loop.for_loop width (fun x flipped_data =>
          let src_idx := y * width * 4 + (width - 1 - x) * 4 in
          let dst_idx := y * width * 4 + x * 4 in
          Loop.for_loop 4 (fun c flipped_data =>
            Loop.store flipped_data (dst_idx + c) (Loop.load data (src_idx + c)))
            flipped_data)
          flipped_data)
        flipped_data in
  Stb.mkImage width height flipped_data.

(** The remapping of [arcade_rotate_image]. *)
Definition arcade_rotate_image (img : Stb.Image) (degrees : Z) : Stb.Image :=
  let width := Stb.width img in
  let height := Stb.height img in
  let data := Stb.data img in
  let new_width := if (degrees =? 90) || (degrees =? 270) then height else width in
  let new_height := if (degrees =? 90) || (degrees =? 270) then width else height in
  let rotated_data := replicate (Z.to_nat (new_width * new_height * 4)) 0 in
  let rotated_data :=
    Loop.for_loop new_height (fun y rotated_data =>
      Loop.for_loop new_width (fun x rotated_data =>
        let src_x :=
          if degrees =? 90 then y
          else if degrees =? 180 then width - 1 - x
          else if degrees =? 270 then new_height - 1 - y
          else x in
        let src_y :=
          if degrees =? 90 then new_width - 1 - x
          else if degrees =? 180 then height - 1 - y
          else if degrees =? 270 then x
          else y in
        let src_idx := src_y * width * 4 + src_x * 4 in
        let dst_idx := y * new_width * 4 + x * 4 in
        Loop.for_loop 4 (fun c rotated_data =>
          Loop.store rotated_data (dst_idx + c) (Loop.load data (src_idx + c)))
          rotated_data)
        rotated_data)
      rotated_data in
  Stb.mkImage new_width new_height rotated_data.

(** A decoded image holds [width * height] pixels of 4 bytes; [stbi_load]
    only returns images with positive dimensions whose size in bytes fits
    in an [int], so the index arithmetic of the loops above is exact. *)
Definition well_formed (img : Stb.Image) : Prop :=
  0 < Stb.width img /\ 0 < Stb.height img /\
  Stb.width img * Stb.height img * 4 <= Int.max_signed /\
  Z.of_nat (length (Stb.data img)) = Stb.width img * Stb.height img * 4.

(** The byte of channel [c] of the pixel in column [x] and row [y]. *)
Definition encode (width x y c : Z) : Z := y * width * 4 + x * 4 + c.

Definition px (img : Stb.Image) (x y c : Z) : Z :=
  Loop.load (Stb.data img) (encode (Stb.width img) x y c).

(** Column, row and channel of the byte at index [j]. *)
Definition pixel_x (width j : Z) : Z := (j / 4) mod width.
Definition pixel_y (width j : Z) : Z := (j / 4) / width.
Definition channel (j : Z) : Z := j mod 4.

(** The shape shared by the copy loops of the two transforms: the byte at
    column [x], row [y], channel [c] of the output comes from index
    [src x y + c] of the input. *)
Definition remap (width height : Z) (src : Z -> Z -> Z) (data buf : list Z) : list Z :=
  Loop.for_loop height (fun y buf =>
    Loop.for_loop width (fun x buf =>
      Loop.for_loop 4 (fun c buf =>
        Loop.store buf (y * width * 4 + x * 4 + c) (Loop.load data (src x y + c)))
        buf)
      buf)
    buf.

(** The first [k] bytes of [buf] are final. *)
Definition filled (width : Z) (src : Z -> Z -> Z) (data : list Z) (len : nat) (k : Z)
    (buf : list Z) : Prop :=
  length buf = len /\
  forall j, 0 <= j < k ->
            buf !! Z.to_nat j
            = Some (Loop.load data (src (pixel_x width j) (pixel_y width j) + channel j)).

(** A 2x3 image with distinct bytes. *)
Definition sample : Stb.Image :=
  Stb.mkImage 2 3 [1; 2; 3; 4; 5; 6; 7; 8; 9; 10; 11; 12;
                   13; 14; 15; 16; 17; 18; 19; 20; 21; 22; 23; 24].

End Transform.

(** ** Animations over time *)

Module Anim.

(** The array holds [frame_count] frames, and the two [int] parameters
    are in the range of [int]. *)
Definition well_formed (a : ArcadeAnimatedSprite.t) : Prop :=
  Int.in_range (ArcadeAnimatedSprite.frame_count a) /\
  Int.in_range (ArcadeAnimatedSprite.frame_interval a) /\
  exists block frames,
    ArcadeAnimatedSprite.frames a = Some (block, frames) /\
    Z.of_nat (length frames) = ArcadeAnimatedSprite.frame_count a.

(** The index and the counter stay below their bounds. *)
Definition invariant (a : ArcadeAnimatedSprite.t) : Prop :=
  0 <= ArcadeAnimatedSprite.current_frame a < ArcadeAnimatedSprite.frame_count a /\
  0 <= ArcadeAnimatedSprite.frame_counter a < ArcadeAnimatedSprite.frame_interval a.

Definition first_active (a : ArcadeAnimatedSprite.t) : Prop :=
  exists block frames f0,
    ArcadeAnimatedSprite.frames a = Some (block, frames) /\
    frames !! 0%nat = Some f0 /\ ArcadeImageSprite.active f0 <> 0.

(** The active flags of the frames, in order. *)
Definition actives (frames : list ArcadeImageSprite.t) : list Z :=
  ArcadeImageSprite.active <$> frames.

(** One call of [arcade_move_animated_sprite] per element of [calls], each
    with its own gravity and window height. *)
Fixpoint advance (calls : list (F32.float * Z)) (a : ArcadeAnimatedSprite.t)
  : UB.outcome ArcadeAnimatedSprite.t :=
  match calls with
  | [] => UB.Done a
  | (gravity, window_height) :: calls =>
      let? r := Loader.arcade_move_animated_sprite (Some a) gravity window_height in
      match r with
      | Some a' => advance calls a'
      | None => UB.Undefined
      end
  end.

(** The effect of one call on the pair (current frame, frame counter). *)
Definition tick (frame_count frame_interval : Z) (s : Z * Z) : Z * Z :=
  if frame_interval <=? snd s + 1
  then ((fst s + 1) mod frame_count, 0)
  else (fst s, snd s + 1).

(** A three-frame animation of the scenario sprite, advancing every
    second call, and calls with gravity 0.5 in a window of height 600. *)
Definition bird : ArcadeAnimatedSprite.t :=
  ArcadeAnimatedSprite.mk
    (Some (0%nat, replicate 3 (ArcadeImageSprite.mk (F32.of_int 70) (F32.of_int 100)
                                 (F32.of_int 40) (F32.of_int 40) F32.zero F32.zero
                                 None 40 40 1)))
    3 0 2 0.

Definition calls (n : nat) : list (F32.float * Z) := replicate n (F32.lit 1 (-1), 600).

End Anim.

(** ** Vocabulary of the statements *)

Module Body.

(** The part that the two sprite kinds share: rectangle, velocity and
    active flag. *)
Record t : Type := mk
  { x : F32.float; y : F32.float;
    width : F32.float; height : F32.float;
    vy : F32.float; vx : F32.float;
    active : Z }.

Definition of_sprite (s : ArcadeSprite.t) : t :=
  mk (ArcadeSprite.x s) (ArcadeSprite.y s) (ArcadeSprite.width s)
     (ArcadeSprite.height s) (ArcadeSprite.vy s) (ArcadeSprite.vx s)
     (ArcadeSprite.active s).

Definition of_image (s : ArcadeImageSprite.t) : t :=
  mk (ArcadeImageSprite.x s) (ArcadeImageSprite.y s) (ArcadeImageSprite.width s)
     (ArcadeImageSprite.height s) (ArcadeImageSprite.vy s) (ArcadeImageSprite.vx s)
     (ArcadeImageSprite.active s).

(** The maximum coordinates of the rectangle, as the code computes them. *)
Definition x_max (b : t) : F32.float := F32.add (x b) (width b).
Definition y_max (b : t) : F32.float := F32.add (y b) (height b).

(** Both active, and on each axis each minimum strictly below the other's
    maximum. *)
Definition overlap (a b : t) : Prop :=
  active a <> 0 /\ active b <> 0 /\
  F32.lt (x a) (x_max b) = true /\ F32.lt (x b) (x_max a) = true /\
  F32.lt (y a) (y_max b) = true /\ F32.lt (y b) (y_max a) = true.

(** The lowest admissible [y]: [window_height - height]. *)
Definition floor (b : t) (window_height : Z) : F32.float :=
  F32.sub (F32.of_int window_height) (height b).

(** [y] lies in [[0, hi]]: it is neither below 0 nor above [hi]. *)
Definition within (y hi : F32.float) : Prop :=
  F32.lt y F32.zero = false /\ F32.gt y hi = false.

(** [b'] is [b] after [vy += gravity; y += vy; x += vx] followed by the
    clamp of [y] into [[0, window_height - height]], with [vy] zeroed
    exactly when the clamp is applied. *)
Definition moved (b b' : t) (gravity : F32.float) (window_height : Z) : Prop :=
  let vy1 := F32.add (vy b) gravity in
  let y1 := F32.add (y b) vy1 in
  let hi := floor b window_height in
  x b' = F32.add (x b) (vx b) /\
  vx b' = vx b /\ width b' = width b /\ height b' = height b /\
  active b' = active b /\
  within (y b') hi /\
  (F32.lt y1 F32.zero = true -> y b' = F32.zero /\ vy b' = F32.zero) /\
  (F32.lt y1 F32.zero = false -> F32.gt y1 hi = true ->
   y b' = hi /\ vy b' = F32.zero) /\
  (F32.lt y1 F32.zero = false -> F32.gt y1 hi = false ->
   y b' = y1 /\ vy b' = vy1).

(** The sprite of the movement scenarios: a 40x40 image sprite at x = 70
    in a window of height 600, with vx = 0. *)
Definition scenario (y vy : F32.float) (pixels : option (nat * list Z))
  : ArcadeImageSprite.t :=
  ArcadeImageSprite.mk (F32.of_int 70) y (F32.of_int 40) (F32.of_int 40) vy F32.zero
    pixels 40 40 1.

(** A sprite taller than the window: height 700 in a window of 600. *)
Definition tall : ArcadeImageSprite.t :=
  ArcadeImageSprite.mk (F32.of_int 70) F32.zero (F32.of_int 40) (F32.of_int 700)
    F32.zero F32.zero None 40 700 1.

(** The test of the two collision functions on the shared part. *)
Definition collide (a b : t) : Z :=
  if (active a =? 0) || (active b =? 0) then 0
  else if F32.lt (x a) (x_max b) && F32.gt (x_max a) (x b)
          && F32.lt (y a) (y_max b) && F32.gt (y_max a) (y b)
       then 1 else 0.

(** [0.5f], [5.0f] and [560.5f]. *)
Definition half : F32.float := F32.lit 1 (-1).
Definition five : F32.float := F32.of_int 5.
Definition y_560_5 : F32.float := F32.lit 1121 (-1).

End Body.

(** ** More of the event pump *)

Module Pump.

Definition is_close (ev : Input.event) : bool :=
  match ev with
  | Input.CloseRequest => true
  | _ => false
  end.

(** [a_c] of the key definitions, and the key symbol of the Insert key,
    which has the low byte of [a_c]. *)
Definition a_c : Z := 99.
Definition insert_sym : Z := 65379.

End Pump.

(** ** Timing *)

Module F64.

(** A C [double] is an IEEE-754 binary64 value. *)
Definition prec : Z := 53.
Definition emax : Z := 1024.

Abbreviation double := spec_float.

Definition sub (a b : double) : double := SFsub prec emax a b.
Definition eqb (a b : double) : bool := SFeqb a b.
Definition zero : double := S754_zero false.

(** [(float)d]: rounding to the nearest binary32 value. *)
Definition to_float (d : double) : F32.float :=
  match d with
  | S754_finite s m e => binary_round F32.prec F32.emax s m e
  | _ => d
  end.

Arguments sub : simpl never.
Arguments eqb : simpl never.
Arguments to_float : simpl never.

End F64.

Module Timing.

(** [0.1f], the binary32 value nearest to one tenth. *)
Definition tenth : F32.float := S754_finite false 13421773 (-27).

(** [float arcade_delta_time(void)], after the platform section has read
    the clock into [current_time]; [last_time] is the static variable of the
    function.  The result is the returned value and the new [last_time]. *)
Definition arcade_delta_time (current_time last_time : F64.double)
  : F32.float * F64.double :=
  if F64.eqb last_time F64.zero || F64.eqb current_time F64.zero
  then (F32.zero, current_time)
  else
    let delta_time := F64.to_float (F64.sub current_time last_time) in
    let last_time := current_time in
    let delta_time := if F32.gt delta_time tenth then tenth else delta_time in
    let delta_time := if F32.lt delta_time F32.zero then F32.zero else delta_time in
    (delta_time, last_time).

(** The values returned by successive calls, one per clock reading. *)
Fixpoint deltas (readings : list F64.double) (last_time : F64.double)
  : list F32.float :=
  match readings with
  | [] => []
  | current_time :: readings =>
      fst (arcade_delta_time current_time last_time)
        :: deltas readings (snd (arcade_delta_time current_time last_time))
  end.

End Timing.

(** ** Animated sprites: release and collision *)

Module Animated.


(** [int arcade_check_animated_collision(ArcadeAnimatedSprite *anim,
                                         ArcadeImageSprite *other)] *)
Definition arcade_check_animated_collision (anim : option ArcadeAnimatedSprite.t)
    (other : option ArcadeImageSprite.t) : UB.outcome Z :=
  match anim, other with
  | Some a, Some o =>
      match ArcadeAnimatedSprite.frames a with
      | None => UB.Undefined
      | Some (_, frames) =>
          let? f0 := UB.array_get frames 0 in
          if (ArcadeImageSprite.active f0 =? 0) || (ArcadeImageSprite.active o =? 0)
          then UB.Done 0
          else
            let? cur := UB.array_get frames (ArcadeAnimatedSprite.current_frame a) in
            UB.Done (Sprite.arcade_check_image_collision (Some cur) other)
      end
  | _, _ => UB.Done 0
  end.

(** The frame that is displayed. *)
Definition displayed (a : ArcadeAnimatedSprite.t) : option ArcadeImageSprite.t :=
  match ArcadeAnimatedSprite.frames a with
  | Some (_, frames) => frames !! Z.to_nat (ArcadeAnimatedSprite.current_frame a)
  | None => None
  end.

(** [f] with the position and the velocity of [c]. *)
Definition placed_at (c f : ArcadeImageSprite.t) : ArcadeImageSprite.t :=
  ArcadeImageSprite.set_vy (ArcadeImageSprite.vy c)
    (ArcadeImageSprite.set_vx (ArcadeImageSprite.vx c)
       (ArcadeImageSprite.set_y (ArcadeImageSprite.y c)
          (ArcadeImageSprite.set_x (ArcadeImageSprite.x c) f))).

End Animated.

(** ** Conversions to [int] *)

Module Cast.

(** The integral part of a float that is a number, towards zero. *)
Definition trunc (f : F32.float) : option Z :=
  match f with
  | S754_zero _ => Some 0
  | S754_finite s m e =>
      Some (cond_Zopp s (match e with
                         | Z0 => Zpos m
                         | Zpos _ => Zpos m * 2 ^ e
                         | Zneg _ => Zpos m / 2 ^ (- e)
                         end))
  | _ => None
  end.

(** [(int)f]: undefined for a NaN, for an infinity and when the integral
    part is outside the range of [int]. *)
Definition int_of_float (f : F32.float) : UB.outcome Z :=
  match trunc f with
  | Some z =>
      if (Int.min_signed <=? z) && (z <=? Int.max_signed) then UB.Done z
      else UB.Undefined
  | None => UB.Undefined
  end.

End Cast.

(** ** Rendering *)

Module Render.

(** The part of [ArcadeState] that the renderer uses: the frame buffer of
    [width * height] pixels, rows first, and the background colour. *)
Record State : Type := mk
  { pixels : list Z;
    width : Z;
    height : Z;
    bg_color : Z }.

Definition set_pixels (p : list Z) (st : State) : State :=
  mk p (width st) (height st) (bg_color st).

(** [a + b] on [int]; a signed overflow is undefined. *)
Definition int_add (a b : Z) : UB.outcome Z :=
  if (Int.min_signed <=? a + b) && (a + b <=? Int.max_signed)
  then UB.Done (a + b) else UB.Undefined.

(** [a * b] on [int]; a signed overflow is undefined. *)
Definition int_mul (a b : Z) : UB.outcome Z :=
  if (Int.min_signed <=? a * b) && (a * b <=? Int.max_signed)
  then UB.Done (a * b) else UB.Undefined.

(** The index [y * w + x] of a pixel, computed on [int]. *)
Definition index (y w x : Z) : UB.outcome Z :=
  let? row := int_mul y w in
  int_add row x.

(** The branch of [draw_sprite] for a colour sprite.  The two loops run
    [y] from [y_start] while [y < y_end && y < state.height] and [x] from
    [x_start] while [x < x_end && x < state.width]; [dy] and [dx] count
    their iterations. *)
Definition draw_color (s : ArcadeSprite.t) (st : State) : UB.outcome State :=
  let? x_start := Cast.int_of_float (ArcadeSprite.x s) in
  let? y_start := Cast.int_of_float (ArcadeSprite.y s) in
  let? w := Cast.int_of_float (ArcadeSprite.width s) in
  let? x_end := int_add x_start w in
  let? h := Cast.int_of_float (ArcadeSprite.height s) in
  let? y_end := int_add y_start h in
  let color := ArcadeSprite.color s in
  let? pixels :=
    Loop.for_loop_ub (Z.min y_end (height st) - y_start) (fun dy pixels =>
      let y := y_start + dy in
      if y <? 0 then UB.Done pixels else
      Loop.for_loop_ub (Z.min x_end (width st) - x_start) (fun dx pixels =>
        let x := x_start + dx in
        if x <? 0 then UB.Done pixels else
        let? i := index y (width st) x in
        UB.array_set pixels i color) pixels) (pixels st) in
  UB.Done (set_pixels pixels st).

(** The branch for an image sprite with the pixel buffer [data].  Here the
    loops also stop at [sy < ih] and [sx < iw], and [sy], [sx] are the
    iteration counters of the source. *)
Definition draw_image (s : ArcadeImageSprite.t) (data : list Z) (st : State)
  : UB.outcome State :=
  let? x_start := Cast.int_of_float (ArcadeImageSprite.x s) in
  let? y_start := Cast.int_of_float (ArcadeImageSprite.y s) in
  let? w := Cast.int_of_float (ArcadeImageSprite.width s) in
  let? x_end := int_add x_start w in
  let? h := Cast.int_of_float (ArcadeImageSprite.height s) in
  let? y_end := int_add y_start h in
  let iw := ArcadeImageSprite.image_width s in
  let ih := ArcadeImageSprite.image_height s in
  let? pixels :=
    Loop.for_loop_ub (Z.min (Z.min y_end (height st) - y_start) ih) (fun sy pixels =>
      let y := y_start + sy in
      if y <? 0 then UB.Done pixels else
      Loop.for_loop_ub (Z.min (Z.min x_end (width st) - x_start) iw) (fun sx pixels =>
        let x := x_start + sx in
        if x <? 0 then UB.Done pixels else
        let? j := index sy iw sx in
        let? pixel := UB.array_get data j in
        if 0 <? Z.shiftr pixel 24
        then
          let? i := index y (width st) x in
          UB.array_set pixels i pixel
        else UB.Done pixels) pixels) (pixels st) in
  UB.Done (set_pixels pixels st).

(** [static void draw_sprite(ArcadeAnySprite *sprite, int type)]
    The union is read through the member that [type] names; reading the
    member that was not stored is outside the model. *)
Definition draw_sprite (sprite : option Group.ArcadeAnySprite) (type : Z) (st : State)
  : UB.outcome State :=
  match sprite with
  | None => UB.Done st
  | Some u =>
      if type =? Group.SPRITE_COLOR then
        match u with
        | Group.sprite s =>
            if ArcadeSprite.active s =? 0 then UB.Done st else draw_color s st
        | Group.image_sprite _ => UB.Undefined
        end
      else if type =? Group.SPRITE_IMAGE then
        match u with
        | Group.image_sprite s =>
            if ArcadeImageSprite.active s =? 0 then UB.Done st else
            match ArcadeImageSprite.pixels s with
            | Some (_, data) => draw_image s data st
            | None => UB.Done st
            end
        | Group.sprite _ => UB.Undefined
        end
      else UB.Done st
  end.

(** [void arcade_render_scene(ArcadeAnySprite *sprites, int count, int *types)]
    up to the transfer of the frame buffer to the window. *)
Definition arcade_render_scene (sprites : list Group.ArcadeAnySprite) (count : Z)
    (types : list Z) (st : State) : UB.outcome State :=
  let? cells := int_mul (width st) (height st) in
  let? pixels :=
    Loop.for_loop_ub cells (fun i pixels =>
      UB.array_set pixels i (bg_color st)) (pixels st) in
  Loop.for_loop_ub count (fun i st =>
    let? s := UB.array_get sprites i in
    let? t := UB.array_get types i in
    draw_sprite (Some s) t st) (set_pixels pixels st).

(** [void arcade_render_group(SpriteGroup *group)] *)
Definition arcade_render_group (group : Group.SpriteGroup) (st : State)
  : UB.outcome State :=
  arcade_render_scene (Group.sprites group) (Group.count group) (Group.types group) st.

(** The buffer holds [width * height] pixels and that product is an [int]. *)
Definition well_formed (st : State) : Prop :=
  0 <= width st /\ 0 <= height st /\
  Int.in_range (width st * height st) /\
  Z.of_nat (length (pixels st)) = width st * height st.

(** The pixel of the frame buffer at column [px] of row [py]. *)
Definition at_xy (st : State) (px py : Z) : option Z :=
  pixels st !! Z.to_nat (py * width st + px).

(** [p] lies in [[start, start + len)]. *)
Definition spans (start len p : Z) : bool := (start <=? p) && (p <? start + len).

(** The colour that a sprite drawn as [type] puts at the window pixel
    ([px], [py]), if any: the colour of an active colour sprite inside its
    rectangle, and for an active image sprite the pixel of its buffer at
    the offset from the top left corner, when that pixel exists and its
    alpha byte is not 0.  The corner and the size are read with
    [F32.to_int], which is the cast wherever the cast is defined. *)
Definition paint (u : Group.ArcadeAnySprite) (type : Z) (px py : Z) : option Z :=
  match u with
  | Group.sprite s =>
      if (type =? Group.SPRITE_COLOR) && negb (ArcadeSprite.active s =? 0)
         && spans (F32.to_int (ArcadeSprite.x s)) (F32.to_int (ArcadeSprite.width s)) px
         && spans (F32.to_int (ArcadeSprite.y s)) (F32.to_int (ArcadeSprite.height s)) py
      then Some (ArcadeSprite.color s) else None
  | Group.image_sprite s =>
      match ArcadeImageSprite.pixels s with
      | Some (_, data) =>
          let sx := px - F32.to_int (ArcadeImageSprite.x s) in
          let sy := py - F32.to_int (ArcadeImageSprite.y s) in
          if (type =? Group.SPRITE_IMAGE) && negb (ArcadeImageSprite.active s =? 0)
             && spans (F32.to_int (ArcadeImageSprite.x s))
                      (F32.to_int (ArcadeImageSprite.width s)) px
             && spans (F32.to_int (ArcadeImageSprite.y s))
                      (F32.to_int (ArcadeImageSprite.height s)) py
             && (sx <? ArcadeImageSprite.image_width s)
             && (sy <? ArcadeImageSprite.image_height s)
          then
            let pixel := Loop.load data (sy * ArcadeImageSprite.image_width s + sx) in
            if 0 <? Z.shiftr pixel 24 then Some pixel else None
          else None
      | None => None
      end
  end.

(** The casts and the additions that [draw_sprite] makes on the
    rectangle of a sprite are defined: the four floats are numbers whose
    integral parts are [int]s, and so are the two ends
    [x_start + (int)width] and [y_start + (int)height]. *)
Definition geometry (x y width height : F32.float) : Prop :=
  exists x_start y_start w h,
    Cast.int_of_float x = UB.Done x_start /\
    Cast.int_of_float y = UB.Done y_start /\
    Cast.int_of_float width = UB.Done w /\
    Cast.int_of_float height = UB.Done h /\
    Int.in_range (x_start + w) /\ Int.in_range (y_start + h).

(** What the renderer needs of a sprite: it is stored in the member that
    its type names, and when it is drawn (its type is one of the two
    known ones, it is active, and an image sprite has a pixel buffer) its
    rectangle has a defined geometry and the pixel buffer of an image
    sprite with positive dimensions holds [image_width * image_height]
    pixels, a number that is an [int]. *)
Definition drawable (u : Group.ArcadeAnySprite) (type : Z) : Prop :=
  match u with
  | Group.sprite s =>
      type <> Group.SPRITE_IMAGE /\
      (type = Group.SPRITE_COLOR -> ArcadeSprite.active s <> 0 ->
       geometry (ArcadeSprite.x s) (ArcadeSprite.y s)
                (ArcadeSprite.width s) (ArcadeSprite.height s))
  | Group.image_sprite s =>
      type <> Group.SPRITE_COLOR /\
      (type = Group.SPRITE_IMAGE -> ArcadeImageSprite.active s <> 0 ->
       forall block data, ArcadeImageSprite.pixels s = Some (block, data) ->
         geometry (ArcadeImageSprite.x s) (ArcadeImageSprite.y s)
                  (ArcadeImageSprite.width s) (ArcadeImageSprite.height s) /\
         (0 < ArcadeImageSprite.image_width s -> 0 < ArcadeImageSprite.image_height s ->
          Int.in_range (ArcadeImageSprite.image_width s
                        * ArcadeImageSprite.image_height s) /\
          ArcadeImageSprite.image_width s * ArcadeImageSprite.image_height s
          <= Z.of_nat (length data)))
  end.

(** The colour of the pixel ([px], [py]) after the scene is painted in
    order over the background: the last sprite that paints it wins. *)
Definition composite (scene : list (Group.ArcadeAnySprite * Z)) (bg : Z) (px py : Z) : Z :=
  fold_left (fun colour e => default colour (paint (fst e) (snd e) px py)) scene bg.

(** The first [count] entries of the two arrays. *)
Definition scene (sprites : list Group.ArcadeAnySprite) (count : Z) (types : list Z)
  : list (Group.ArcadeAnySprite * Z) :=
  take (Z.to_nat count) (zip sprites types).

(** The content of the pixel ([px], [py]) after the two nested loops of
    [draw_sprite] over a rectangle of [nx] by [ny] cells at ([x_start],
    [y_start]) have run on the buffer [old], where [cell sx sy] is the
    colour that the loop body stores for the cell, if any. *)
Definition rect_new (W x_start y_start nx ny : Z) (cell : Z -> Z -> option Z)
    (old : list Z) (px py : Z) : option Z :=
  match (if spans x_start nx px && spans y_start ny py
         then cell (px - x_start) (py - y_start) else None) with
  | Some c => Some c
  | None => old !! Z.to_nat (py * W + px)
  end.

(** The buffer [p] while the loops run: the pixels selected by [done]
    are final and the others are as in [old]. *)
Definition rect_done (W H x_start y_start nx ny : Z) (cell : Z -> Z -> option Z)
    (old p : list Z) (done : Z -> Z -> bool) : Prop :=
  length p = length old /\
  forall px py, 0 <= px < W -> 0 <= py < H ->
                p !! Z.to_nat (py * W + px)
                = if done px py then rect_new W x_start y_start nx ny cell old px py
                  else old !! Z.to_nat (py * W + px).

End Render.

(** ** The image loader with its casts, sizes and releases checked *)

Module Strict.

(** [free(p)] and [stbi_image_free(p)] for a pointer that is not null:
    releasing a block that is not live, as a second [free] of the same
    pointer does, is undefined. *)
Definition free (p : nat) (h : Heap.t) : UB.outcome Heap.t :=
  if decide (p ∈ Heap.live h) then UB.Done (Heap.free p h) else UB.Undefined.

(** [malloc(size)] for a size that was computed on [int]: a negative size
    becomes a [size_t] beyond the size of any object, for which the call
    returns a null pointer. *)
Definition malloc (size : Z) (h : Heap.t) : option nat * Heap.t :=
  if size <? 0 then (None, h) else Heap.malloc h.

(** [static int load_image_sprite(ArcadeImageSprite *sprite, const char *filename,
                                  int target_width, int target_height)]
    with the size [target_width * target_height * 4] computed on [int] and
    every release checked.  Both buffers are requested with that size. *)
Definition load_image_sprite (E : Stb.env) (sprite : option ArcadeImageSprite.t)
    (filename : option string) (target_width target_height : Z) (h : Heap.t)
  : UB.outcome (Z * option ArcadeImageSprite.t * Heap.t) :=
  match sprite, filename with
  | Some s, Some filename =>
      match Stb.stbi_load E filename h with
      | (None, h) => UB.Done (1, Some s, h)
      | (Some (data, img), h) =>
          let? area := Render.int_mul target_width target_height in
          let? bytes := Render.int_mul area 4 in
          match malloc bytes h with
          | (None, h) =>
              let? h := free data h in
              UB.Done (1, Some s, h)
          | (Some resized, h) =>
              match Stb.resize E (Stb.data img) (Stb.width img) (Stb.height img)
                               target_width target_height with
              | None =>
                  let? h := free data h in
                  let? h := free resized h in
                  UB.Done (1, Some s, h)
              | Some resized_data =>
                  let s := ArcadeImageSprite.set_image_width target_width s in
                  let s := ArcadeImageSprite.set_image_height target_height s in
                  match malloc bytes h with
                  | (None, h) =>
                      let? h := free data h in
                      let? h := free resized h in
                      UB.Done (1, Some (ArcadeImageSprite.set_pixels None s), h)
                  | (Some px, h) =>
                      let pixels :=
                        Loader.pack_pixels target_width target_height resized_data
                          (replicate (Z.to_nat area) 0) in
                      let s := ArcadeImageSprite.set_pixels (Some (px, pixels)) s in
                      let? h := free data h in
                      let? h := free resized h in
                      let s := ArcadeImageSprite.set_width (F32.of_int target_width) s in
                      let s := ArcadeImageSprite.set_height (F32.of_int target_height) s in
                      let s := ArcadeImageSprite.set_active 1 s in
                      UB.Done (0, Some s, h)
                  end
              end
          end
      end
  | _, _ => UB.Done (1, sprite, h)
  end.

(** [ArcadeImageSprite arcade_create_image_sprite(float x, float y, float w, float h,
                                                  const char *filename)]
    The casts [(int)w] and [(int)h] are made only for a filename that is
    not null. *)
Definition arcade_create_image_sprite (E : Stb.env) (x y w h : F32.float)
    (filename : option string) (hp : Heap.t)
  : UB.outcome (ArcadeImageSprite.t * Heap.t) :=
  let sprite :=
    ArcadeImageSprite.mk x y F32.zero F32.zero F32.zero F32.zero None 0 0 1 in
  match filename with
  | None => UB.Done (sprite, hp)
  | Some _ =>
      let? target_width := Cast.int_of_float w in
      let? target_height := Cast.int_of_float h in
      let? r := load_image_sprite E (Some sprite) filename target_width target_height hp in
      match r with
      | (status, Some sprite, hp) =>
          if status =? 0 then UB.Done (sprite, hp)
          else UB.Done (ArcadeImageSprite.set_pixels None sprite, hp)
      | (_, None, hp) => UB.Done (sprite, hp)
      end
  end.

(** [void arcade_free_image_sprite(ArcadeImageSprite *sprite)] *)
Definition arcade_free_image_sprite (sprite : option ArcadeImageSprite.t) (hp : Heap.t)
  : UB.outcome (option ArcadeImageSprite.t * Heap.t) :=
  match sprite with
  | Some s =>
      match ArcadeImageSprite.pixels s with
      | Some (p, _) =>
          let? hp := free p hp in
          UB.Done (Some (ArcadeImageSprite.set_active 0
                           (ArcadeImageSprite.set_image_height 0
                              (ArcadeImageSprite.set_image_width 0
                                 (ArcadeImageSprite.set_pixels None s)))),
                   hp)
      | None => UB.Done (sprite, hp)
      end
  | None => UB.Done (None, hp)
  end.

End Strict.

(** ** Flappy Bird: the pipes *)

Module FlappyBird.

Definition MAX_PIPES : Z := 6.
Definition PIPE_WIDTH : F32.float := F32.of_int 50.
Definition PIPE_GAP : F32.float := F32.of_int 135.

Record Pipe : Type := mk
  { sprite : ArcadeImageSprite.t;
    scored : Z }.

Definition pipe_top : string := "./assets/sprites/pipe-top.png".
Definition pipe_bottom : string := "./assets/sprites/pipe-bottom.png".

(** [200.0f + (rand() % 150)], for the value [rand] that [rand()] returns. *)
Definition gap_y (rand : Z) : F32.float :=
  F32.add (F32.of_int 200) (F32.of_int (Int.rem rand 150)).

(** [pipes[i].sprite = s; pipes[i].scored = 0;] *)
Definition store_pipe (pipes : list Pipe) (i : Z) (s : ArcadeImageSprite.t)
  : UB.outcome (list Pipe) :=
  let? p := UB.array_get pipes i in
  let? pipes := UB.array_set pipes i (mk s (scored p)) in
  let? p := UB.array_get pipes i in
  UB.array_set pipes i (mk (sprite p) 0).

(** [void add_pipe_pair(Pipe *pipes, int *pipe_count, float window_width,
                        float window_height, float speed)]
    for the value [rand] that [rand()] returns.  The result is the array,
    [*pipe_count] and the heap after the call. *)
Definition add_pipe_pair (E : Stb.env) (rand : Z) (pipes : list Pipe) (pipe_count : Z)
    (window_width window_height speed : F32.float) (hp : Heap.t)
  : UB.outcome (list Pipe * Z * Heap.t) :=
  if MAX_PIPES - 1 <=? pipe_count then UB.Done (pipes, pipe_count, hp) else
  let gap_y := gap_y rand in
  let? r :=
    Strict.arcade_create_image_sprite E window_width F32.zero PIPE_WIDTH gap_y
      (Some pipe_top) hp in
  let '(top, hp) := r in
  match ArcadeImageSprite.pixels top with
  | None => UB.Done (pipes, pipe_count, hp)
  | Some _ =>
      let top := ArcadeImageSprite.set_vx speed top in
      let? pipes := store_pipe pipes pipe_count top in
      let pipe_count := Int.wrap (pipe_count + 1) in
      let? r :=
        Strict.arcade_create_image_sprite E window_width (F32.add gap_y PIPE_GAP)
          PIPE_WIDTH (F32.sub (F32.sub window_height gap_y) PIPE_GAP)
          (Some pipe_bottom) hp in
      let '(bottom, hp) := r in
      match ArcadeImageSprite.pixels bottom with
      | None =>
          let pipe_count := Int.wrap (pipe_count - 1) in
          let? p := UB.array_get pipes pipe_count in
          let? r := Strict.arcade_free_image_sprite (Some (sprite p)) hp in
          match r with
          | (Some s, hp) =>
              let? pipes := UB.array_set pipes pipe_count (mk s (scored p)) in
              UB.Done (pipes, pipe_count, hp)
          | (None, hp) => UB.Done (pipes, pipe_count, hp)
          end
      | Some _ =>
          let bottom := ArcadeImageSprite.set_vx speed bottom in
          let? pipes := store_pipe pipes pipe_count bottom in
          UB.Done (pipes, Int.wrap (pipe_count + 1), hp)
      end
  end.

(** The empty array [Pipe pipes[MAX_PIPES] = {0}]. *)
Definition no_pipes : list Pipe := replicate 6 (mk Loader.blank 0).

(** An environment that holds both pipe images, 1x1 opaque green, and a
    resizer that fills the target with the first pixel. *)
Definition assets : Stb.env :=
  Stb.mkEnv
    (fun path => if String.eqb path pipe_top || String.eqb path pipe_bottom
                 then Some (Stb.mkImage 1 1 [0; 255; 0; 255]) else None)
    (fun data _ _ tw th =>
       Some (concat (replicate (Z.to_nat (tw * th)) (take 4 data)))).

End FlappyBird.

(** ** Filling and drawing a group *)

Module Scene.

(** [void arcade_add_animated_to_group(SpriteGroup *group,
                                       ArcadeAnimatedSprite *anim)] *)
Definition arcade_add_animated_to_group (group : Group.SpriteGroup)
    (anim : option ArcadeAnimatedSprite.t) : UB.outcome Group.SpriteGroup :=
  match anim with
  | None => UB.Done group
  | Some a =>
      match ArcadeAnimatedSprite.frames a with
      | None => UB.Undefined
      | Some (_, frames) =>
          let? f0 := UB.array_get frames 0 in
          if ArcadeImageSprite.active f0 =? 0 then UB.Done group else
          let? cur := UB.array_get frames (ArcadeAnimatedSprite.current_frame a) in
          Group.arcade_add_sprite_to_group group (Group.image_sprite cur)
            Group.SPRITE_IMAGE
      end
  end.

(** One call of [arcade_add_sprite_to_group] per element of [items]. *)
Fixpoint add_all (items : list (Group.ArcadeAnySprite * Z)) (group : Group.SpriteGroup)
  : UB.outcome Group.SpriteGroup :=
  match items with
  | [] => UB.Done group
  | (s, type) :: items =>
      let? group := Group.arcade_add_sprite_to_group group s type in
      add_all items group
  end.

(** The two arrays hold [capacity] elements and the count is within the
    capacity, as after [arcade_init_group] and any number of additions. *)
Definition well_formed (group : Group.SpriteGroup) : Prop :=
  0 <= Group.count group <= Group.capacity group /\
  Int.in_range (Group.capacity group) /\
  Z.of_nat (length (Group.sprites group)) = Group.capacity group /\
  Z.of_nat (length (Group.types group)) = Group.capacity group.

(** The entries of the group that are in use, in order. *)
Definition contents (group : Group.SpriteGroup) : list (Group.ArcadeAnySprite * Z) :=
  Render.scene (Group.sprites group) (Group.count group) (Group.types group).

End Scene.

(** ** Blinking text *)

Module Text.

(** The test of [arcade_render_text_centered_blink] for a non-null text:
    whether the text is drawn in the frame numbered
    [global_frame_counter].  The product [2 * blink_interval] is an [int]
    and the remainder by 0 is undefined. *)
Definition blink_shown (global_frame_counter blink_interval : Z) : UB.outcome bool :=
  let period := 2 * blink_interval in
  if (Int.min_signed <=? period) && (period <=? Int.max_signed) then
    if period =? 0 then UB.Undefined
    else UB.Done (Int.rem global_frame_counter period <? blink_interval)
  else UB.Undefined.

End Text.

(** ** Packed pixels *)

Module Pixel.

(** [0xAARRGGBB] from its four bytes. *)
Definition argb (a r g b : Z) : Z := a * 2 ^ 24 + r * 2 ^ 16 + g * 2 ^ 8 + b.

(** The bytes of [resized_data] are bytes. *)
Definition bytes (data : list Z) : Prop := Forall (fun v => 0 <= v < 256) data.

End Pixel.

(** ** Flappy Bird: the life of a pipe pair *)

Module Pipes.

(** [arcade_free_image_sprite(&pipes[i].sprite)] *)
Definition free_pipe (i : Z) (st : list FlappyBird.Pipe * Heap.t)
  : UB.outcome (list FlappyBird.Pipe * Heap.t) :=
  let? p := UB.array_get (fst st) i in
  let? r := Strict.arcade_free_image_sprite (Some (FlappyBird.sprite p)) (snd st) in
  match r with
  | (Some s, hp) =>
      let? pipes := UB.array_set (fst st) i (FlappyBird.mk s (FlappyBird.scored p)) in
      UB.Done (pipes, hp)
  | (None, hp) => UB.Done (fst st, hp)
  end.

(** [p.sprite.x + PIPE_WIDTH < 0]: the pipe has left the window on the left. *)
Definition left_window (p : FlappyBird.Pipe) : bool :=
  F32.lt (F32.add (ArcadeImageSprite.x (FlappyBird.sprite p)) FlappyBird.PIPE_WIDTH)
         F32.zero.

(** The block of [main] that removes the first pair once it has left the
    window on the left:
    [if (pipe_count && pipes[0].sprite.x + PIPE_WIDTH < 0) { ... }] *)
Definition remove_offscreen (pipes : list FlappyBird.Pipe) (pipe_count : Z) (hp : Heap.t)
  : UB.outcome (list FlappyBird.Pipe * Z * Heap.t) :=
  if pipe_count =? 0 then UB.Done (pipes, pipe_count, hp) else
  let? p0 := UB.array_get pipes 0 in
  if left_window p0
  then
    let? st := free_pipe 0 (pipes, hp) in
    let? st := free_pipe 1 st in
    let? pipes :=
      Loop.for_loop_ub (pipe_count - 2) (fun i pipes =>
        let? p := UB.array_get pipes (i + 2) in
        UB.array_set pipes i p) (fst st) in
    UB.Done (pipes, Int.wrap (pipe_count - 2), snd st)
  else UB.Done (pipes, pipe_count, hp).

(** The loop of [main] that frees every pipe on a restart, followed by
    [pipe_count = 0]. *)
Definition clear_pipes (pipes : list FlappyBird.Pipe) (pipe_count : Z) (hp : Heap.t)
  : UB.outcome (list FlappyBird.Pipe * Z * Heap.t) :=
  let? st := Loop.for_loop_ub pipe_count free_pipe (pipes, hp) in
  UB.Done (fst st, 0, snd st).

(** The pixel block that a pipe holds. *)
Definition block_of (p : FlappyBird.Pipe) : option nat :=
  fst <$> ArcadeImageSprite.pixels (FlappyBird.sprite p).

(** The pipes in use come in pairs and own their pixel blocks: the count
    is even and within the array, each of the first [count] pipes holds a
    block, these blocks are pairwise different, and together with the
    blocks [base] that were live before the first pipe they are exactly
    the live blocks. *)
Definition paired (base : gset nat) (pipes : list FlappyBird.Pipe) (count : Z)
    (hp : Heap.t) : Prop :=
  Z.of_nat (length pipes) = FlappyBird.MAX_PIPES /\
  0 <= count <= FlappyBird.MAX_PIPES /\
  Z.even count = true /\
  exists blocks : list nat,
    block_of <$> take (Z.to_nat count) pipes = Some <$> blocks /\
    NoDup blocks /\
    (list_to_set blocks : gset nat) ## base /\
    Heap.live hp = base ∪ list_to_set blocks.

(** A pipe at [x] that holds the pixel block [block]. *)
Definition pipe_at (x : Z) (block : nat) : FlappyBird.Pipe :=
  FlappyBird.mk
    (ArcadeImageSprite.mk (F32.of_int x) F32.zero (F32.of_int 50) (F32.of_int 200)
       (F32.of_int (-3)) F32.zero (Some (block, [])) 0 0 1) 1.

(** Two pairs in use, the first one beyond the left edge of the window. *)
Definition two_pairs : list FlappyBird.Pipe :=
  [pipe_at (-60) 2; pipe_at (-60) 5; pipe_at 140 3; pipe_at 140 7;
   FlappyBird.mk Loader.blank 0; FlappyBird.mk Loader.blank 0].

End Pipes.

(** ** Image transforms: files and buffers *)

Module Files.

(** The world of the POSIX branch of the two transforms: the heap and the
    files, each with the image it holds ([None] for the empty file that
    [mkstemp] creates). *)
Record World : Type := mk
  { heap : Heap.t;
    files : gmap string (option Stb.Image) }.

(** What the calls into libc and stb do besides allocating: the name that
    [mkstemp] gives to the file it creates ([None] when it returns -1), and
    whether [stbi_write_png] succeeds. *)
Record Oracle : Type := mkOracle
  { mkstemp : option string;
    write_ok : bool }.

(** [arcade_flip_image] and [arcade_rotate_image] outside [_WIN32], which
    differ in the pixel loops [remap] only.  The result is the returned
    pointer, a block that holds the path, or [None] for [NULL].  After a
    failed [stbi_write_png] the path buffer is freed and then passed to
    [fprintf]. *)
Definition transform_file (remap : Stb.Image -> Stb.Image) (E : Stb.env) (O : Oracle)
    (input_path : string) (w : World) : UB.outcome (option (nat * string) * World) :=
  match Stb.stbi_load E input_path (heap w) with
  | (None, h) => UB.Done (None, mk h (files w))
  | (Some (data, img), h) =>
      match Heap.malloc h with
      | (None, h) => UB.Done (None, mk (Heap.free data h) (files w))
      | (Some out, h) =>
          match mkstemp O with
          | None => UB.Done (None, mk (Heap.free out (Heap.free data h)) (files w))
          | Some temp_path =>
              let fs := <[temp_path := None]> (files w) in
              match Heap.malloc h with
              | (None, h) =>
                  UB.Done (None, mk (Heap.free out (Heap.free data h))
                                    (delete temp_path fs))
              | (Some full, h) =>
                  let full_path := (temp_path ++ ".png")%string in
                  if write_ok O then
                    let fs := <[full_path := Some (remap img)]> fs in
                    let h := Heap.free out (Heap.free data h) in
                    match Heap.malloc h with
                    | (None, h) =>
                        UB.Done (None, mk (Heap.free full h) (delete temp_path fs))
                    | (Some result, h) =>
                        UB.Done (Some (result, full_path), mk (Heap.free full h) fs)
                    end
                  else UB.Undefined
              end
          end
      end
  end.

(** [char *arcade_flip_image(const char *input_path, int flip_type)] *)
Definition arcade_flip_image (E : Stb.env) (O : Oracle) (input_path : string)
    (flip_type : Z) (w : World) : UB.outcome (option (nat * string) * World) :=
  transform_file (fun img => Transform.arcade_flip_image img flip_type) E O input_path w.

(** [char *arcade_rotate_image(const char *input_path, int degrees)] *)
Definition arcade_rotate_image (E : Stb.env) (O : Oracle) (input_path : string)
    (degrees : Z) (w : World) : UB.outcome (option (nat * string) * World) :=
  transform_file (fun img => Transform.arcade_rotate_image img degrees) E O input_path w.

(** What a call that returns leaves behind. *)
Definition settled (remap : Stb.Image -> Stb.Image) (E : Stb.env) (O : Oracle)
    (input_path : string) (w : World) (r : option (nat * string) * World) : Prop :=
  match fst r with
  | None => Heap.live (heap (snd r)) = Heap.live (heap w)
  | Some (result, path) =>
      exists temp_path img,
        mkstemp O = Some temp_path /\ Stb.files E input_path = Some img /\
        path = (temp_path ++ ".png")%string /\
        (result ∉ Heap.live (heap w)) /\
        Heap.live (heap (snd r)) = {[result]} ∪ Heap.live (heap w) /\
        files (snd r) = <[path := Some (remap img)]> (<[temp_path := None]> (files w))
  end.

End Files.

(* ===================================================================== *)
(** * Part II: properties *)
(* ===================================================================== *)

(** ** binary32 comparisons *)

Module F32Facts.

Lemma compare_antisym (a b : F32.float) :
  SFcompare b a = option_map CompOpp (SFcompare a b).
Proof.
  destruct a as [sa|sa| |sa ma ea], b as [sb|sb| |sb mb eb]; simpl;
    try destruct sa; try destruct sb; try reflexivity;
    rewrite (Z.compare_antisym ea eb);
    pose proof (Pos.compare_cont_antisym ma mb Eq) as H; simpl in H;
    destruct (ea ?= eb)%Z; simpl; try reflexivity; rewrite <- H;
    now destruct (Pos.compare_cont Eq ma mb).
Qed.

Lemma gt_lt (a b : F32.float) : F32.gt a b = F32.lt b a.
Proof.
  unfold F32.gt, F32.lt, SFltb. rewrite (compare_antisym a b).
  now destruct (SFcompare a b) as [[]|].
Qed.

Lemma compare_refl (a : F32.float) :
  SFcompare a a = if F32.is_nan a then None else Some Eq.
Proof.
  destruct a as [s|s| |s m e]; simpl; try reflexivity; try (now destruct s).
  pose proof (Pos.compare_cont_refl m Eq) as Hm.
  destruct s; rewrite (Z.compare_refl e), Hm; reflexivity.
Qed.

Lemma lt_irrefl (a : F32.float) : F32.lt a a = false.
Proof.
  unfold F32.lt, SFltb. rewrite compare_refl. now destruct (F32.is_nan a).
Qed.

Lemma gt_irrefl (a : F32.float) : F32.gt a a = false.
Proof. rewrite gt_lt. apply lt_irrefl. Qed.

Lemma compare_nan (a b : F32.float) :
  F32.is_nan a = false -> F32.is_nan b = false -> SFcompare a b <> None.
Proof. destruct a, b; simpl; congruence. Qed.

(** Without NaN, "not below" is "above or equal". *)
Lemma not_lt_le (a b : F32.float) :
  F32.is_nan a = false -> F32.is_nan b = false ->
  F32.lt a b = false -> F32.le b a = true.
Proof.
  intros Ha Hb. unfold F32.lt, F32.le, SFltb, SFleb.
  rewrite (compare_antisym a b).
  pose proof (compare_nan a b Ha Hb) as Hn.
  destruct (SFcompare a b) as [[]|]; simpl; congruence.
Qed.

End F32Facts.

(** ** Movement and collision *)

Module SpriteFacts.

Lemma within_le (y hi : F32.float) :
  Body.within y hi -> F32.is_nan y = false -> F32.is_nan hi = false ->
  F32.le F32.zero y = true /\ F32.le y hi = true.
Proof.
  intros [Hlo Hhi] Hy Hh. split.
  - now apply F32Facts.not_lt_le.
  - rewrite F32Facts.gt_lt in Hhi. now apply F32Facts.not_lt_le.
Qed.

Lemma move_sprite_moved (s : ArcadeSprite.t) (gravity : F32.float) (wh : Z) :
  ArcadeSprite.active s <> 0 ->
  F32.lt (Body.floor (Body.of_sprite s) wh) F32.zero = false ->
  exists s', Sprite.move_sprite (Some s) gravity wh = Some s' /\
             Body.moved (Body.of_sprite s) (Body.of_sprite s') gravity wh /\
             ArcadeSprite.color s' = ArcadeSprite.color s.
Proof.
  intros Ha Hfit. unfold Sprite.move_sprite.
  destruct (Z.eqb_spec (ArcadeSprite.active s) 0) as [|_]; [contradiction|].
  destruct s as [x y w h vy vx col act]; unfold Body.floor in Hfit; simpl in *.
  set (vy1 := F32.add vy gravity). set (y1 := F32.add y vy1).
  set (hi := F32.sub (F32.of_int wh) h) in *.
  unfold Body.moved, Body.within, Body.floor; simpl; fold vy1 y1 hi.
  destruct (F32.lt y1 F32.zero) eqn:Hlo; simpl; fold hi.
  - rewrite F32Facts.gt_lt, Hfit. eexists; split; [reflexivity|]. simpl.
    rewrite F32Facts.lt_irrefl, F32Facts.gt_lt, Hfit.
    repeat split; congruence.
  - destruct (F32.gt y1 hi) eqn:Hhi; simpl;
      (eexists; split; [reflexivity|]); simpl;
      rewrite ?Hlo, ?Hhi, ?Hfit, ?F32Facts.gt_irrefl;
      repeat split; congruence.
Qed.

Lemma move_image_moved (s : ArcadeImageSprite.t) (gravity : F32.float) (wh : Z) :
  ArcadeImageSprite.active s <> 0 ->
  F32.lt (Body.floor (Body.of_image s) wh) F32.zero = false ->
  exists s', Sprite.arcade_move_image_sprite (Some s) gravity wh = Some s' /\
             Body.moved (Body.of_image s) (Body.of_image s') gravity wh /\
             ArcadeImageSprite.pixels s' = ArcadeImageSprite.pixels s /\
             ArcadeImageSprite.image_width s' = ArcadeImageSprite.image_width s /\
             ArcadeImageSprite.image_height s' = ArcadeImageSprite.image_height s.
Proof.
  intros Ha Hfit. unfold Sprite.arcade_move_image_sprite.
  destruct (Z.eqb_spec (ArcadeImageSprite.active s) 0) as [|_]; [contradiction|].
  destruct s as [x y w h vy vx px iw ih act]; unfold Body.floor in Hfit; simpl in *.
  set (vy1 := F32.add vy gravity). set (y1 := F32.add y vy1).
  set (hi := F32.sub (F32.of_int wh) h) in *.
  unfold Body.moved, Body.within, Body.floor; simpl; fold vy1 y1 hi.
  destruct (F32.lt y1 F32.zero) eqn:Hlo; simpl; fold hi.
  - rewrite F32Facts.gt_lt, Hfit. eexists; split; [reflexivity|]. simpl.
    rewrite F32Facts.lt_irrefl, F32Facts.gt_lt, Hfit.
    repeat split; congruence.
  - destruct (F32.gt y1 hi) eqn:Hhi; simpl;
      (eexists; split; [reflexivity|]); simpl;
      rewrite ?Hlo, ?Hhi, ?Hfit, ?F32Facts.gt_irrefl;
      repeat split; congruence.
Qed.

(** C1, as stated, fails: the sprite at y = 560 with vy = 0 does not end at
    y = 560.5 with vy = 0.5 after one move with gravity 0.5 in a window of
    height 600. *)
Lemma free_fall_scenario_refuted :
  ~ (exists s', Sprite.arcade_move_image_sprite
                  (Some (Body.scenario (F32.of_int 560) F32.zero None)) Body.half 600
                = Some s' /\
                ArcadeImageSprite.vy s' = Body.half /\
                ArcadeImageSprite.y s' = Body.y_560_5).
Proof.
  intros [s' [Hmove [Hvy _]]]. vm_compute in Hmove, Hvy.
  injection Hmove as <-. discriminate Hvy.
Qed.

(** C1 (amended): in a window of height 600, the 40x40 image sprite at
    (70, 560) with vy = 0 and vx = 0 is left where it is by one move with
    gravity 0.5: y + 0.5 = 560.5 exceeds 600 - 40, so the bottom clamp puts
    y back to 560 and vy back to 0. *)
Theorem scenario_560_is_clamped (pixels : option (nat * list Z)) :
  Sprite.arcade_move_image_sprite
    (Some (Body.scenario (F32.of_int 560) F32.zero pixels)) Body.half 600
  = Some (Body.scenario (F32.of_int 560) F32.zero pixels) /\
  F32.gt Body.y_560_5 (Body.floor (Body.of_image (Body.scenario (F32.of_int 560) F32.zero pixels)) 600)
  = true.
Proof. split; vm_compute; reflexivity. Qed.

(** C4, as stated, fails for a sprite taller than the window: the tall
    sprite at y = 0 is moved to y = 600 - 700 = -100, below 0. *)
Lemma tall_sprite_leaves_window :
  ArcadeImageSprite.active Body.tall <> 0 /\
  exists s', Sprite.arcade_move_image_sprite (Some Body.tall) F32.zero 600 = Some s' /\
             ArcadeImageSprite.y s' = F32.of_int (-100) /\
             ~ Body.moved (Body.of_image Body.tall) (Body.of_image s') F32.zero 600.
Proof.
  split; [discriminate|].
  eexists; split; [vm_compute; reflexivity|]. split; [vm_compute; reflexivity|].
  intros (_ & _ & _ & _ & _ & [Hlo _] & _). vm_compute in Hlo. discriminate Hlo.
Qed.

(** A floor that is at least 0 is a number and is not below 0. *)
Lemma le_zero_floor (hi : F32.float) :
  F32.le F32.zero hi = true ->
  F32.lt hi F32.zero = false /\ F32.is_nan hi = false.
Proof.
  unfold F32.le, F32.lt, SFleb, SFltb. rewrite (F32Facts.compare_antisym F32.zero hi).
  intros Hle. split.
  - destruct (SFcompare F32.zero hi) as [[]|]; simpl; congruence.
  - destruct hi; try reflexivity. discriminate Hle.
Qed.

(** After a move over a floor that is at least 0, a new position that is
    a number lies between 0 and the floor. *)
Lemma moved_bounds (b b' : Body.t) (gravity : F32.float) (wh : Z) :
  Body.moved b b' gravity wh ->
  F32.le F32.zero (Body.floor b wh) = true ->
  F32.is_nan (F32.add (Body.y b) (F32.add (Body.vy b) gravity)) = false ->
  F32.le F32.zero (Body.y b') = true /\ F32.le (Body.y b') (Body.floor b wh) = true.
Proof.
  intros (_ & _ & _ & _ & _ & Hwithin & Hlow & Hhigh & Hfree) Hfloor Hnan.
  destruct (le_zero_floor _ Hfloor) as [_ Hhi].
  apply within_le; [exact Hwithin| |exact Hhi].
  destruct (F32.lt (F32.add (Body.y b) (F32.add (Body.vy b) gravity)) F32.zero) eqn:Hlo.
  - destruct (Hlow eq_refl) as [-> _]. reflexivity.
  - destruct (F32.gt (F32.add (Body.y b) (F32.add (Body.vy b) gravity))
                     (Body.floor b wh)) eqn:Hgt.
    + destruct (Hhigh eq_refl eq_refl) as [-> _]. exact Hhi.
    + destruct (Hfree eq_refl eq_refl) as [-> _]. exact Hnan.
Qed.

(** A position that is not a number is not clamped: the sprite of the
    scenario with [y = NaN] still has [y = NaN] after a move. *)
Lemma nan_position_is_not_clamped :
  exists s', Sprite.arcade_move_image_sprite
               (Some (Body.scenario S754_nan F32.zero None)) Body.half 600 = Some s' /\
             ArcadeImageSprite.y s' = S754_nan /\
             ArcadeImageSprite.vy s' = Body.half.
Proof. eexists. split; [vm_compute; reflexivity|]. split; reflexivity. Qed.

(** C4 (amended): for every active sprite of either kind that is not taller
    than the window ([0 <= window_height - height]) and whose new position
    [y + (vy + gravity)] is a number, a move does
    [vy += gravity; y += vy; x += vx], then clamps [y] into
    [[0, window_height - height]], so that
    [0 <= y <= window_height - height] afterwards, and zeroes [vy] whenever
    the clamp is applied; the sprite with y = 590, vy = 5, height 40 ends at
    y = 560 with vy = 0 for gravity 0.5 and window height 600. *)
Theorem move_clamps_fitting_sprite (s : ArcadeSprite.t) (i : ArcadeImageSprite.t)
    (gravity : F32.float) (wh : Z) :
  ArcadeSprite.active s <> 0 ->
  ArcadeImageSprite.active i <> 0 ->
  F32.le F32.zero (Body.floor (Body.of_sprite s) wh) = true ->
  F32.le F32.zero (Body.floor (Body.of_image i) wh) = true ->
  F32.is_nan (F32.add (ArcadeSprite.y s) (F32.add (ArcadeSprite.vy s) gravity)) = false ->
  F32.is_nan (F32.add (ArcadeImageSprite.y i) (F32.add (ArcadeImageSprite.vy i) gravity))
  = false ->
  (exists s', Sprite.move_sprite (Some s) gravity wh = Some s' /\
              Sprite.arcade_move_sprite (Some s) gravity wh = Some s' /\
              Body.moved (Body.of_sprite s) (Body.of_sprite s') gravity wh /\
              F32.le F32.zero (ArcadeSprite.y s') = true /\
              F32.le (ArcadeSprite.y s') (Body.floor (Body.of_sprite s) wh) = true) /\
  (exists i', Sprite.arcade_move_image_sprite (Some i) gravity wh = Some i' /\
              Body.moved (Body.of_image i) (Body.of_image i') gravity wh /\
              F32.le F32.zero (ArcadeImageSprite.y i') = true /\
              F32.le (ArcadeImageSprite.y i') (Body.floor (Body.of_image i) wh) = true) /\
  (forall pixels,
     Sprite.arcade_move_image_sprite
       (Some (Body.scenario (F32.of_int 590) Body.five pixels)) Body.half 600
     = Some (Body.scenario (F32.of_int 560) F32.zero pixels)).
Proof.
  intros Hs Hi Hfs Hfi Hns Hni. split; [|split].
  - destruct (move_sprite_moved s gravity wh Hs (proj1 (le_zero_floor _ Hfs)))
      as (s' & Hm & Hmoved & _).
    exists s'. split; [exact Hm|]. split; [exact Hm|]. split; [exact Hmoved|].
    exact (moved_bounds _ _ gravity wh Hmoved Hfs Hns).
  - destruct (move_image_moved i gravity wh Hi (proj1 (le_zero_floor _ Hfi)))
      as (i' & Hm & Hmoved & _).
    exists i'. split; [exact Hm|]. split; [exact Hmoved|].
    exact (moved_bounds _ _ gravity wh Hmoved Hfi Hni).
  - intros pixels. vm_compute. reflexivity.
Qed.

Lemma move_clamps_fitting_sprite_witness :
  let s := ArcadeSprite.mk (F32.of_int 100) (F32.of_int 100) (F32.of_int 50)
             (F32.of_int 50) F32.zero F32.zero 16711680 1 in
  let i := Body.scenario (F32.of_int 590) Body.five None in
  (ArcadeSprite.active s <> 0 /\ ArcadeImageSprite.active i <> 0 /\
   F32.le F32.zero (Body.floor (Body.of_sprite s) 600) = true /\
   F32.le F32.zero (Body.floor (Body.of_image i) 600) = true /\
   F32.is_nan (F32.add (ArcadeSprite.y s) (F32.add (ArcadeSprite.vy s) Body.half)) = false /\
   F32.is_nan (F32.add (ArcadeImageSprite.y i) (F32.add (ArcadeImageSprite.vy i) Body.half))
   = false) /\
  (exists i', Sprite.arcade_move_image_sprite (Some i) Body.half 600 = Some i' /\
              Body.moved (Body.of_image i) (Body.of_image i') Body.half 600 /\
              F32.le F32.zero (ArcadeImageSprite.y i') = true /\
              F32.le (ArcadeImageSprite.y i') (Body.floor (Body.of_image i) 600) = true).
Proof.
  intros s i.
  assert (Hs : ArcadeSprite.active s <> 0) by discriminate.
  assert (Hi : ArcadeImageSprite.active i <> 0) by discriminate.
  assert (Hfs : F32.le F32.zero (Body.floor (Body.of_sprite s) 600) = true)
    by (vm_compute; reflexivity).
  assert (Hfi : F32.le F32.zero (Body.floor (Body.of_image i) 600) = true)
    by (vm_compute; reflexivity).
  assert (Hns : F32.is_nan (F32.add (ArcadeSprite.y s)
                              (F32.add (ArcadeSprite.vy s) Body.half)) = false)
    by (vm_compute; reflexivity).
  assert (Hni : F32.is_nan (F32.add (ArcadeImageSprite.y i)
                              (F32.add (ArcadeImageSprite.vy i) Body.half)) = false)
    by (vm_compute; reflexivity).
  split; [exact (conj Hs (conj Hi (conj Hfs (conj Hfi (conj Hns Hni)))))|].
  exact (proj1 (proj2 (move_clamps_fitting_sprite s i Body.half 600 Hs Hi Hfs Hfi Hns Hni))).
Defined.

Lemma overlap_sym (a b : Body.t) : Body.overlap a b <-> Body.overlap b a.
Proof. unfold Body.overlap. tauto. Qed.

Lemma collide_spec (a b : Body.t) :
  (Body.collide a b = 1 <-> Body.overlap a b) /\
  (Body.collide a b = 1 \/ Body.collide a b = 0).
Proof.
  unfold Body.collide, Body.overlap. rewrite !F32Facts.gt_lt.
  destruct (Z.eqb_spec (Body.active a) 0) as [Ha|Ha];
    destruct (Z.eqb_spec (Body.active b) 0) as [Hb|Hb]; simpl;
    try (split; [split; [discriminate|tauto]|right; reflexivity]).
  destruct (F32.lt (Body.x a) (Body.x_max b)), (F32.lt (Body.x b) (Body.x_max a)),
    (F32.lt (Body.y a) (Body.y_max b)), (F32.lt (Body.y b) (Body.y_max a)); simpl;
    (split; [split; [try discriminate; tauto|intros (_ & _ & ? & ? & ? & ?); congruence]
            |auto]).
Qed.

Lemma collide_sym (a b : Body.t) : Body.collide a b = Body.collide b a.
Proof.
  destruct (collide_spec a b) as [Hab [Ha|Ha]], (collide_spec b a) as [Hba [Hb|Hb]];
    try congruence.
  - apply Hab, overlap_sym, Hba in Ha. congruence.
  - apply Hba, overlap_sym, Hab in Hb. congruence.
Qed.

(** C7: a collision test returns 1 exactly when both operands are non-null
    and active and, on both axes, each rectangle's minimum is strictly below
    the other's maximum; otherwise it returns 0, in particular for a null or
    inactive operand; and the test is symmetric.  This holds for
    [check_collision], [arcade_check_collision] and
    [arcade_check_image_collision]. *)
Theorem collision_iff_overlap :
  (forall a b : option ArcadeSprite.t,
     (Sprite.check_collision a b = 1 <->
      exists sa sb, a = Some sa /\ b = Some sb /\
                    Body.overlap (Body.of_sprite sa) (Body.of_sprite sb)) /\
     (Sprite.check_collision a b = 1 \/ Sprite.check_collision a b = 0) /\
     Sprite.check_collision a b = Sprite.check_collision b a /\
     Sprite.arcade_check_collision a b = Sprite.check_collision a b) /\
  (forall a b : option ArcadeImageSprite.t,
     (Sprite.arcade_check_image_collision a b = 1 <->
      exists sa sb, a = Some sa /\ b = Some sb /\
                    Body.overlap (Body.of_image sa) (Body.of_image sb)) /\
     (Sprite.arcade_check_image_collision a b = 1 \/
      Sprite.arcade_check_image_collision a b = 0) /\
     Sprite.arcade_check_image_collision a b = Sprite.arcade_check_image_collision b a).
Proof.
  split.
  - intros [sa|] [sb|]; simpl;
      try (repeat split; try (right; reflexivity); try discriminate;
           intros (? & ? & ? & ? & _); discriminate).
    change (Sprite.check_collision (Some sa) (Some sb))
      with (Body.collide (Body.of_sprite sa) (Body.of_sprite sb)).
    change (Sprite.check_collision (Some sb) (Some sa))
      with (Body.collide (Body.of_sprite sb) (Body.of_sprite sa)).
    destruct (collide_spec (Body.of_sprite sa) (Body.of_sprite sb)) as [Hiff H01].
    split; [split|split; [exact H01|split; [|reflexivity]]];
      [| |exact (collide_sym (Body.of_sprite sa) (Body.of_sprite sb))].
    + intros H. exists sa, sb. split; [reflexivity|split; [reflexivity|]].
      now apply Hiff.
    + intros (sa' & sb' & [= <-] & [= <-] & H). now apply Hiff.
  - intros [sa|] [sb|]; simpl;
      try (repeat split; try (right; reflexivity); try discriminate;
           intros (? & ? & ? & ? & _); discriminate).
    change (Sprite.arcade_check_image_collision (Some sa) (Some sb))
      with (Body.collide (Body.of_image sa) (Body.of_image sb)).
    change (Sprite.arcade_check_image_collision (Some sb) (Some sa))
      with (Body.collide (Body.of_image sb) (Body.of_image sa)).
    destruct (collide_spec (Body.of_image sa) (Body.of_image sb)) as [Hiff H01].
    split; [split|split; [exact H01|]];
      [| |exact (collide_sym (Body.of_image sa) (Body.of_image sb))].
    + intros H. exists sa, sb. split; [reflexivity|split; [reflexivity|]].
      now apply Hiff.
    + intros (sa' & sb' & [= <-] & [= <-] & H). now apply Hiff.
Qed.

End SpriteFacts.

(** ** Sprite groups *)

Module GroupFacts.

(** Below capacity the sprite is appended at index [count]. *)
Lemma add_below_capacity (group : Group.SpriteGroup) (s : Group.ArcadeAnySprite)
    (type : Z) :
  0 <= Group.count group < Group.capacity group ->
  Int.in_range (Group.capacity group) ->
  Z.of_nat (length (Group.sprites group)) = Group.capacity group ->
  Z.of_nat (length (Group.types group)) = Group.capacity group ->
  exists group',
    Group.arcade_add_sprite_to_group group s type = UB.Done group' /\
    Group.count group' = Group.count group + 1 /\
    Group.entry group' (Z.to_nat (Group.count group)) = Some (s, type).
Proof.
  intros Hc Hr Hs Ht. unfold Group.arcade_add_sprite_to_group, UB.array_set.
  destruct (Z.ltb_spec (Group.count group) (Group.capacity group)); [|lia].
  destruct (Z.leb_spec 0 (Group.count group)); [|lia].
  destruct (Z.ltb_spec (Group.count group) (Z.of_nat (length (Group.sprites group))));
    [|lia].
  destruct (Z.ltb_spec (Group.count group) (Z.of_nat (length (Group.types group))));
    [|lia].
  simpl. eexists; split; [reflexivity|]. simpl. split.
  - unfold Int.wrap. unfold Int.in_range, Int.min_signed, Int.max_signed in Hr.
    rewrite Z.mod_small; lia.
  - unfold Group.entry; simpl.
    rewrite !list_lookup_insert_eq by lia. reflexivity.
Qed.

(** C9: adding to a group whose count equals its capacity changes nothing:
    the call returns the group as it was, so the count still equals the
    capacity and every (sprite, type) entry is the one that was there. *)
Theorem add_to_full_group_is_noop (group : Group.SpriteGroup)
    (s : Group.ArcadeAnySprite) (type : Z) :
  Group.count group = Group.capacity group ->
  exists group',
    Group.arcade_add_sprite_to_group group s type = UB.Done group' /\
    group' = group /\
    Group.count group' = Group.capacity group' /\
    forall i, Group.entry group' i = Group.entry group i.
Proof.
  intros Hfull. exists group. unfold Group.arcade_add_sprite_to_group.
  rewrite Hfull, Z.ltb_irrefl. auto.
Qed.

Lemma add_to_full_group_is_noop_witness :
  let c := Group.sprite (ArcadeSprite.mk (F32.of_int 100) (F32.of_int 500)
                           (F32.of_int 200) (F32.of_int 20) F32.zero F32.zero 65280 1) in
  let group := Group.mk [c; c] [Group.SPRITE_COLOR; Group.SPRITE_COLOR] 2 2 in
  let extra := Group.image_sprite (Body.scenario (F32.of_int 560) F32.zero None) in
  Group.count group = Group.capacity group /\
  Group.arcade_add_sprite_to_group group extra Group.SPRITE_IMAGE = UB.Done group.
Proof.
  intros c group extra. split; [reflexivity|].
  destruct (add_to_full_group_is_noop group extra Group.SPRITE_IMAGE eq_refl)
    as (group' & Hadd & Heq & _).
  rewrite Hadd, Heq. reflexivity.
Defined.

End GroupFacts.

(** ** Input edge detection *)

Module InputFacts.

Lemma update_tables (p : Input.platform) (events : list Input.event) (st : Input.state) :
  Input.last_key_states (snd (Input.arcade_update p events st)) = Input.last_key_states st /\
  length (Input.key_states (snd (Input.arcade_update p events st)))
  = length (Input.key_states st).
Proof.
  revert st. induction events as [|ev events IH]; intros st; [now split|].
  destruct ev as [sym|sym| |]; simpl; try (now split); try apply IH;
    (destruct (IH (Input.set_key p sym 1 st)) as [-> ->]
     || destruct (IH (Input.set_key p sym 0 st)) as [-> ->]);
    unfold Input.set_key; destruct (Input.event_slot p sym); simpl;
    rewrite ?length_insert; now split.
Qed.

Lemma update_well_formed (p : Input.platform) (events : list Input.event)
    (st : Input.state) :
  Input.well_formed p st -> Input.well_formed p (snd (Input.arcade_update p events st)).
Proof.
  intros (Hk & Hl & Hs). destruct (update_tables p events st) as [H1 H2].
  unfold Input.well_formed. rewrite H1, H2. auto.
Qed.

(** A pump without a release of the slot keeps a pressed slot pressed. *)
Lemma update_keeps_down (p : Input.platform) (slot : Z) (events : list Input.event)
    (st : Input.state) :
  (Z.to_nat slot < length (Input.key_states st))%nat ->
  existsb (Input.releases p slot) events = false ->
  Input.current st slot = 1 ->
  Input.current (snd (Input.arcade_update p events st)) slot = 1.
Proof.
  unfold Input.current. revert st.
  induction events as [|ev events IH]; intros st Hlen Hrel Hdown; [exact Hdown|].
  simpl in Hrel. apply orb_false_iff in Hrel as [Hev Hrel].
  destruct ev as [sym|sym| |]; simpl; try exact Hdown; try (now apply IH).
  - apply IH; try assumption; unfold Input.set_key;
      destruct (Input.event_slot p sym) as [i|]; simpl; rewrite ?length_insert;
      try assumption.
    destruct (decide (Z.to_nat i = Z.to_nat slot)) as [->|Hne].
    + now rewrite list_lookup_total_insert_eq.
    + now rewrite list_lookup_total_insert_ne.
  - apply IH; try assumption; unfold Input.set_key; simpl in Hev;
      destruct (Input.event_slot p sym) as [i|]; simpl; rewrite ?length_insert;
      try assumption.
    apply Nat.eqb_neq in Hev. now rewrite list_lookup_total_insert_ne.
Qed.

Lemma pressed_once_result (p : Input.platform) (key_val : Z) (st : Input.state) :
  fst (Input.arcade_key_pressed_once p key_val st)
  = if (Input.current st (Input.key_slot p key_val) =? 1)
       && (Input.previous st (Input.key_slot p key_val) =? 0)
    then 2 else 0.
Proof. reflexivity. Qed.

Lemma pressed_once_tables (p : Input.platform) (key_val : Z) (st : Input.state) :
  Input.well_formed p st ->
  let st' := snd (Input.arcade_key_pressed_once p key_val st) in
  Input.well_formed p st' /\
  Input.key_states st' = Input.key_states st /\
  Input.previous st' (Input.key_slot p key_val) = Input.current st (Input.key_slot p key_val) /\
  forall slot, Z.to_nat slot <> Z.to_nat (Input.key_slot p key_val) ->
               Input.previous st' slot = Input.previous st slot.
Proof.
  intros (Hk & Hl & Hs). simpl. unfold Input.well_formed, Input.previous, Input.current.
  simpl. rewrite length_insert. repeat split; try assumption; try apply Hs.
  - apply list_lookup_total_insert_eq. rewrite Hl. specialize (Hs key_val). lia.
  - intros slot Hne. now apply list_lookup_total_insert_ne.
Qed.

Lemma run_query (p : Input.platform) (key_val : Z) (acts : list Input.action)
    (st : Input.state) :
  Input.run p (Input.PressedOnce key_val :: acts) st
  = ((Input.key_slot p key_val, fst (Input.arcade_key_pressed_once p key_val st))
       :: fst (Input.run p acts (snd (Input.arcade_key_pressed_once p key_val st))),
     snd (Input.run p acts (snd (Input.arcade_key_pressed_once p key_val st)))).
Proof.
  unfold Input.arcade_key_pressed_once. simpl.
  destruct (Input.run p acts _). reflexivity.
Qed.

Lemma run_update (p : Input.platform) (events : list Input.event)
    (acts : list Input.action) (st : Input.state) :
  Input.run p (Input.Update events :: acts) st
  = Input.run p acts (snd (Input.arcade_update p events st)).
Proof. reflexivity. Qed.

Lemma reports_cons (slot q r : Z) (out : list (Z * Z)) :
  Input.reports slot ((q, r) :: out)
  = Nat.add (if decide (q = slot /\ r <> 0) then 1%nat else 0%nat)
            (Input.reports slot out).
Proof.
  unfold Input.reports. rewrite filter_cons. cbn [fst snd].
  destruct (decide (q = slot /\ r <> 0)); reflexivity.
Qed.

(** Once the press has been reported (current and previous state both 1),
    no later query of the slot reports it while the press is unbroken. *)
Lemma consumed_stays_silent (p : Input.platform) (slot : Z) (acts : list Input.action) :
  forall st,
    Input.well_formed p st -> 0 <= slot < 256 ->
    Input.unbroken p slot acts = true ->
    Input.current st slot = 1 -> Input.previous st slot = 1 ->
    Input.reports slot (fst (Input.run p acts st)) = 0%nat.
Proof.
  induction acts as [|a acts IH]; intros st Hwf Hslot Hun Hcur Hprev; [reflexivity|].
  simpl in Hun. apply andb_true_iff in Hun as [Ha Hun].
  destruct a as [events|key_val|]; [| |discriminate Ha].
  - cbn [Input.run]. apply negb_true_iff in Ha. apply IH; try assumption.
    + now apply update_well_formed.
    + apply update_keeps_down; try assumption.
      destruct Hwf as (-> & _). lia.
    + unfold Input.previous. now rewrite (proj1 (update_tables p events st)).
  - rewrite run_query. cbn [fst]. rewrite reports_cons.
    destruct (pressed_once_tables p key_val st Hwf) as (Hwf1 & Hks & Hsame & Hother).
    set (st1 := snd (Input.arcade_key_pressed_once p key_val st)) in *.
    assert (Hcur1 : Input.current st1 slot = 1)
      by (unfold Input.current; now rewrite Hks).
    assert (Hprev1 : Input.previous st1 slot = 1).
    { destruct (decide (Z.to_nat slot = Z.to_nat (Input.key_slot p key_val))) as [He|Hne].
      - assert (slot = Input.key_slot p key_val) as ->
          by (destruct Hwf as (_ & _ & Hs); specialize (Hs key_val); lia).
        now rewrite Hsame.
      - now rewrite Hother. }
    rewrite (IH st1 Hwf1 Hslot Hun Hcur1 Hprev1).
    destruct (decide _) as [[Hs Hn]|_]; [|reflexivity].
    exfalso. apply Hn. rewrite pressed_once_result, Hs, Hcur, Hprev. reflexivity.
Qed.

(** At most one report per unbroken press, from any state. *)
Lemma at_most_one_report (p : Input.platform) (slot : Z) (acts : list Input.action) :
  forall st,
    Input.well_formed p st -> 0 <= slot < 256 ->
    Input.unbroken p slot acts = true ->
    (Input.reports slot (fst (Input.run p acts st)) <= 1)%nat.
Proof.
  induction acts as [|a acts IH]; intros st Hwf Hslot Hun;
    [unfold Input.reports; simpl; lia|].
  simpl in Hun. apply andb_true_iff in Hun as [Ha Hun].
  destruct a as [events|key_val|]; [| |discriminate Ha].
  - cbn [Input.run]. apply IH; try assumption. now apply update_well_formed.
  - rewrite run_query. cbn [fst]. rewrite reports_cons.
    destruct (pressed_once_tables p key_val st Hwf) as (Hwf1 & Hks & Hsame & Hother).
    set (st1 := snd (Input.arcade_key_pressed_once p key_val st)) in *.
    destruct (decide _) as [[Hs Hn]|_].
    + subst slot. rewrite pressed_once_result in Hn.
      destruct (Z.eqb_spec (Input.current st (Input.key_slot p key_val)) 1) as [Hc|];
        [|simpl in Hn; congruence].
      rewrite (consumed_stays_silent p _ acts st1 Hwf1 Hslot Hun); [lia| |].
      * unfold Input.current. rewrite Hks. exact Hc.
      * rewrite Hsame. exact Hc.
    + specialize (IH st1 Hwf1 Hslot Hun). lia.
Qed.

(** While a reported press is held, one query per tick reports nothing. *)
Lemma held_ticks_silent (p : Input.platform) (key_val : Z)
    (batches : list (list Input.event)) :
  forall st,
    Input.well_formed p st ->
    Input.unbroken p (Input.key_slot p key_val) (Input.ticks key_val batches) = true ->
    Input.current st (Input.key_slot p key_val) = 1 ->
    Input.previous st (Input.key_slot p key_val) = 1 ->
    fst (Input.run p (Input.ticks key_val batches) st)
    = replicate (length batches) (Input.key_slot p key_val, 0).
Proof.
  induction batches as [|batch batches IH]; intros st Hwf Hun Hcur Hprev; [reflexivity|].
  change (Input.ticks key_val (batch :: batches))
    with (Input.Update batch :: Input.PressedOnce key_val :: Input.ticks key_val batches)
    in *.
  simpl in Hun. apply andb_true_iff in Hun as [Hb Hun]. apply negb_true_iff in Hb.
  rewrite run_update, run_query. cbn [fst length replicate].
  set (st0 := snd (Input.arcade_update p batch st)).
  assert (Hwf0 : Input.well_formed p st0) by now apply update_well_formed.
  assert (Hcur0 : Input.current st0 (Input.key_slot p key_val) = 1).
  { apply update_keeps_down; try assumption.
    destruct Hwf as (-> & _ & Hs). specialize (Hs key_val). lia. }
  assert (Hprev0 : Input.previous st0 (Input.key_slot p key_val) = 1).
  { unfold Input.previous, st0. now rewrite (proj1 (update_tables p batch st)). }
  destruct (pressed_once_tables p key_val st0 Hwf0) as (Hwf1 & Hks & Hsame & _).
  rewrite pressed_once_result, Hcur0, Hprev0.
  apply (f_equal2 cons); [reflexivity|].
  apply IH; [exact Hwf1|exact Hun| |].
  - unfold Input.current. rewrite Hks. exact Hcur0.
  - rewrite Hsame. exact Hcur0.
Qed.

Lemma x11_slot_range (key_val : Z) : 0 <= Input.key_slot Input.X11 key_val < 256.
Proof.
  change (0 <= Z.land key_val 255 < 256). change 255 with (Z.ones 8).
  rewrite Z.land_ones by lia. apply Z.mod_pos_bound. lia.
Qed.

(** C3, as stated, fails: after a reported press of the space bar, a
    release and a new press that arrive in the same pump start a new press;
    it is held for three ticks and queried once per tick, and no query
    reports it. *)
Lemma repress_within_one_tick_unreported :
  let key := Input.a_space in
  let st := snd (Input.run Input.X11 (Input.ticks key [[Input.KeyPress key]])
                   Input.initial) in
  let repress := [Input.KeyRelease key; Input.KeyPress key] in
  Input.well_formed Input.X11 st /\
  Input.current (snd (Input.arcade_update Input.X11 [Input.KeyRelease key] st)) key = 0 /\
  Input.current (snd (Input.arcade_update Input.X11 repress st)) key = 1 /\
  Input.unbroken Input.X11 key (Input.ticks key [[]; []]) = true /\
  fst (Input.run Input.X11 (Input.ticks key [repress; []; []]) st)
  = [(key, 0); (key, 0); (key, 0)].
Proof.
  intros key st repress.
  split; [split; [reflexivity|split; [reflexivity|exact x11_slot_range]]|].
  repeat split; vm_compute; reflexivity.
Qed.

(** C3 (amended): a query of a key reports a press (returns 2) at most once
    per unbroken press, whatever the events and the other queries are.
    When the previous state of the key is up at the time the key goes down,
    one query per tick while the key is held reports the press exactly on
    the first query and 0 on all later ones; a second query in the same tick
    returns 0, because the first copied the current state into the previous
    state; and a query that sees the key up puts the previous state back to
    up, so that the next press is reported again. *)
Theorem pressed_once_reports_edge_once (p : Input.platform) (key_val : Z)
    (st : Input.state) (acts : list Input.action) (batch0 : list Input.event)
    (batches : list (list Input.event)) :
  Input.well_formed p st ->
  Input.unbroken p (Input.key_slot p key_val) acts = true ->
  Input.unbroken p (Input.key_slot p key_val) (Input.ticks key_val batches) = true ->
  (Input.reports (Input.key_slot p key_val) (fst (Input.run p acts st)) <= 1)%nat /\
  (Input.previous st (Input.key_slot p key_val) = 0 ->
   Input.current (snd (Input.arcade_update p batch0 st)) (Input.key_slot p key_val) = 1 ->
   fst (Input.run p (Input.ticks key_val (batch0 :: batches)) st)
   = (Input.key_slot p key_val, 2)
       :: replicate (length batches) (Input.key_slot p key_val, 0)) /\
  fst (Input.arcade_key_pressed_once p key_val
         (snd (Input.arcade_key_pressed_once p key_val st))) = 0 /\
  (Input.current st (Input.key_slot p key_val) = 0 ->
   fst (Input.arcade_key_pressed_once p key_val st) = 0 /\
   Input.previous (snd (Input.arcade_key_pressed_once p key_val st))
     (Input.key_slot p key_val) = 0).
Proof.
  intros Hwf Hacts Hheld.
  assert (Hslot : 0 <= Input.key_slot p key_val < 256) by apply Hwf.
  destruct (pressed_once_tables p key_val st Hwf) as (Hwf1 & Hks & Hsame & _).
  split; [|split; [|split]].
  - now apply at_most_one_report.
  - intros Hprev Hdown.
    change (Input.ticks key_val (batch0 :: batches))
      with (Input.Update batch0 :: Input.PressedOnce key_val
              :: Input.ticks key_val batches).
    rewrite run_update, run_query. cbn [fst].
    set (st0 := snd (Input.arcade_update p batch0 st)) in *.
    assert (Hwf0 : Input.well_formed p st0) by now apply update_well_formed.
    assert (Hprev0 : Input.previous st0 (Input.key_slot p key_val) = 0).
    { unfold Input.previous, st0. now rewrite (proj1 (update_tables p batch0 st)). }
    destruct (pressed_once_tables p key_val st0 Hwf0) as (Hwf2 & Hks2 & Hsame2 & _).
    rewrite pressed_once_result, Hdown, Hprev0.
    apply (f_equal2 cons); [reflexivity|].
    apply held_ticks_silent; [exact Hwf2|exact Hheld| |].
    + unfold Input.current. rewrite Hks2. exact Hdown.
    + rewrite Hsame2. exact Hdown.
  - rewrite pressed_once_result, Hsame. unfold Input.current at 1. rewrite Hks.
    fold (Input.current st (Input.key_slot p key_val)).
    now destruct (Z.eqb_spec (Input.current st (Input.key_slot p key_val)) 1) as [->|].
  - intros Hup. rewrite pressed_once_result, Hsame, Hup. now split.
Qed.

Lemma pressed_once_reports_edge_once_witness :
  let key := Input.a_space in
  let acts := Input.ticks key [[Input.KeyPress key]; []; []] in
  (Input.well_formed Input.X11 Input.initial /\
   Input.unbroken Input.X11 (Input.key_slot Input.X11 key) acts = true /\
   Input.unbroken Input.X11 (Input.key_slot Input.X11 key) (Input.ticks key [[]; []])
   = true) /\
  (Input.reports (Input.key_slot Input.X11 key)
     (fst (Input.run Input.X11 acts Input.initial)) <= 1)%nat.
Proof.
  intros key acts.
  assert (Hwf : Input.well_formed Input.X11 Input.initial).
  { split; [reflexivity|split; [reflexivity|exact x11_slot_range]]. }
  assert (Ha : Input.unbroken Input.X11 (Input.key_slot Input.X11 key) acts = true)
    by reflexivity.
  assert (Hb : Input.unbroken Input.X11 (Input.key_slot Input.X11 key)
                 (Input.ticks key [[]; []]) = true) by reflexivity.
  split; [exact (conj Hwf (conj Ha Hb))|].
  exact (proj1 (pressed_once_reports_edge_once Input.X11 key Input.initial acts
                  [Input.KeyPress key] [[]; []] Hwf Ha Hb)).
Defined.

End InputFacts.

(** ** Loop invariants *)

Module LoopFacts.

Lemma for_loop_prefix {A : Type} (P : Z -> A -> Prop) (n : Z) (body : Z -> A -> A)
    (s : A) (k : nat) :
  P 0 s ->
  (forall i s, 0 <= i < n -> P i s -> P (i + 1) (body i s)) ->
  Z.of_nat k <= n ->
  P (Z.of_nat k) (fold_left (fun s i => body (Z.of_nat i) s) (seq 0 k) s).
Proof.
  intros H0 Hstep. induction k as [|k IH]; intros Hk; [exact H0|].
  rewrite seq_S, fold_left_app. simpl.
  replace (Z.of_nat (S k)) with (Z.of_nat k + 1) by lia.
  apply Hstep; [lia|]. apply IH. lia.
Qed.

(** The invariant rule for [for (i = 0; i < n; i++)]. *)
Lemma for_loop_ind {A : Type} (P : Z -> A -> Prop) (n : Z) (body : Z -> A -> A)
    (s : A) :
  0 <= n ->
  P 0 s ->
  (forall i s, 0 <= i < n -> P i s -> P (i + 1) (body i s)) ->
  P n (Loop.for_loop n body s).
Proof.
  intros Hn H0 Hstep. unfold Loop.for_loop.
  rewrite <- (Z2Nat.id n) at 1 by exact Hn.
  apply (for_loop_prefix P n body s (Z.to_nat n)); try assumption. lia.
Qed.

Lemma for_loop_ub_prefix {A : Type} (P : Z -> A -> Prop) (n : Z)
    (body : Z -> A -> UB.outcome A) (s : A) (k : nat) :
  P 0 s ->
  (forall i s, 0 <= i < n -> P i s -> exists s', body i s = UB.Done s' /\ P (i + 1) s') ->
  Z.of_nat k <= n ->
  exists s', fold_left (fun m i => UB.bind m (body (Z.of_nat i))) (seq 0 k) (UB.Done s)
             = UB.Done s' /\ P (Z.of_nat k) s'.
Proof.
  intros H0 Hstep. induction k as [|k IH]; intros Hk; [exists s; now split|].
  destruct IH as (s1 & Hfold & HP); [lia|].
  rewrite seq_S, fold_left_app, Hfold. simpl.
  replace (Z.of_nat (S k)) with (Z.of_nat k + 1) by lia.
  apply Hstep; [lia|exact HP].
Qed.

(** The invariant rule for a loop whose body may be undefined: when every
    iteration is defined under the invariant, so is the loop. *)
Lemma for_loop_ub_ind {A : Type} (P : Z -> A -> Prop) (n : Z)
    (body : Z -> A -> UB.outcome A) (s : A) :
  0 <= n ->
  P 0 s ->
  (forall i s, 0 <= i < n -> P i s -> exists s', body i s = UB.Done s' /\ P (i + 1) s') ->
  exists s', Loop.for_loop_ub n body s = UB.Done s' /\ P n s'.
Proof.
  intros Hn H0 Hstep. unfold Loop.for_loop_ub.
  destruct (for_loop_ub_prefix P n body s (Z.to_nat n) H0 Hstep) as (s' & Hf & HP);
    [lia|].
  exists s'. split; [exact Hf|]. now rewrite Z2Nat.id in HP.
Qed.

Lemma array_get_done {A : Type} (l : list A) (i : Z) (a : A) :
  0 <= i -> l !! Z.to_nat i = Some a -> UB.array_get l i = UB.Done a.
Proof.
  intros Hi Hl. unfold UB.array_get.
  destruct (Z.leb_spec 0 i); [|lia]. now rewrite Hl.
Qed.

Lemma array_set_done {A : Type} (l : list A) (i : Z) (a : A) :
  0 <= i < Z.of_nat (length l) ->
  UB.array_set l i a = UB.Done (<[Z.to_nat i := a]> l).
Proof.
  intros Hi. unfold UB.array_set.
  destruct (Z.leb_spec 0 i); [|lia].
  destruct (Z.ltb_spec i (Z.of_nat (length l))); [reflexivity|lia].
Qed.

End LoopFacts.

(** ** Loading image sprites *)

Module LoaderFacts.

Lemma malloc_spec (h : Heap.t) :
  match Heap.malloc h with
  | (None, h') => Heap.live h' = Heap.live h
  | (Some p, h') => (p ∉ Heap.live h) /\ Heap.live h' = {[p]} ∪ Heap.live h
  end.
Proof.
  unfold Heap.malloc. destruct (Heap.oom h) as [|[] rest]; simpl;
    try reflexivity; (split; [apply is_fresh|reflexivity]).
Qed.

(** What a call of [load_image_sprite] leaves behind: on failure no block
    and an untouched [active] flag, on success exactly the pixel block. *)
Lemma load_image_sprite_spec (E : Stb.env) (s : ArcadeImageSprite.t) (fn : string)
    (tw th : Z) (h : Heap.t) :
  exists status s' h',
    Loader.load_image_sprite E (Some s) (Some fn) tw th h = (status, Some s', h') /\
    ArcadeImageSprite.x s' = ArcadeImageSprite.x s /\
    ArcadeImageSprite.y s' = ArcadeImageSprite.y s /\
    ((status = 1 /\ Heap.live h' = Heap.live h /\
      ArcadeImageSprite.active s' = ArcadeImageSprite.active s /\
      (ArcadeImageSprite.pixels s' = ArcadeImageSprite.pixels s \/
       ArcadeImageSprite.pixels s' = None)) \/
     (status = 0 /\ Stb.files E fn <> None /\
      ArcadeImageSprite.active s' = 1 /\
      exists px data, ArcadeImageSprite.pixels s' = Some (px, data) /\
                      (px ∉ Heap.live h) /\ Heap.live h' = {[px]} ∪ Heap.live h)).
Proof.
  unfold Loader.load_image_sprite, Stb.stbi_load.
  destruct (Stb.files E fn) as [img|] eqn:Hfile;
    [|do 3 eexists; split; [reflexivity|]; simpl; auto 10].
  pose proof (malloc_spec h) as H1.
  destruct (Heap.malloc h) as [[data|] h1];
    [|do 3 eexists; split; [reflexivity|]; simpl; auto 10].
  destruct H1 as [Hd1 Hl1].
  pose proof (malloc_spec h1) as H2.
  destruct (Heap.malloc h1) as [[resized|] h2].
  2:{ do 3 eexists; split; [reflexivity|]. simpl. split; [reflexivity|].
      split; [reflexivity|]. left. rewrite H2, Hl1.
      repeat split; auto. set_solver. }
  destruct H2 as [Hd2 Hl2].
  destruct (Stb.resize E (Stb.data img) (Stb.width img) (Stb.height img) tw th)
    as [resized_data|].
  2:{ do 3 eexists; split; [reflexivity|]. simpl. split; [reflexivity|].
      split; [reflexivity|]. left. rewrite Hl2, Hl1.
      repeat split; auto. set_solver. }
  pose proof (malloc_spec h2) as H3.
  destruct (Heap.malloc h2) as [[px|] h3].
  2:{ do 3 eexists; split; [reflexivity|]. simpl. split; [reflexivity|].
      split; [reflexivity|]. left. rewrite H3, Hl2, Hl1.
      repeat split; auto. set_solver. }
  destruct H3 as [Hd3 Hl3].
  do 3 eexists; split; [reflexivity|]. simpl. split; [reflexivity|].
  split; [reflexivity|]. right. split; [reflexivity|]. split; [congruence|].
  split; [reflexivity|]. do 2 eexists. split; [reflexivity|].
  rewrite Hl3, Hl2, Hl1. rewrite Hl2, Hl1 in Hd3. rewrite Hl1 in Hd2.
  split; set_solver.
Qed.

Lemma create_image_sprite_spec (E : Stb.env) (x y w h : F32.float)
    (filename : option string) (hp : Heap.t) :
  exists s hp',
    Loader.arcade_create_image_sprite E x y w h filename hp = (s, hp') /\
    ArcadeImageSprite.x s = x /\ ArcadeImageSprite.y s = y /\
    ArcadeImageSprite.active s = 1 /\
    ((ArcadeImageSprite.pixels s = None /\ Heap.live hp' = Heap.live hp) \/
     (~ Loader.undecodable E filename /\
      exists px data, ArcadeImageSprite.pixels s = Some (px, data) /\
                      (px ∉ Heap.live hp) /\ Heap.live hp' = {[px]} ∪ Heap.live hp)).
Proof.
  unfold Loader.arcade_create_image_sprite.
  destruct filename as [fn|]; [|do 2 eexists; split; [reflexivity|]; simpl; auto 10].
  set (s0 := ArcadeImageSprite.mk x y F32.zero F32.zero F32.zero F32.zero None 0 0 1).
  destruct (load_image_sprite_spec E s0 fn (F32.to_int w) (F32.to_int h) hp)
    as (status & s' & hp' & -> & Hx & Hy & [(-> & Hl & Ha & Hp)|(-> & Hf & Ha & Hp)]).
  - simpl. do 2 eexists; split; [reflexivity|]. simpl. auto 10.
  - simpl. do 2 eexists; split; [reflexivity|]. auto 10.
Qed.

(** C2 is contradicted by the code: whatever happens while loading, the
    sprite that [arcade_create_image_sprite] returns has [active = 1]; for a
    missing file the result has a null pixel buffer and still [active = 1],
    not the [active = 0] of the documented sentinel. *)
Theorem failed_load_leaves_sprite_active :
  (forall E x y w h filename hp,
     ArcadeImageSprite.active
       (fst (Loader.arcade_create_image_sprite E x y w h filename hp)) = 1) /\
  Loader.arcade_create_image_sprite Loader.no_files (F32.of_int 100) (F32.of_int 100)
    (F32.of_int 50) (F32.of_int 50) (Some "player.png"%string) Loader.empty_heap
  = (ArcadeImageSprite.mk (F32.of_int 100) (F32.of_int 100) F32.zero F32.zero
       F32.zero F32.zero None 0 0 1,
     Loader.empty_heap).
Proof.
  split; [|reflexivity].
  intros E x y w h filename hp.
  destruct (create_image_sprite_spec E x y w h filename hp)
    as (s & hp' & -> & _ & _ & Ha & _).
  exact Ha.
Qed.

(** *** Animated sprites: construction *)

Lemma pixel_blocks_snoc (frames : list ArcadeImageSprite.t) (f : ArcadeImageSprite.t) :
  Loader.pixel_blocks (frames ++ [f])
  = Loader.pixel_blocks frames ∪ Loader.pixel_block f.
Proof.
  unfold Loader.pixel_blocks. rewrite fmap_app, union_list_app_L. simpl.
  set_solver.
Qed.

Lemma pixel_blocks_insert_same (frames : list ArcadeImageSprite.t) (i : nat)
    (f g : ArcadeImageSprite.t) :
  frames !! i = Some f -> Loader.pixel_block g = Loader.pixel_block f ->
  Loader.pixel_blocks (<[i := g]> frames) = Loader.pixel_blocks frames.
Proof.
  intros Hf Hg. unfold Loader.pixel_blocks. rewrite list_fmap_insert, Hg.
  rewrite list_insert_id; [reflexivity|]. now rewrite list_lookup_fmap, Hf.
Qed.

Lemma free_image_sprite_spec (f : ArcadeImageSprite.t) (hp : Heap.t) :
  exists f', Loader.arcade_free_image_sprite (Some f) hp
             = (Some f', Heap.mk (Heap.live hp ∖ Loader.pixel_block f) (Heap.oom hp)).
Proof.
  unfold Loader.arcade_free_image_sprite, Loader.pixel_block.
  destruct (ArcadeImageSprite.pixels f) as [[p d]|].
  - eexists. reflexivity.
  - exists f. destruct hp as [live oom]. simpl. f_equal. f_equal. set_solver.
Qed.

(** The rollback loop frees the pixel blocks of the first [i] frames. *)
Lemma rollback_spec (i : Z) (frames : list ArcadeImageSprite.t) (hp : Heap.t) :
  0 <= i <= Z.of_nat (length frames) ->
  exists frames' hp',
    Loader.free_loaded_frames i frames hp = UB.Done (frames', hp') /\
    Heap.live hp' = Heap.live hp ∖ Loader.pixel_blocks (take (Z.to_nat i) frames).
Proof.
  intros Hi. unfold Loader.free_loaded_frames.
  destruct (LoopFacts.for_loop_ub_ind
    (fun j (st : list ArcadeImageSprite.t * Heap.t) =>
       length (fst st) = length frames /\
       (forall k, (Z.to_nat j <= k)%nat -> fst st !! k = frames !! k) /\
       Heap.live (snd st)
       = Heap.live hp ∖ Loader.pixel_blocks (take (Z.to_nat j) frames))
    i
    (fun j st =>
       let? f := UB.array_get (fst st) j in
       match Loader.arcade_free_image_sprite (Some f) (snd st) with
       | (Some f, hp) =>
           let? frames := UB.array_set (fst st) j f in UB.Done (frames, hp)
       | (None, hp) => UB.Done (fst st, hp)
       end)
    (frames, hp)) as ([frames' hp'] & Hloop & _ & _ & Hlive).
  - lia.
  - simpl. repeat split; try reflexivity. unfold Loader.pixel_blocks. simpl.
    set_solver.
  - intros j [fr h] Hj (Hlen & Hsame & Hlive). cbn [fst snd] in *.
    destruct (lookup_lt_is_Some_2 frames (Z.to_nat j)) as [f Hf]; [lia|].
    assert (Hfr : fr !! Z.to_nat j = Some f) by (rewrite Hsame; [exact Hf|lia]).
    rewrite (LoopFacts.array_get_done fr j f (proj1 Hj) Hfr).
    cbn [UB.bind]. destruct (free_image_sprite_spec f h) as [f' ->].
    rewrite LoopFacts.array_set_done by lia. cbn [UB.bind].
    eexists; split; [reflexivity|]. cbn [fst snd Heap.live]. rewrite length_insert.
    split; [exact Hlen|]. split.
    + intros k Hk. rewrite list_lookup_insert_ne by lia. apply Hsame. lia.
    + replace (Z.to_nat (j + 1)) with (S (Z.to_nat j)) by lia.
      rewrite (take_S_r frames (Z.to_nat j) f Hf), pixel_blocks_snoc, Hlive.
      set_solver.
  - exists frames', hp'. split; [exact Hloop|exact Hlive].
Qed.

(** The loading loop: it ends either with every remaining frame loaded, or
    with everything released that it and the earlier iterations allocated. *)
Lemma load_frames_spec (E : Stb.env) (x y w h : F32.float)
    (filenames : list (option string)) (block : nat) (L0 : gset nat) :
  forall (todo : nat) (i : Z) (frames : list ArcadeImageSprite.t) (hp : Heap.t),
    0 <= i ->
    i + Z.of_nat todo = Z.of_nat (length frames) ->
    (length frames <= length filenames)%nat ->
    block ∉ L0 ->
    Heap.live hp = L0 ∪ {[block]} ∪ Loader.pixel_blocks (take (Z.to_nat i) frames) ->
    Loader.pixel_blocks (take (Z.to_nat i) frames) ## L0 ∪ {[block]} ->
    Forall (fun f => ArcadeImageSprite.pixels f <> None) (take (Z.to_nat i) frames) ->
    exists r hp',
      Loader.load_frames E x y w h filenames block todo i frames hp = UB.Done (r, hp') /\
      match r with
      | None => Heap.live hp' = L0
      | Some frames' =>
          length frames' = length frames /\
          Forall (fun f => ArcadeImageSprite.pixels f <> None) frames' /\
          Heap.live hp' = L0 ∪ {[block]} ∪ Loader.pixel_blocks frames' /\
          forall k fn, (Z.to_nat i <= k < length frames)%nat ->
                       filenames !! k = Some fn -> ~ Loader.undecodable E fn
      end.
Proof.
  induction todo as [|todo IH]; intros i frames hp Hi Hlen Hnames Hblock Hlive Hdisj Hall.
  - simpl. exists (Some frames), hp. split; [reflexivity|].
    rewrite take_ge in Hlive, Hall by lia.
    repeat split; try assumption. intros k fn Hk. lia.
  - simpl.
    destruct (lookup_lt_is_Some_2 filenames (Z.to_nat i)) as [fn Hfn]; [lia|].
    rewrite (LoopFacts.array_get_done filenames i fn Hi Hfn). simpl.
    destruct (create_image_sprite_spec E x y w h fn hp)
      as (sp & hp1 & -> & _ & _ & _ & Hcases).
    rewrite LoopFacts.array_set_done by lia. simpl.
    destruct Hcases as [[Hnull Hl1]|(Hok & px & data & Hpx & Hfresh & Hl1)].
    + rewrite Hnull.
      destruct (rollback_spec i (<[Z.to_nat i := sp]> frames) hp1)
        as (fr' & hp2 & -> & Hl2); [rewrite length_insert; lia|].
      simpl. do 2 eexists; split; [reflexivity|]. simpl.
      rewrite Hl2, Hl1, Hlive, take_insert_ge by lia. set_solver.
    + rewrite Hpx.
      assert (Htake : take (Z.to_nat (i + 1)) (<[Z.to_nat i := sp]> frames)
                      = take (Z.to_nat i) frames ++ [sp]).
      { replace (Z.to_nat (i + 1)) with (S (Z.to_nat i)) by lia.
        rewrite (take_S_r _ _ sp) by (apply list_lookup_insert_eq; lia).
        now rewrite take_insert_ge by lia. }
      assert (Hblk : Loader.pixel_block sp = {[px]})
        by (unfold Loader.pixel_block; now rewrite Hpx).
      destruct (IH (i + 1) (<[Z.to_nat i := sp]> frames) hp1)
        as (r & hp' & -> & Hr).
      * lia.
      * rewrite length_insert. lia.
      * rewrite length_insert. exact Hnames.
      * exact Hblock.
      * rewrite Htake, pixel_blocks_snoc, Hblk, Hl1, Hlive. set_solver.
      * rewrite Htake, pixel_blocks_snoc, Hblk. rewrite Hlive in Hfresh. set_solver.
      * rewrite Htake. apply Forall_app. split; [exact Hall|].
        apply Forall_singleton. congruence.
      * do 2 eexists; split; [reflexivity|].
        destruct r as [frames'|]; [|exact Hr].
        rewrite length_insert in Hr. destruct Hr as (Hl & Hf & Hh & Hk).
        repeat split; try assumption.
        intros k fn' Hrange Hfn'.
        destruct (decide (k = Z.to_nat i)) as [->|Hne].
        -- rewrite Hfn in Hfn'. injection Hfn' as <-. exact Hok.
        -- apply (Hk k fn'); [lia|exact Hfn'].
Qed.

Lemma create_animated_spec (E : Stb.env) (x y w h : F32.float)
    (filenames : list (option string)) (frame_count frame_interval : Z) (hp : Heap.t) :
  head (Heap.oom hp) <> Some true ->
  Z.of_nat (length filenames) = frame_count ->
  1 <= frame_count ->
  exists anim hp',
    Loader.arcade_create_animated_sprite E x y w h filenames frame_count frame_interval hp
    = UB.Done (anim, hp') /\
    ((anim = ArcadeAnimatedSprite.zero /\ Heap.live hp' = Heap.live hp) \/
     (exists block frames f0,
        anim = ArcadeAnimatedSprite.mk (Some (block, frames)) frame_count 0 frame_interval 0 /\
        Z.of_nat (length frames) = frame_count /\
        frames !! 0%nat = Some f0 /\ ArcadeImageSprite.active f0 = 1 /\
        Forall (fun f => ArcadeImageSprite.pixels f <> None) frames /\
        (block ∉ Heap.live hp) /\
        Heap.live hp' = Heap.live hp ∪ {[block]} ∪ Loader.pixel_blocks frames /\
        forall k fn, filenames !! k = Some fn -> ~ Loader.undecodable E fn)).
Proof.
  intros Hoom Hlen Hcount. unfold Loader.arcade_create_animated_sprite.
  pose proof (malloc_spec hp) as Hm.
  destruct (Heap.malloc hp) as [[block|] hp0] eqn:Hmalloc.
  2:{ unfold Heap.malloc in Hmalloc.
      destruct (Heap.oom hp) as [|[] rest]; simpl in *; congruence. }
  destruct Hm as [Hfresh Hl0].
  destruct (load_frames_spec E x y w h filenames block (Heap.live hp)
              (Z.to_nat frame_count) 0 (replicate (Z.to_nat frame_count) Loader.blank) hp0)
    as (r & hp' & -> & Hr).
  - lia.
  - rewrite length_replicate. lia.
  - rewrite length_replicate. lia.
  - exact Hfresh.
  - simpl. rewrite Hl0. unfold Loader.pixel_blocks. simpl. set_solver.
  - simpl. unfold Loader.pixel_blocks. simpl. set_solver.
  - simpl. constructor.
  - cbn [UB.bind]. destruct r as [frames|].
    2:{ do 2 eexists; split; [reflexivity|]. left. now split. }
    rewrite length_replicate in Hr. destruct Hr as (Hl & Hall & Hlive & Hnames).
    destruct (lookup_lt_is_Some_2 frames 0%nat) as [f0 Hf0]; [lia|].
    rewrite (LoopFacts.array_get_done frames 0 f0) by (try lia; exact Hf0).
    cbn [UB.bind]. rewrite LoopFacts.array_set_done by lia. cbn [UB.bind].
    do 2 eexists; split; [reflexivity|]. right.
    exists block, (<[Z.to_nat 0 := ArcadeImageSprite.set_active 1 f0]> frames),
      (ArcadeImageSprite.set_active 1 f0).
    split; [reflexivity|]. rewrite length_insert.
    split; [lia|]. split; [apply list_lookup_insert_eq; lia|].
    split; [reflexivity|]. split.
    { apply Forall_insert; [exact Hall|]. simpl.
      exact (proj1 (Forall_lookup _ _) Hall 0%nat f0 Hf0). }
    split; [exact Hfresh|]. split.
    { rewrite (pixel_blocks_insert_same frames _ f0) by (try exact Hf0; reflexivity).
      exact Hlive. }
    intros k fn Hk. apply (Hnames k fn); [|exact Hk].
    apply lookup_lt_Some in Hk. lia.
Qed.

(** When the array can be allocated, [arcade_create_animated_sprite]
    is all-or-nothing.  It returns either the zero animation (no frames,
    [frame_count = 0]) with exactly the blocks live that were live before
    the call, so that every frame buffer and the array are released, or an
    animation in which every one of the [frame_count] frames has its pixel
    buffer.  A path that cannot be decoded, at any position of the list,
    forces the first outcome. *)
Lemma create_animated_rollback (E : Stb.env) (x y w h : F32.float)
    (filenames : list (option string)) (frame_count frame_interval : Z) (hp : Heap.t) :
  head (Heap.oom hp) <> Some true ->
  Z.of_nat (length filenames) = frame_count ->
  1 <= frame_count ->
  exists anim hp',
    Loader.arcade_create_animated_sprite E x y w h filenames frame_count frame_interval hp
    = UB.Done (anim, hp') /\
    ((anim = ArcadeAnimatedSprite.zero /\
      ArcadeAnimatedSprite.frame_count anim = 0 /\
      Heap.live hp' = Heap.live hp) \/
     (exists block frames,
        ArcadeAnimatedSprite.frames anim = Some (block, frames) /\
        ArcadeAnimatedSprite.frame_count anim = frame_count /\
        Z.of_nat (length frames) = frame_count /\
        Forall (fun f => ArcadeImageSprite.pixels f <> None) frames)) /\
    ((exists k fn, filenames !! k = Some fn /\ Loader.undecodable E fn) ->
     anim = ArcadeAnimatedSprite.zero /\
     ArcadeAnimatedSprite.frame_count anim = 0 /\
     Heap.live hp' = Heap.live hp).
Proof.
  intros Hoom Hlen Hcount.
  destruct (create_animated_spec E x y w h filenames frame_count frame_interval hp
              Hoom Hlen Hcount)
    as (anim & hp' & Hrun & [[-> Hlive]|(block & frames & f0 & -> & Hl & _ & _ & Hall & _ & _ & Hok)]).
  - exists ArcadeAnimatedSprite.zero, hp'. split; [exact Hrun|].
    split; [left|intros _]; repeat split; assumption.
  - eexists _, hp'. split; [exact Hrun|]. split.
    + right. exists block, frames. repeat split; assumption.
    + intros (k & fn & Hk & Hbad). destruct (Hok k fn Hk Hbad).
Qed.

(** C5 is contradicted by the code when the frames array cannot be
    allocated: the result of [malloc] is used unchecked, so the first
    frame is stored through a null pointer and the call is undefined
    instead of returning the empty animation, whether or not a frame is
    missing.  When the array is allocated the construction is
    all-or-nothing as the claim says: the call returns either the zero
    animation ([frame_count = 0]) with exactly the blocks live that were
    live before, or an animation whose [frame_count] frames all have
    their pixel buffers, and a path that cannot be decoded, at any
    position of the list, forces the first outcome. *)
Theorem create_animated_unchecked_array (E : Stb.env) (x y w h : F32.float)
    (filenames : list (option string)) (frame_count frame_interval : Z) (hp : Heap.t) :
  Z.of_nat (length filenames) = frame_count ->
  1 <= frame_count ->
  (head (Heap.oom hp) = Some true ->
   Loader.arcade_create_animated_sprite E x y w h filenames frame_count frame_interval hp
   = UB.Undefined) /\
  (head (Heap.oom hp) <> Some true ->
   exists anim hp',
     Loader.arcade_create_animated_sprite E x y w h filenames frame_count frame_interval hp
     = UB.Done (anim, hp') /\
     ((anim = ArcadeAnimatedSprite.zero /\
       ArcadeAnimatedSprite.frame_count anim = 0 /\
       Heap.live hp' = Heap.live hp) \/
      (exists block frames,
         ArcadeAnimatedSprite.frames anim = Some (block, frames) /\
         ArcadeAnimatedSprite.frame_count anim = frame_count /\
         Z.of_nat (length frames) = frame_count /\
         Forall (fun f => ArcadeImageSprite.pixels f <> None) frames)) /\
     ((exists k fn, filenames !! k = Some fn /\ Loader.undecodable E fn) ->
      anim = ArcadeAnimatedSprite.zero /\
      ArcadeAnimatedSprite.frame_count anim = 0 /\
      Heap.live hp' = Heap.live hp)).
Proof.
  intros Hlen Hcount. split.
  - intros Hoom. unfold Loader.arcade_create_animated_sprite, Heap.malloc.
    destruct (Heap.oom hp) as [|[] rest]; try discriminate Hoom. reflexivity.
  - intros Hoom.
    exact (create_animated_rollback E x y w h filenames frame_count frame_interval hp
             Hoom Hlen Hcount).
Qed.

Lemma create_animated_unchecked_array_witness :
  let bird := Some "bird.png"%string in
  let filenames := [bird; bird; Some "missing.png"%string; bird] in
  let full := Heap.mk ∅ [true] in
  (Z.of_nat (length filenames) = 4 /\ 1 <= 4) /\
  Loader.arcade_create_animated_sprite Loader.one_file (F32.of_int 100) (F32.of_int 100)
    (F32.of_int 2) (F32.of_int 2) filenames 4 5 full = UB.Undefined /\
  exists hp',
    Loader.arcade_create_animated_sprite Loader.one_file (F32.of_int 100) (F32.of_int 100)
      (F32.of_int 2) (F32.of_int 2) filenames 4 5 Loader.empty_heap
    = UB.Done (ArcadeAnimatedSprite.zero, hp') /\
    Heap.live hp' = Heap.live Loader.empty_heap.
Proof.
  intros bird filenames full.
  assert (H2 : Z.of_nat (length filenames) = 4) by reflexivity.
  assert (H3 : 1 <= 4) by lia.
  split; [exact (conj H2 H3)|]. split.
  - exact (proj1 (create_animated_unchecked_array Loader.one_file (F32.of_int 100)
                    (F32.of_int 100) (F32.of_int 2) (F32.of_int 2) filenames 4 5 full
                    H2 H3) eq_refl).
  - assert (H1 : head (Heap.oom Loader.empty_heap) <> Some true) by discriminate.
    destruct (proj2 (create_animated_unchecked_array Loader.one_file (F32.of_int 100)
                       (F32.of_int 100) (F32.of_int 2) (F32.of_int 2) filenames 4 5
                       Loader.empty_heap H2 H3) H1)
      as (anim & hp' & Hrun & _ & Hbad).
    destruct Hbad as (-> & _ & Hlive).
    + exists 2%nat, (Some "missing.png"%string). split; reflexivity.
    + exists hp'. split; [exact Hrun|exact Hlive].
Defined.

End LoaderFacts.

(** ** Animated sprites: advancing *)

Module AnimFacts.

Lemma actives_length (frames frames' : list ArcadeImageSprite.t) :
  Anim.actives frames' = Anim.actives frames -> length frames' = length frames.
Proof.
  intros H. apply (f_equal length) in H. unfold Anim.actives in H.
  now rewrite !length_fmap in H.
Qed.

Lemma actives_insert (frames : list ArcadeImageSprite.t) (i : nat)
    (f g : ArcadeImageSprite.t) :
  frames !! i = Some f -> ArcadeImageSprite.active g = ArcadeImageSprite.active f ->
  Anim.actives (<[i := g]> frames) = Anim.actives frames.
Proof.
  intros Hf Hg. unfold Anim.actives. rewrite list_fmap_insert, Hg.
  apply list_insert_id. now rewrite list_lookup_fmap, Hf.
Qed.

Lemma move_image_active (s : ArcadeImageSprite.t) (gravity : F32.float) (wh : Z) :
  exists s', Sprite.arcade_move_image_sprite (Some s) gravity wh = Some s' /\
             ArcadeImageSprite.active s' = ArcadeImageSprite.active s.
Proof.
  unfold Sprite.arcade_move_image_sprite.
  destruct (ArcadeImageSprite.active s =? 0); [exists s; now split|].
  eexists; split; [reflexivity|].
  repeat match goal with |- context [if ?b then _ else _] => destruct b end;
    reflexivity.
Qed.

Lemma assign_field_spec
    (set : F32.float -> ArcadeImageSprite.t -> ArcadeImageSprite.t)
    (get : ArcadeImageSprite.t -> F32.float) (i current : Z)
    (frames : list ArcadeImageSprite.t) :
  (forall v s, ArcadeImageSprite.active (set v s) = ArcadeImageSprite.active s) ->
  0 <= i < Z.of_nat (length frames) ->
  0 <= current < Z.of_nat (length frames) ->
  exists frames', Loader.assign_field set get i current frames = UB.Done frames' /\
                  Anim.actives frames' = Anim.actives frames.
Proof.
  intros Hset Hi Hc. unfold Loader.assign_field.
  destruct (lookup_lt_is_Some_2 frames (Z.to_nat i)) as [fi Hfi]; [lia|].
  destruct (lookup_lt_is_Some_2 frames (Z.to_nat current)) as [c Hcur]; [lia|].
  rewrite (LoopFacts.array_get_done frames i fi (proj1 Hi) Hfi). cbn [UB.bind].
  rewrite (LoopFacts.array_get_done frames current c (proj1 Hc) Hcur). cbn [UB.bind].
  rewrite LoopFacts.array_set_done by exact Hi.
  eexists; split; [reflexivity|].
  apply (actives_insert frames _ fi); [exact Hfi|apply Hset].
Qed.

(** The loop that copies position and velocity of the current frame to
    every frame is defined and leaves the active flags alone. *)
Lemma sync_loop_spec (n current : Z) (frames : list ArcadeImageSprite.t) :
  Z.of_nat (length frames) = n ->
  0 <= current < n ->
  exists frames',
    Loop.for_loop_ub n (fun i frames =>
      let? frames := Loader.assign_field ArcadeImageSprite.set_x ArcadeImageSprite.x
                       i current frames in
      let? frames := Loader.assign_field ArcadeImageSprite.set_y ArcadeImageSprite.y
                       i current frames in
      let? frames := Loader.assign_field ArcadeImageSprite.set_vx ArcadeImageSprite.vx
                       i current frames in
      Loader.assign_field ArcadeImageSprite.set_vy ArcadeImageSprite.vy
        i current frames) frames = UB.Done frames' /\
    Anim.actives frames' = Anim.actives frames.
Proof.
  intros Hlen Hcur.
  apply (LoopFacts.for_loop_ub_ind (fun _ fr => Anim.actives fr = Anim.actives frames));
    [lia|reflexivity|].
  intros i fr Hi Hinv.
  assert (Hl : Z.of_nat (length fr) = n) by (rewrite (actives_length _ _ Hinv); exact Hlen).
  destruct (assign_field_spec ArcadeImageSprite.set_x ArcadeImageSprite.x i current fr)
    as (fr1 & -> & H1); [reflexivity|lia|lia|]. cbn [UB.bind].
  assert (Hl1 : Z.of_nat (length fr1) = n) by (rewrite (actives_length _ _ H1); exact Hl).
  destruct (assign_field_spec ArcadeImageSprite.set_y ArcadeImageSprite.y i current fr1)
    as (fr2 & -> & H2); [reflexivity|lia|lia|]. cbn [UB.bind].
  assert (Hl2 : Z.of_nat (length fr2) = n) by (rewrite (actives_length _ _ H2); exact Hl1).
  destruct (assign_field_spec ArcadeImageSprite.set_vx ArcadeImageSprite.vx i current fr2)
    as (fr3 & -> & H3); [reflexivity|lia|lia|]. cbn [UB.bind].
  assert (Hl3 : Z.of_nat (length fr3) = n) by (rewrite (actives_length _ _ H3); exact Hl2).
  destruct (assign_field_spec ArcadeImageSprite.set_vy ArcadeImageSprite.vy i current fr3)
    as (fr4 & -> & H4); [reflexivity|lia|lia|].
  exists fr4. split; [reflexivity|]. congruence.
Qed.

Lemma wrap_in_range (z : Z) : Int.in_range z -> Int.wrap z = z.
Proof.
  unfold Int.in_range, Int.min_signed, Int.max_signed, Int.wrap. intros Hz.
  rewrite Z.mod_small; lia.
Qed.

(** One call on a well-formed animation that satisfies the invariant. *)
Lemma move_animated_step (a : ArcadeAnimatedSprite.t) (gravity : F32.float) (wh : Z) :
  Anim.well_formed a -> Anim.invariant a ->
  exists a',
    Loader.arcade_move_animated_sprite (Some a) gravity wh = UB.Done (Some a') /\
    Anim.well_formed a' /\ Anim.invariant a' /\
    ArcadeAnimatedSprite.frame_count a' = ArcadeAnimatedSprite.frame_count a /\
    ArcadeAnimatedSprite.frame_interval a' = ArcadeAnimatedSprite.frame_interval a /\
    (Anim.first_active a ->
     Anim.first_active a' /\
     (ArcadeAnimatedSprite.current_frame a', ArcadeAnimatedSprite.frame_counter a')
     = Anim.tick (ArcadeAnimatedSprite.frame_count a)
         (ArcadeAnimatedSprite.frame_interval a)
         (ArcadeAnimatedSprite.current_frame a, ArcadeAnimatedSprite.frame_counter a)).
Proof.
  intros Hwf Hinv. pose proof Hwf as Hwf0. pose proof Hinv as Hinv0.
  destruct a as [fr count cur interval ctr].
  destruct Hwf as (Hrc & Hri & block & frames & Hfr & Hlen).
  destruct Hinv as [Hcur Hctr]. simpl in Hrc, Hri, Hfr, Hlen, Hcur, Hctr. subst fr.
  unfold Loader.arcade_move_animated_sprite.
  cbn [ArcadeAnimatedSprite.frames ArcadeAnimatedSprite.frame_count
       ArcadeAnimatedSprite.current_frame ArcadeAnimatedSprite.frame_interval
       ArcadeAnimatedSprite.frame_counter].
  destruct (lookup_lt_is_Some_2 frames 0%nat) as [f0 Hf0]; [lia|].
  rewrite (LoopFacts.array_get_done frames 0 f0) by (try lia; exact Hf0).
  cbn [UB.bind].
  destruct (Z.eqb_spec (ArcadeImageSprite.active f0) 0) as [Hoff|Hon].
  { eexists; split; [reflexivity|].
    split; [exact Hwf0|]. split; [exact Hinv0|].
    split; [reflexivity|]. split; [reflexivity|].
    intros (b & fs & g0 & Heq & Hg0 & Hact). simpl in Heq. injection Heq as <- <-.
    rewrite Hf0 in Hg0. injection Hg0 as <-. contradiction. }
  destruct (lookup_lt_is_Some_2 frames (Z.to_nat cur)) as [c Hc]; [lia|].
  rewrite (LoopFacts.array_get_done frames cur c (proj1 Hcur) Hc). cbn [UB.bind].
  destruct (move_image_active c gravity wh) as (c' & -> & Hc').
  rewrite LoopFacts.array_set_done by lia. cbn [UB.bind].
  pose proof (actives_insert frames (Z.to_nat cur) c c' Hc Hc') as Hact1.
  destruct (sync_loop_spec count cur (<[Z.to_nat cur := c']> frames))
    as (frames2 & -> & Hact2); [rewrite length_insert; exact Hlen|exact Hcur|].
  cbn [UB.bind]. rewrite Hact1 in Hact2.
  assert (Hlen2 : Z.of_nat (length frames2) = count)
    by (rewrite (actives_length _ _ Hact2); exact Hlen).
  assert (Hf2 : exists g0, frames2 !! 0%nat = Some g0 /\
                           ArcadeImageSprite.active g0 = ArcadeImageSprite.active f0).
  { apply (f_equal (fun l => l !! 0%nat)) in Hact2. unfold Anim.actives in Hact2.
    rewrite !list_lookup_fmap, Hf0 in Hact2.
    destruct (frames2 !! 0%nat) as [g0|]; [|discriminate].
    exists g0. split; [reflexivity|]. simpl in Hact2. congruence. }
  destruct Hf2 as (g0 & Hg0 & Hg0a).
  unfold Int.in_range, Int.min_signed, Int.max_signed in Hrc, Hri.
  rewrite (wrap_in_range (ctr + 1))
    by (unfold Int.in_range, Int.min_signed, Int.max_signed; lia).
  unfold Anim.tick. cbn [fst snd].
  destruct (Z.leb_spec interval (ctr + 1)) as [Hwrap|Hstay].
  - destruct (Z.eqb_spec count 0) as [|_]; [lia|].
    rewrite (wrap_in_range (cur + 1))
      by (unfold Int.in_range, Int.min_signed, Int.max_signed; lia).
    unfold Int.rem. rewrite Z.rem_mod_nonneg by lia.
    pose proof (Z.mod_pos_bound (cur + 1) count) as Hmod.
    eexists; split; [reflexivity|].
    split; [|split; [|split; [reflexivity|split; [reflexivity|]]]].
    + unfold Anim.well_formed, Int.in_range, Int.min_signed, Int.max_signed. simpl.
      split; [lia|]. split; [lia|]. exists block, frames2. now split.
    + unfold Anim.invariant. simpl. lia.
    + intros _. split; [|reflexivity].
      exists block, frames2, g0. split; [reflexivity|]. split; [exact Hg0|]. congruence.
  - eexists; split; [reflexivity|].
    split; [|split; [|split; [reflexivity|split; [reflexivity|]]]].
    + unfold Anim.well_formed, Int.in_range, Int.min_signed, Int.max_signed. simpl.
      split; [lia|]. split; [lia|]. exists block, frames2. now split.
    + unfold Anim.invariant. simpl. lia.
    + intros _. split; [|reflexivity].
      exists block, frames2, g0. split; [reflexivity|]. split; [exact Hg0|]. congruence.
Qed.

Lemma advance_spec (calls : list (F32.float * Z)) :
  forall a,
    Anim.well_formed a -> Anim.invariant a -> Anim.first_active a ->
    exists a',
      Anim.advance calls a = UB.Done a' /\
      Anim.well_formed a' /\ Anim.invariant a' /\ Anim.first_active a' /\
      ArcadeAnimatedSprite.frame_count a' = ArcadeAnimatedSprite.frame_count a /\
      ArcadeAnimatedSprite.frame_interval a' = ArcadeAnimatedSprite.frame_interval a /\
      (ArcadeAnimatedSprite.current_frame a', ArcadeAnimatedSprite.frame_counter a')
      = Nat.iter (length calls)
          (Anim.tick (ArcadeAnimatedSprite.frame_count a)
                     (ArcadeAnimatedSprite.frame_interval a))
          (ArcadeAnimatedSprite.current_frame a, ArcadeAnimatedSprite.frame_counter a).
Proof.
  induction calls as [|[gravity wh] calls IH]; intros a Hwf Hinv Hact.
  - exists a. repeat split; assumption || apply Hwf || apply Hinv.
  - cbn [Anim.advance].
    destruct (move_animated_step a gravity wh Hwf Hinv)
      as (a1 & -> & Hwf1 & Hinv1 & Hc1 & Hi1 & Htick).
    destruct (Htick Hact) as [Hact1 Hpair]. cbn [UB.bind].
    destruct (IH a1 Hwf1 Hinv1 Hact1) as (a' & -> & Hwf' & Hinv' & Hact' & Hc' & Hi' & Hit).
    exists a'. split; [reflexivity|].
    split; [exact Hwf'|]. split; [exact Hinv'|]. split; [exact Hact'|].
    split; [congruence|]. split; [congruence|].
    rewrite Hit, Hc1, Hi1, Hpair. cbn [length].
    rewrite Nat.iter_succ, Nat.iter_swap. reflexivity.
Qed.

(** *** The counter arithmetic *)

Lemma tick_count_up (count interval cur : Z) (k : nat) :
  forall c, 0 <= c -> c + Z.of_nat k < interval ->
            Nat.iter k (Anim.tick count interval) (cur, c) = (cur, c + Z.of_nat k).
Proof.
  induction k as [|k IH]; intros c Hc Hk; [simpl; f_equal; lia|].
  rewrite Nat.iter_succ, IH by lia. unfold Anim.tick. cbn [fst snd].
  destruct (Z.leb_spec interval (c + Z.of_nat k + 1)); [lia|]. f_equal. lia.
Qed.

Lemma tick_period (count interval cur : Z) :
  1 <= interval ->
  Nat.iter (Z.to_nat interval) (Anim.tick count interval) (cur, 0)
  = ((cur + 1) mod count, 0).
Proof.
  intros Hi. replace (Z.to_nat interval) with (S (Z.to_nat (interval - 1))) by lia.
  rewrite Nat.iter_succ, tick_count_up by lia. unfold Anim.tick. cbn [fst snd].
  destruct (Z.leb_spec interval (0 + Z.of_nat (Z.to_nat (interval - 1)) + 1)); [|lia].
  reflexivity.
Qed.

Lemma tick_periods (count interval cur : Z) (m : nat) :
  0 <= cur < count -> 1 <= interval ->
  Nat.iter (Z.to_nat interval * m) (Anim.tick count interval) (cur, 0)
  = ((cur + Z.of_nat m) mod count, 0).
Proof.
  intros Hcur Hi. induction m as [|m IH].
  - rewrite Nat.mul_0_r. simpl. rewrite Z.add_0_r, Z.mod_small by lia. reflexivity.
  - rewrite Nat.mul_succ_r, Nat.add_comm, Nat.iter_add, IH, tick_period by exact Hi.
    f_equal. rewrite Z.add_mod_idemp_l by lia. f_equal. lia.
Qed.

(** C6: on an animation whose array holds its [frame_count >= 1] frames,
    with [frame_interval >= 1], a current frame index in range, a frame
    counter of 0 and an active first frame, [frame_interval] calls move the
    current frame forward by one modulo [frame_count] and bring the counter
    back to 0, and [frame_interval * frame_count] calls bring the current
    frame back to where it started. *)
Theorem advance_cycles_frames (a : ArcadeAnimatedSprite.t)
    (calls1 calls2 : list (F32.float * Z)) :
  Anim.well_formed a ->
  1 <= ArcadeAnimatedSprite.frame_count a ->
  1 <= ArcadeAnimatedSprite.frame_interval a ->
  0 <= ArcadeAnimatedSprite.current_frame a < ArcadeAnimatedSprite.frame_count a ->
  ArcadeAnimatedSprite.frame_counter a = 0 ->
  Anim.first_active a ->
  Z.of_nat (length calls1) = ArcadeAnimatedSprite.frame_interval a ->
  Z.of_nat (length calls2)
  = ArcadeAnimatedSprite.frame_interval a * ArcadeAnimatedSprite.frame_count a ->
  (exists a1, Anim.advance calls1 a = UB.Done a1 /\
              ArcadeAnimatedSprite.current_frame a1
              = (ArcadeAnimatedSprite.current_frame a + 1)
                  mod ArcadeAnimatedSprite.frame_count a /\
              ArcadeAnimatedSprite.frame_counter a1 = 0) /\
  (exists a2, Anim.advance calls2 a = UB.Done a2 /\
              ArcadeAnimatedSprite.current_frame a2 = ArcadeAnimatedSprite.current_frame a /\
              ArcadeAnimatedSprite.frame_counter a2 = 0).
Proof.
  intros Hwf Hcount Hinterval Hcur Hctr Hact Hl1 Hl2.
  assert (Hinv : Anim.invariant a) by (unfold Anim.invariant; lia).
  split.
  - destruct (advance_spec calls1 a Hwf Hinv Hact) as (a1 & Hrun & _ & _ & _ & _ & _ & Hit).
    replace (length calls1) with (Z.to_nat (ArcadeAnimatedSprite.frame_interval a)) in Hit
      by lia.
    rewrite Hctr, tick_period in Hit by exact Hinterval.
    injection Hit as H1 H2. exists a1. now split.
  - destruct (advance_spec calls2 a Hwf Hinv Hact) as (a2 & Hrun & _ & _ & _ & _ & _ & Hit).
    replace (length calls2)
      with (Z.to_nat (ArcadeAnimatedSprite.frame_interval a)
            * Z.to_nat (ArcadeAnimatedSprite.frame_count a))%nat in Hit by nia.
    rewrite Hctr, tick_periods in Hit by assumption.
    rewrite Z2Nat.id, <- (Z.mul_1_l (ArcadeAnimatedSprite.frame_count a)) in Hit at 1
      by lia.
    injection Hit as H1 H2. exists a2. split; [exact Hrun|]. split; [|exact H2].
    rewrite H1. rewrite Z.mul_1_l.
    rewrite <- (Z.mul_1_l (ArcadeAnimatedSprite.frame_count a)) at 1.
    rewrite Z.mod_add by lia. apply Z.mod_small. exact Hcur.
Qed.

Lemma bird_well_formed : Anim.well_formed Anim.bird.
Proof.
  unfold Anim.well_formed, Int.in_range, Int.min_signed, Int.max_signed. simpl.
  split; [lia|]. split; [lia|]. do 2 eexists. split; reflexivity.
Qed.

Lemma bird_first_active : Anim.first_active Anim.bird.
Proof.
  unfold Anim.first_active. do 3 eexists. split; [reflexivity|].
  split; [reflexivity|]. discriminate.
Qed.

Lemma advance_cycles_frames_witness :
  (Anim.well_formed Anim.bird /\
   1 <= ArcadeAnimatedSprite.frame_count Anim.bird /\
   1 <= ArcadeAnimatedSprite.frame_interval Anim.bird /\
   0 <= ArcadeAnimatedSprite.current_frame Anim.bird
     < ArcadeAnimatedSprite.frame_count Anim.bird /\
   ArcadeAnimatedSprite.frame_counter Anim.bird = 0 /\
   Anim.first_active Anim.bird /\
   Z.of_nat (length (Anim.calls 2)) = ArcadeAnimatedSprite.frame_interval Anim.bird /\
   Z.of_nat (length (Anim.calls 6))
   = ArcadeAnimatedSprite.frame_interval Anim.bird
     * ArcadeAnimatedSprite.frame_count Anim.bird) /\
  (exists a1, Anim.advance (Anim.calls 2) Anim.bird = UB.Done a1 /\
              ArcadeAnimatedSprite.current_frame a1 = 1 /\
              ArcadeAnimatedSprite.frame_counter a1 = 0) /\
  (exists a2, Anim.advance (Anim.calls 6) Anim.bird = UB.Done a2 /\
              ArcadeAnimatedSprite.current_frame a2 = 0 /\
              ArcadeAnimatedSprite.frame_counter a2 = 0).
Proof.
  assert (H1 : 1 <= ArcadeAnimatedSprite.frame_count Anim.bird) by (simpl; lia).
  assert (H2 : 1 <= ArcadeAnimatedSprite.frame_interval Anim.bird) by (simpl; lia).
  assert (H3 : 0 <= ArcadeAnimatedSprite.current_frame Anim.bird
               < ArcadeAnimatedSprite.frame_count Anim.bird) by (simpl; lia).
  assert (H4 : ArcadeAnimatedSprite.frame_counter Anim.bird = 0) by reflexivity.
  assert (H5 : Z.of_nat (length (Anim.calls 2))
               = ArcadeAnimatedSprite.frame_interval Anim.bird) by reflexivity.
  assert (H6 : Z.of_nat (length (Anim.calls 6))
               = ArcadeAnimatedSprite.frame_interval Anim.bird
                 * ArcadeAnimatedSprite.frame_count Anim.bird) by reflexivity.
  split.
  - exact (conj bird_well_formed (conj H1 (conj H2 (conj H3 (conj H4
             (conj bird_first_active (conj H5 H6))))))).
  - exact (advance_cycles_frames Anim.bird (Anim.calls 2) (Anim.calls 6)
             bird_well_formed H1 H2 H3 H4 bird_first_active H5 H6).
Defined.

(** What [arcade_create_animated_sprite] returns when it returns. *)
Lemma create_animated_fresh (E : Stb.env) (x y w h : F32.float)
    (filenames : list (option string)) (frame_count frame_interval : Z)
    (hp hp' : Heap.t) (anim : ArcadeAnimatedSprite.t) :
  Loader.arcade_create_animated_sprite E x y w h filenames frame_count frame_interval hp
  = UB.Done (anim, hp') ->
  anim = ArcadeAnimatedSprite.zero \/
  (ArcadeAnimatedSprite.frame_count anim = frame_count /\
   ArcadeAnimatedSprite.frame_interval anim = frame_interval /\
   ArcadeAnimatedSprite.current_frame anim = 0 /\
   ArcadeAnimatedSprite.frame_counter anim = 0).
Proof.
  unfold Loader.arcade_create_animated_sprite.
  destruct (Heap.malloc hp) as [[block|] hp0]; [|discriminate].
  destruct (Loader.load_frames _ _ _ _ _ _ _ _ _ _ _) as [[[frames|] hp1]|];
    cbn [UB.bind]; [| |discriminate].
  - destruct (UB.array_get frames 0) as [f0|]; cbn [UB.bind]; [|discriminate].
    destruct (UB.array_set frames 0 _) as [frames'|]; cbn [UB.bind]; [|discriminate].
    intros [= <- <-]. right. repeat split.
  - intros [= <- <-]. left. reflexivity.
Qed.

(** C10: for an animation with [frame_count >= 1] and [frame_interval >= 1]
    whose array holds its frames, the bounds
    [0 <= current_frame < frame_count] and [0 <= frame_counter < frame_interval]
    are preserved by every call of [arcade_move_animated_sprite], whatever the
    gravity and the window height; the call is defined and leaves the two
    parameters alone.  An animation returned by
    [arcade_create_animated_sprite] starts at [current_frame = 0] and
    [frame_counter = 0] and satisfies the bounds when its two parameters are
    at least 1. *)
Theorem move_animated_preserves_bounds (a : ArcadeAnimatedSprite.t)
    (gravity : F32.float) (wh : Z) :
  Anim.well_formed a ->
  1 <= ArcadeAnimatedSprite.frame_count a ->
  1 <= ArcadeAnimatedSprite.frame_interval a ->
  Anim.invariant a ->
  (exists a', Loader.arcade_move_animated_sprite (Some a) gravity wh = UB.Done (Some a') /\
              Anim.invariant a' /\ Anim.well_formed a' /\
              ArcadeAnimatedSprite.frame_count a' = ArcadeAnimatedSprite.frame_count a /\
              ArcadeAnimatedSprite.frame_interval a'
              = ArcadeAnimatedSprite.frame_interval a) /\
  (forall E x y w h filenames frame_count frame_interval hp anim hp',
     Loader.arcade_create_animated_sprite E x y w h filenames frame_count frame_interval hp
     = UB.Done (anim, hp') ->
     1 <= ArcadeAnimatedSprite.frame_count anim ->
     1 <= ArcadeAnimatedSprite.frame_interval anim ->
     ArcadeAnimatedSprite.current_frame anim = 0 /\
     ArcadeAnimatedSprite.frame_counter anim = 0 /\
     Anim.invariant anim).
Proof.
  intros Hwf _ _ Hinv. split.
  - destruct (move_animated_step a gravity wh Hwf Hinv)
      as (a' & Hrun & Hwf' & Hinv' & Hc & Hi & _).
    exists a'. repeat split; try assumption; apply Hinv' || apply Hwf'.
  - intros E x y w h filenames frame_count frame_interval hp anim hp' Hrun Hc Hi.
    destruct (create_animated_fresh _ _ _ _ _ _ _ _ _ _ _ Hrun)
      as [->|(_ & _ & Hcur & Hctr)]; [simpl in Hc; lia|].
    unfold Anim.invariant. rewrite Hcur, Hctr. repeat split; lia.
Qed.

Lemma move_animated_preserves_bounds_witness :
  (Anim.well_formed Anim.bird /\
   1 <= ArcadeAnimatedSprite.frame_count Anim.bird /\
   1 <= ArcadeAnimatedSprite.frame_interval Anim.bird /\
   Anim.invariant Anim.bird) /\
  exists a', Loader.arcade_move_animated_sprite (Some Anim.bird) (F32.lit 1 (-1)) 600
             = UB.Done (Some a') /\
             Anim.invariant a'.
Proof.
  assert (H1 : 1 <= ArcadeAnimatedSprite.frame_count Anim.bird) by (simpl; lia).
  assert (H2 : 1 <= ArcadeAnimatedSprite.frame_interval Anim.bird) by (simpl; lia).
  assert (H3 : Anim.invariant Anim.bird) by (unfold Anim.invariant; simpl; lia).
  split; [exact (conj bird_well_formed (conj H1 (conj H2 H3)))|].
  destruct (proj1 (move_animated_preserves_bounds Anim.bird (F32.lit 1 (-1)) 600
                     bird_well_formed H1 H2 H3)) as (a' & Hrun & Hinv & _).
  exists a'. split; [exact Hrun|exact Hinv].
Defined.

End AnimFacts.

(** ** Image transforms *)

Module TransformFacts.

(** *** Index arithmetic *)

Lemma decode_encode (width x y c : Z) :
  0 <= x < width -> 0 <= c < 4 ->
  Transform.pixel_x width (Transform.encode width x y c) = x /\
  Transform.pixel_y width (Transform.encode width x y c) = y /\
  Transform.channel (Transform.encode width x y c) = c.
Proof.
  intros Hx Hc. unfold Transform.pixel_x, Transform.pixel_y, Transform.channel,
    Transform.encode.
  replace (y * width * 4 + x * 4 + c) with (c + (y * width + x) * 4) by ring.
  rewrite Z.div_add, Z.mod_add, (Z.div_small c 4), (Z.mod_small c 4) by lia.
  rewrite Z.add_0_l. replace (y * width + x) with (x + y * width) by ring.
  rewrite Z.div_add, Z.mod_add, (Z.div_small x width), (Z.mod_small x width) by lia.
  repeat split; lia.
Qed.

Lemma encode_decode (width j : Z) :
  0 < width ->
  Transform.encode width (Transform.pixel_x width j) (Transform.pixel_y width j)
    (Transform.channel j) = j.
Proof.
  intros Hw. unfold Transform.pixel_x, Transform.pixel_y, Transform.channel,
    Transform.encode.
  pose proof (Z.div_mod j 4) as H4.
  pose proof (Z.div_mod (j / 4) width) as Hw'.
  lia.
Qed.

Lemma decode_range (width height j : Z) :
  0 < width -> 0 <= j < width * height * 4 ->
  0 <= Transform.pixel_x width j < width /\
  0 <= Transform.pixel_y width j < height /\
  0 <= Transform.channel j < 4.
Proof.
  intros Hw Hj. unfold Transform.pixel_x, Transform.pixel_y, Transform.channel.
  assert (Hq : 0 <= j / 4 < width * height)
    by (split; [apply Z.div_pos; lia|apply Z.div_lt_upper_bound; lia]).
  split; [apply Z.mod_pos_bound; lia|].
  split; [|apply Z.mod_pos_bound; lia].
  split; [apply Z.div_pos; lia|apply Z.div_lt_upper_bound; lia].
Qed.

Lemma encode_range (width height x y c : Z) :
  0 <= x < width -> 0 <= y < height -> 0 <= c < 4 ->
  0 <= Transform.encode width x y c < width * height * 4.
Proof. intros Hx Hy Hc. unfold Transform.encode. nia. Qed.

(** *** The copy loops *)

Lemma filled_store (width : Z) (src : Z -> Z -> Z) (data : list Z) (len : nat)
    (buf : list Z) (x y c : Z) :
  Transform.filled width src data len (Transform.encode width x y c) buf ->
  0 <= x < width -> 0 <= y -> 0 <= c < 4 ->
  (Z.to_nat (Transform.encode width x y c) < len)%nat ->
  Transform.filled width src data len (Transform.encode width x y c + 1)
    (Loop.store buf (Transform.encode width x y c) (Loop.load data (src x y + c))).
Proof.
  intros [Hlen Hpre] Hx Hy Hc Hk. unfold Loop.store. split.
  - now rewrite length_insert.
  - intros j Hj.
    assert (0 <= Transform.encode width x y c) by (unfold Transform.encode; nia).
    destruct (Z.eq_dec j (Transform.encode width x y c)) as [->|Hne].
    + rewrite list_lookup_insert_eq by lia.
      destruct (decode_encode width x y c Hx Hc) as (-> & -> & ->). reflexivity.
    + rewrite list_lookup_insert_ne by lia. apply Hpre. lia.
Qed.

(** After the three nested loops every byte of the buffer is final. *)
Lemma remap_filled (width height : Z) (src : Z -> Z -> Z) (data buf : list Z) :
  0 <= width -> 0 <= height ->
  Z.of_nat (length buf) = width * height * 4 ->
  Transform.filled width src data (length buf) (width * height * 4)
    (Transform.remap width height src data buf).
Proof.
  intros Hw Hh Hlen. unfold Transform.remap.
  replace (width * height * 4) with (Transform.encode width 0 height 0)
    by (unfold Transform.encode; ring).
  apply (LoopFacts.for_loop_ind
           (fun y b => Transform.filled width src data (length buf)
                         (Transform.encode width 0 y 0) b)); [exact Hh| |].
  { split; [reflexivity|]. unfold Transform.encode. intros j Hj. lia. }
  intros y by_ Hy Hrow.
  replace (Transform.encode width 0 (y + 1) 0) with (Transform.encode width width y 0)
    by (unfold Transform.encode; ring).
  apply (LoopFacts.for_loop_ind
           (fun x b => Transform.filled width src data (length buf)
                         (Transform.encode width x y 0) b)); [exact Hw|exact Hrow|].
  intros x bx Hx Hcol.
  replace (Transform.encode width (x + 1) y 0) with (Transform.encode width x y 4)
    by (unfold Transform.encode; ring).
  apply (LoopFacts.for_loop_ind
           (fun c b => Transform.filled width src data (length buf)
                         (Transform.encode width x y c) b)); [lia|exact Hcol|].
  intros c bc Hc Hch.
  replace (Transform.encode width x y (c + 1)) with (Transform.encode width x y c + 1)
    by (unfold Transform.encode; ring).
  change (y * width * 4 + x * 4 + c) with (Transform.encode width x y c).
  apply filled_store; try assumption; try lia.
  pose proof (encode_range width height x y c Hx Hy Hc). lia.
Qed.

(** The bytes of the transformed buffer, pixel by pixel. *)
Lemma remap_load (width height : Z) (src : Z -> Z -> Z) (data buf : list Z)
    (x y c : Z) :
  Z.of_nat (length buf) = width * height * 4 ->
  0 <= x < width -> 0 <= y < height -> 0 <= c < 4 ->
  Loop.load (Transform.remap width height src data buf) (Transform.encode width x y c)
  = Loop.load data (src x y + c).
Proof.
  intros Hlen Hx Hy Hc.
  destruct (remap_filled width height src data buf) as [_ Hfill]; try lia.
  unfold Loop.load at 1. apply list_lookup_total_correct.
  rewrite Hfill by (apply encode_range; assumption).
  destruct (decode_encode width x y c Hx Hc) as (-> & -> & ->). reflexivity.
Qed.

Lemma remap_length (width height : Z) (src : Z -> Z -> Z) (data buf : list Z) :
  0 <= width -> 0 <= height ->
  Z.of_nat (length buf) = width * height * 4 ->
  length (Transform.remap width height src data buf) = length buf.
Proof. intros Hw Hh Hlen. now destruct (remap_filled width height src data buf). Qed.

(** The copy loops read inside the decoded buffer: for every output pixel
    of a rotation or a flip, the source bytes lie below [width * height * 4]. *)
Lemma rotate_reads_in_bounds (width height degrees x y c : Z) :
  let new_width := if (degrees =? 90) || (degrees =? 270) then height else width in
  let new_height := if (degrees =? 90) || (degrees =? 270) then width else height in
  let src_x := if degrees =? 90 then y
               else if degrees =? 180 then width - 1 - x
               else if degrees =? 270 then new_height - 1 - y
               else x in
  let src_y := if degrees =? 90 then new_width - 1 - x
               else if degrees =? 180 then height - 1 - y
               else if degrees =? 270 then x
               else y in
  0 <= x < new_width -> 0 <= y < new_height -> 0 <= c < 4 ->
  0 <= src_y * width * 4 + src_x * 4 + c < width * height * 4.
Proof.
  intros nw nh sx sy Hx Hy Hc.
  assert (0 <= sx < width /\ 0 <= sy < height) as [Hsx Hsy].
  { unfold sx, sy, nw, nh in *.
    destruct (Z.eqb_spec degrees 90) as [->|H90]; [simpl in *; lia|].
    destruct (Z.eqb_spec degrees 180) as [->|H180]; [simpl in *; lia|].
    destruct (Z.eqb_spec degrees 270) as [->|H270]; simpl in *; lia. }
  exact (encode_range width height sx sy c Hsx Hsy Hc).
Qed.

Lemma flip_reads_in_bounds (width height flip_type x y c : Z) :
  0 <= x < width -> 0 <= y < height -> 0 <= c < 4 ->
  0 <= (if flip_type =? 1 then (height - 1 - y) * width * 4 + x * 4
        else y * width * 4 + (width - 1 - x) * 4) + c < width * height * 4.
Proof.
  intros Hx Hy Hc. destruct (flip_type =? 1).
  - apply (encode_range width height x (height - 1 - y) c); lia.
  - apply (encode_range width height (width - 1 - x) y c); lia.
Qed.

(** In a decoded image every byte index is an [int]. *)
Lemma index_fits_int (img : Stb.Image) (x y c : Z) :
  Transform.well_formed img ->
  0 <= x < Stb.width img -> 0 <= y < Stb.height img -> 0 <= c < 4 ->
  Int.wrap (Transform.encode (Stb.width img) x y c)
  = Transform.encode (Stb.width img) x y c.
Proof.
  intros (Hw & Hh & Hfit & _) Hx Hy Hc.
  pose proof (encode_range _ _ x y c Hx Hy Hc) as Hr.
  unfold Int.max_signed in Hfit. unfold Int.wrap. rewrite Z.mod_small; lia.
Qed.

(** *** The transforms, pixel by pixel *)

(** Two decoded images of the same size with the same pixels are equal. *)
Lemma image_ext (a b : Stb.Image) :
  Transform.well_formed a -> Transform.well_formed b ->
  Stb.width a = Stb.width b -> Stb.height a = Stb.height b ->
  (forall x y c, 0 <= x < Stb.width a -> 0 <= y < Stb.height a -> 0 <= c < 4 ->
                 Transform.px a x y c = Transform.px b x y c) ->
  a = b.
Proof.
  destruct a as [wa ha da], b as [wb hb db]. unfold Transform.well_formed, Transform.px.
  simpl. intros (Hwa & Hha & _ & Hla) (Hwb & Hhb & _ & Hlb) <- <- Hpx.
  f_equal. apply list_eq. intros i.
  destruct (decide (i < length da)%nat) as [Hi|Hi].
  - rewrite (list_lookup_lookup_total_lt da i Hi).
    rewrite (list_lookup_lookup_total_lt db i) by lia. f_equal.
    pose proof (decode_range wa ha (Z.of_nat i) Hwa) as Hr.
    destruct Hr as (Hx & Hy & Hc); [lia|].
    specialize (Hpx _ _ _ Hx Hy Hc). rewrite encode_decode in Hpx by exact Hwa.
    unfold Loop.load in Hpx. now rewrite Nat2Z.id in Hpx.
  - rewrite !lookup_ge_None_2 by lia. reflexivity.
Qed.

Lemma flip_spec (img : Stb.Image) (flip_type : Z) :
  Transform.well_formed img ->
  Stb.width (Transform.arcade_flip_image img flip_type) = Stb.width img /\
  Stb.height (Transform.arcade_flip_image img flip_type) = Stb.height img /\
  Transform.well_formed (Transform.arcade_flip_image img flip_type) /\
  forall x y c, 0 <= x < Stb.width img -> 0 <= y < Stb.height img -> 0 <= c < 4 ->
    Transform.px (Transform.arcade_flip_image img flip_type) x y c
    = if flip_type =? 1
      then Transform.px img x (Stb.height img - 1 - y) c
      else Transform.px img (Stb.width img - 1 - x) y c.
Proof.
  intros (Hw & Hh & Hfit & Hlen). destruct img as [w h data].
  simpl in Hw, Hh, Hfit, Hlen.
  set (buf := replicate (Z.to_nat (w * h * 4)) 0).
  assert (Hbuf : Z.of_nat (length buf) = w * h * 4)
    by (unfold buf; rewrite length_replicate; lia).
  unfold Transform.arcade_flip_image, Transform.px, Transform.well_formed.
  cbn [Stb.width Stb.height Stb.data]. fold buf.
  destruct (flip_type =? 1).
  - change (Loop.for_loop h _ buf)
      with (Transform.remap w h (fun x y => (h - 1 - y) * w * 4 + x * 4) data buf).
    split; [reflexivity|]. split; [reflexivity|]. split.
    + rewrite remap_length by lia. auto.
    + intros x y c Hx Hy Hc. now rewrite remap_load.
  - change (Loop.for_loop h _ buf)
      with (Transform.remap w h (fun x y => y * w * 4 + (w - 1 - x) * 4) data buf).
    split; [reflexivity|]. split; [reflexivity|]. split.
    + rewrite remap_length by lia. auto.
    + intros x y c Hx Hy Hc. now rewrite remap_load.
Qed.

Lemma rotate_spec (img : Stb.Image) (degrees : Z) :
  Transform.well_formed img ->
  let quarter := (degrees =? 90) || (degrees =? 270) in
  let img' := Transform.arcade_rotate_image img degrees in
  Stb.width img' = (if quarter then Stb.height img else Stb.width img) /\
  Stb.height img' = (if quarter then Stb.width img else Stb.height img) /\
  Transform.well_formed img' /\
  forall x y c, 0 <= x < Stb.width img' -> 0 <= y < Stb.height img' -> 0 <= c < 4 ->
    Transform.px img' x y c
    = if degrees =? 90 then Transform.px img y (Stb.height img - 1 - x) c
      else if degrees =? 180
           then Transform.px img (Stb.width img - 1 - x) (Stb.height img - 1 - y) c
      else if degrees =? 270 then Transform.px img (Stb.width img - 1 - y) x c
      else Transform.px img x y c.
Proof.
  intros (Hw & Hh & Hfit & Hlen). destruct img as [w h data].
  simpl in Hw, Hh, Hfit, Hlen.
  intros quarter img'. subst img'.
  unfold Transform.arcade_rotate_image, Transform.px, Transform.well_formed.
  cbn [Stb.width Stb.height Stb.data]. fold quarter.
  set (nw := if quarter then h else w). set (nh := if quarter then w else h).
  assert (Hnw : 0 < nw) by (unfold nw; destruct quarter; lia).
  assert (Hnh : 0 < nh) by (unfold nh; destruct quarter; lia).
  assert (Hsize : nw * nh = w * h) by (unfold nw, nh; destruct quarter; lia).
  set (buf := replicate (Z.to_nat (nw * nh * 4)) 0).
  assert (Hbuf : Z.of_nat (length buf) = nw * nh * 4)
    by (unfold buf; rewrite length_replicate; lia).
  change (Loop.for_loop nh _ buf)
    with (Transform.remap nw nh
            (fun x y =>
               (if degrees =? 90 then nw - 1 - x
                else if degrees =? 180 then h - 1 - y
                else if degrees =? 270 then x else y) * w * 4
               + (if degrees =? 90 then y
                  else if degrees =? 180 then w - 1 - x
                  else if degrees =? 270 then nh - 1 - y else x) * 4)
            data buf).
  split; [reflexivity|]. split; [reflexivity|]. split.
  - rewrite remap_length by lia. repeat split; nia.
  - intros x y c Hx Hy Hc. rewrite remap_load by assumption.
    unfold Transform.encode, nw, nh, quarter.
    destruct (degrees =? 90); [reflexivity|].
    destruct (degrees =? 180); [reflexivity|].
    destruct (degrees =? 270); reflexivity.
Qed.

Lemma rotate_90_spec (img : Stb.Image) :
  Transform.well_formed img ->
  Stb.width (Transform.arcade_rotate_image img 90) = Stb.height img /\
  Stb.height (Transform.arcade_rotate_image img 90) = Stb.width img /\
  Transform.well_formed (Transform.arcade_rotate_image img 90) /\
  forall x y c, 0 <= x < Stb.height img -> 0 <= y < Stb.width img -> 0 <= c < 4 ->
    Transform.px (Transform.arcade_rotate_image img 90) x y c
    = Transform.px img y (Stb.height img - 1 - x) c.
Proof.
  intros Hwf. destruct (rotate_spec img 90 Hwf) as (Hw & Hh & Hwf' & Hpx).
  change ((90 =? 90) || (90 =? 270)) with true in Hw, Hh. cbv iota in Hw, Hh.
  split; [exact Hw|]. split; [exact Hh|]. split; [exact Hwf'|].
  intros x y c Hx Hy Hc. rewrite Hpx by (rewrite ?Hw, ?Hh; assumption). reflexivity.
Qed.

Lemma rotate_180_spec (img : Stb.Image) :
  Transform.well_formed img ->
  Stb.width (Transform.arcade_rotate_image img 180) = Stb.width img /\
  Stb.height (Transform.arcade_rotate_image img 180) = Stb.height img /\
  Transform.well_formed (Transform.arcade_rotate_image img 180) /\
  forall x y c, 0 <= x < Stb.width img -> 0 <= y < Stb.height img -> 0 <= c < 4 ->
    Transform.px (Transform.arcade_rotate_image img 180) x y c
    = Transform.px img (Stb.width img - 1 - x) (Stb.height img - 1 - y) c.
Proof.
  intros Hwf. destruct (rotate_spec img 180 Hwf) as (Hw & Hh & Hwf' & Hpx).
  change ((180 =? 90) || (180 =? 270)) with false in Hw, Hh. cbv iota in Hw, Hh.
  split; [exact Hw|]. split; [exact Hh|]. split; [exact Hwf'|].
  intros x y c Hx Hy Hc. rewrite Hpx by (rewrite ?Hw, ?Hh; assumption). reflexivity.
Qed.

Lemma rotate_180_twice (img : Stb.Image) :
  Transform.well_formed img ->
  Transform.arcade_rotate_image (Transform.arcade_rotate_image img 180) 180 = img.
Proof.
  intros Hwf.
  destruct (rotate_180_spec img Hwf) as (Hw1 & Hh1 & Hwf1 & Hpx1).
  destruct (rotate_180_spec _ Hwf1) as (Hw2 & Hh2 & Hwf2 & Hpx2).
  apply image_ext; try assumption; try congruence.
  rewrite Hw2, Hh2, Hw1, Hh1. intros x y c Hx Hy Hc.
  rewrite Hpx2, Hw1, Hh1, Hpx1 by (rewrite ?Hw1, ?Hh1; lia).
  f_equal; lia.
Qed.

Lemma rotate_90_twice (img : Stb.Image) :
  Transform.well_formed img ->
  Transform.arcade_rotate_image (Transform.arcade_rotate_image img 90) 90
  = Transform.arcade_rotate_image img 180.
Proof.
  intros Hwf.
  destruct (rotate_90_spec img Hwf) as (Hw1 & Hh1 & Hwf1 & Hpx1).
  destruct (rotate_90_spec _ Hwf1) as (Hw2 & Hh2 & Hwf2 & Hpx2).
  destruct (rotate_180_spec img Hwf) as (Hw & Hh & Hwf' & Hpx).
  apply image_ext; try assumption; try congruence.
  rewrite Hw2, Hh2, Hw1, Hh1. intros x y c Hx Hy Hc.
  rewrite Hpx2, Hh1, Hpx1, Hpx by (rewrite ?Hw1, ?Hh1; lia).
  reflexivity.
Qed.

Lemma flip_twice (img : Stb.Image) (flip_type : Z) :
  Transform.well_formed img ->
  Transform.arcade_flip_image (Transform.arcade_flip_image img flip_type) flip_type = img.
Proof.
  intros Hwf.
  destruct (flip_spec img flip_type Hwf) as (Hw1 & Hh1 & Hwf1 & Hpx1).
  destruct (flip_spec _ flip_type Hwf1) as (Hw2 & Hh2 & Hwf2 & Hpx2).
  apply image_ext; try assumption; try congruence.
  rewrite Hw2, Hh2, Hw1, Hh1. intros x y c Hx Hy Hc.
  rewrite Hpx2, Hw1, Hh1 by (rewrite ?Hw1, ?Hh1; lia).
  destruct (flip_type =? 1); rewrite Hpx1 by lia; f_equal; lia.
Qed.

(** C8: on every decoded image (width x height pixels of 4 bytes), the
    remapping of [arcade_rotate_image] by 180 degrees applied twice, the
    remapping by 90 degrees applied four times, and the remapping of
    [arcade_flip_image] applied twice with the same flip type (1 for the
    vertical flip, any other value for the horizontal one) each give back the
    original dimensions and pixel buffer. *)
Theorem transforms_round_trip (img : Stb.Image) (flip_type : Z) :
  Transform.well_formed img ->
  Transform.arcade_rotate_image (Transform.arcade_rotate_image img 180) 180 = img /\
  Transform.arcade_rotate_image
    (Transform.arcade_rotate_image
       (Transform.arcade_rotate_image (Transform.arcade_rotate_image img 90) 90) 90) 90
  = img /\
  Transform.arcade_flip_image (Transform.arcade_flip_image img flip_type) flip_type = img.
Proof.
  intros Hwf. split; [|split].
  - now apply rotate_180_twice.
  - rewrite (rotate_90_twice img Hwf).
    rewrite rotate_90_twice by (now apply rotate_180_spec).
    now apply rotate_180_twice.
  - now apply flip_twice.
Qed.

Lemma transforms_round_trip_witness :
  Transform.well_formed Transform.sample /\
  Transform.arcade_rotate_image (Transform.arcade_rotate_image Transform.sample 180) 180
  = Transform.sample /\
  Transform.arcade_rotate_image
    (Transform.arcade_rotate_image
       (Transform.arcade_rotate_image
          (Transform.arcade_rotate_image Transform.sample 90) 90) 90) 90
  = Transform.sample /\
  Transform.arcade_flip_image (Transform.arcade_flip_image Transform.sample 1) 1
  = Transform.sample.
Proof.
  assert (Hwf : Transform.well_formed Transform.sample).
  { unfold Transform.well_formed, Int.max_signed. simpl. lia. }
  split; [exact Hwf|].
  exact (transforms_round_trip Transform.sample 1 Hwf).
Defined.

End TransformFacts.

(** ** Image transforms: orientation and composition *)

Module TransformMore.

Lemma rotate_270_spec (img : Stb.Image) :
  Transform.well_formed img ->
  Stb.width (Transform.arcade_rotate_image img 270) = Stb.height img /\
  Stb.height (Transform.arcade_rotate_image img 270) = Stb.width img /\
  Transform.well_formed (Transform.arcade_rotate_image img 270) /\
  forall x y c, 0 <= x < Stb.height img -> 0 <= y < Stb.width img -> 0 <= c < 4 ->
    Transform.px (Transform.arcade_rotate_image img 270) x y c
    = Transform.px img (Stb.width img - 1 - y) x c.
Proof.
  intros Hwf. destruct (TransformFacts.rotate_spec img 270 Hwf) as (Hw & Hh & Hwf' & Hpx).
  change ((270 =? 90) || (270 =? 270)) with true in Hw, Hh. cbv iota in Hw, Hh.
  split; [exact Hw|]. split; [exact Hh|]. split; [exact Hwf'|].
  intros x y c Hx Hy Hc. rewrite Hpx by (rewrite ?Hw, ?Hh; assumption). reflexivity.
Qed.

(** X1: a rotation by 90 degrees is a clockwise quarter turn and one by 270
    degrees an anticlockwise one.  Width and height are exchanged, and the
    pixel at column x, row y of the source is found at column
    [height - 1 - y], row x after 90 degrees and at column y, row
    [width - 1 - x] after 270 degrees. *)
Theorem rotate_quarter_turns (img : Stb.Image) (x y c : Z) :
  Transform.well_formed img ->
  0 <= x < Stb.width img -> 0 <= y < Stb.height img -> 0 <= c < 4 ->
  Stb.width (Transform.arcade_rotate_image img 90) = Stb.height img /\
  Stb.height (Transform.arcade_rotate_image img 90) = Stb.width img /\
  Transform.px (Transform.arcade_rotate_image img 90) (Stb.height img - 1 - y) x c
  = Transform.px img x y c /\
  Stb.width (Transform.arcade_rotate_image img 270) = Stb.height img /\
  Stb.height (Transform.arcade_rotate_image img 270) = Stb.width img /\
  Transform.px (Transform.arcade_rotate_image img 270) y (Stb.width img - 1 - x) c
  = Transform.px img x y c.
Proof.
  intros Hwf Hx Hy Hc.
  destruct (TransformFacts.rotate_90_spec img Hwf) as (Hw1 & Hh1 & _ & Hpx1).
  destruct (rotate_270_spec img Hwf) as (Hw3 & Hh3 & _ & Hpx3).
  split; [exact Hw1|]. split; [exact Hh1|]. split.
  { rewrite Hpx1 by lia. f_equal. lia. }
  split; [exact Hw3|]. split; [exact Hh3|].
  rewrite Hpx3 by lia. f_equal. lia.
Qed.

Lemma sample_well_formed : Transform.well_formed Transform.sample.
Proof. unfold Transform.well_formed, Int.max_signed. simpl. lia. Qed.

Lemma rotate_quarter_turns_witness :
  (Transform.well_formed Transform.sample /\
   0 <= 1 < Stb.width Transform.sample /\ 0 <= 2 < Stb.height Transform.sample /\
   0 <= 3 < 4) /\
  Transform.px (Transform.arcade_rotate_image Transform.sample 90) 0 1 3 = 24 /\
  Transform.px Transform.sample 1 2 3 = 24.
Proof.
  assert (Hx : 0 <= 1 < Stb.width Transform.sample) by (simpl; lia).
  assert (Hy : 0 <= 2 < Stb.height Transform.sample) by (simpl; lia).
  assert (Hc : 0 <= 3 < 4) by lia.
  split; [exact (conj sample_well_formed (conj Hx (conj Hy Hc)))|].
  pose proof (rotate_quarter_turns Transform.sample 1 2 3 sample_well_formed Hx Hy Hc)
    as (_ & _ & H90 & _).
  split; [exact H90|reflexivity].
Defined.

(** X2: a flip keeps the dimensions; flip type 1 mirrors the rows (the
    pixel of row y comes from row [height - 1 - y]) and every other flip
    type mirrors the columns (the pixel of column x comes from column
    [width - 1 - x]). *)
Theorem flip_mirrors (img : Stb.Image) (flip_type x y c : Z) :
  Transform.well_formed img ->
  0 <= x < Stb.width img -> 0 <= y < Stb.height img -> 0 <= c < 4 ->
  Stb.width (Transform.arcade_flip_image img flip_type) = Stb.width img /\
  Stb.height (Transform.arcade_flip_image img flip_type) = Stb.height img /\
  Transform.px (Transform.arcade_flip_image img 1) x y c
  = Transform.px img x (Stb.height img - 1 - y) c /\
  (flip_type <> 1 ->
   Transform.px (Transform.arcade_flip_image img flip_type) x y c
   = Transform.px img (Stb.width img - 1 - x) y c).
Proof.
  intros Hwf Hx Hy Hc.
  destruct (TransformFacts.flip_spec img flip_type Hwf) as (Hw & Hh & _ & Hpx).
  destruct (TransformFacts.flip_spec img 1 Hwf) as (_ & _ & _ & Hpx1).
  split; [exact Hw|]. split; [exact Hh|]. split.
  - rewrite Hpx1 by assumption. reflexivity.
  - intros Hne. rewrite Hpx by assumption.
    destruct (Z.eqb_spec flip_type 1); [contradiction|reflexivity].
Qed.

Lemma flip_mirrors_witness :
  (Transform.well_formed Transform.sample /\
   0 <= 1 < Stb.width Transform.sample /\ 0 <= 2 < Stb.height Transform.sample /\
   0 <= 3 < 4) /\
  Transform.px (Transform.arcade_flip_image Transform.sample 1) 1 2 3
  = Transform.px Transform.sample 1 0 3.
Proof.
  assert (Hx : 0 <= 1 < Stb.width Transform.sample) by (simpl; lia).
  assert (Hy : 0 <= 2 < Stb.height Transform.sample) by (simpl; lia).
  assert (Hc : 0 <= 3 < 4) by lia.
  split; [exact (conj sample_well_formed (conj Hx (conj Hy Hc)))|].
  exact (proj1 (proj2 (proj2
           (flip_mirrors Transform.sample 0 1 2 3 sample_well_formed Hx Hy Hc)))).
Defined.

(** X3: a rotation by anything but 90, 180 or 270 degrees does not fail:
    it produces an unchanged copy of the image. *)
Theorem rotate_other_angle_copies (img : Stb.Image) (degrees : Z) :
  Transform.well_formed img ->
  degrees <> 90 -> degrees <> 180 -> degrees <> 270 ->
  Transform.arcade_rotate_image img degrees = img.
Proof.
  intros Hwf H90 H180 H270.
  destruct (TransformFacts.rotate_spec img degrees Hwf) as (Hw & Hh & Hwf' & Hpx).
  destruct (Z.eqb_spec degrees 90) as [|_]; [contradiction|].
  destruct (Z.eqb_spec degrees 180) as [|_]; [contradiction|].
  destruct (Z.eqb_spec degrees 270) as [|_]; [contradiction|].
  simpl in Hw, Hh.
  apply TransformFacts.image_ext; assumption.
Qed.

Lemma rotate_other_angle_copies_witness :
  (Transform.well_formed Transform.sample /\ 45 <> 90 /\ 45 <> 180 /\ 45 <> 270) /\
  Transform.arcade_rotate_image Transform.sample 45 = Transform.sample.
Proof.
  assert (H1 : 45 <> 90) by lia. assert (H2 : 45 <> 180) by lia.
  assert (H3 : 45 <> 270) by lia.
  split; [exact (conj sample_well_formed (conj H1 (conj H2 H3)))|].
  exact (rotate_other_angle_copies Transform.sample 45 sample_well_formed H1 H2 H3).
Defined.

(** X4: the rotations by 90 and by 270 degrees undo each other, in both
    orders, and a rotation by 270 degrees is three rotations by 90. *)
Theorem quarter_turns_are_inverse (img : Stb.Image) :
  Transform.well_formed img ->
  Transform.arcade_rotate_image (Transform.arcade_rotate_image img 90) 270 = img /\
  Transform.arcade_rotate_image (Transform.arcade_rotate_image img 270) 90 = img /\
  Transform.arcade_rotate_image
    (Transform.arcade_rotate_image (Transform.arcade_rotate_image img 90) 90) 90
  = Transform.arcade_rotate_image img 270.
Proof.
  intros Hwf.
  destruct (TransformFacts.rotate_90_spec img Hwf) as (Hw1 & Hh1 & Hwf1 & Hpx1).
  destruct (rotate_270_spec img Hwf) as (Hw3 & Hh3 & Hwf3 & Hpx3).
  destruct (rotate_270_spec _ Hwf1) as (Hwa & Hha & Hwfa & Hpxa).
  destruct (TransformFacts.rotate_90_spec _ Hwf3) as (Hwb & Hhb & Hwfb & Hpxb).
  split; [|split].
  - apply TransformFacts.image_ext; try assumption; try congruence.
    rewrite Hwa, Hha, Hw1, Hh1. intros x y c Hx Hy Hc.
    rewrite Hpxa, Hw1, Hpx1 by (rewrite ?Hw1, ?Hh1; lia). f_equal; lia.
  - apply TransformFacts.image_ext; try assumption; try congruence.
    rewrite Hwb, Hhb, Hw3, Hh3. intros x y c Hx Hy Hc.
    rewrite Hpxb, Hh3, Hpx3 by (rewrite ?Hw3, ?Hh3; lia). f_equal; lia.
  - rewrite (TransformFacts.rotate_90_twice img Hwf).
    destruct (TransformFacts.rotate_180_spec img Hwf) as (Hw2 & Hh2 & Hwf2 & Hpx2).
    destruct (TransformFacts.rotate_90_spec _ Hwf2) as (Hwc & Hhc & Hwfc & Hpxc).
    apply TransformFacts.image_ext; try assumption; try congruence.
    rewrite Hwc, Hhc, Hw2, Hh2. intros x y c Hx Hy Hc.
    rewrite Hpxc, Hh2, Hpx2, Hpx3 by (rewrite ?Hw2, ?Hh2; lia). f_equal; lia.
Qed.

Lemma quarter_turns_are_inverse_witness :
  Transform.well_formed Transform.sample /\
  Transform.arcade_rotate_image (Transform.arcade_rotate_image Transform.sample 90) 270
  = Transform.sample.
Proof.
  split; [exact sample_well_formed|].
  exact (proj1 (quarter_turns_are_inverse Transform.sample sample_well_formed)).
Defined.

(** X5: a vertical and a horizontal flip, in either order, make the
    rotation by 180 degrees. *)
Theorem flips_compose_to_half_turn (img : Stb.Image) (horizontal : Z) :
  Transform.well_formed img -> horizontal <> 1 ->
  Transform.arcade_flip_image (Transform.arcade_flip_image img 1) horizontal
  = Transform.arcade_rotate_image img 180 /\
  Transform.arcade_flip_image (Transform.arcade_flip_image img horizontal) 1
  = Transform.arcade_rotate_image img 180.
Proof.
  intros Hwf Hne.
  destruct (TransformFacts.rotate_180_spec img Hwf) as (Hw & Hh & Hwf' & Hpx).
  destruct (TransformFacts.flip_spec img 1 Hwf) as (Hwv & Hhv & Hwfv & Hpxv).
  destruct (TransformFacts.flip_spec img horizontal Hwf) as (Hwh & Hhh & Hwfh & Hpxh).
  destruct (TransformFacts.flip_spec _ horizontal Hwfv) as (Hw1 & Hh1 & Hwf1 & Hpx1).
  destruct (TransformFacts.flip_spec _ 1 Hwfh) as (Hw2 & Hh2 & Hwf2 & Hpx2).
  destruct (Z.eqb_spec horizontal 1) as [|_]; [contradiction|].
  change (1 =? 1) with true in Hpxv, Hpx2. cbv iota in Hpxv, Hpx2.
  split.
  - apply TransformFacts.image_ext; try assumption; try congruence.
    rewrite Hw1, Hh1, Hwv, Hhv. intros x y c Hx Hy Hc.
    rewrite Hpx1, Hwv, Hpxv, Hpx by (rewrite ?Hwv, ?Hhv; lia). reflexivity.
  - apply TransformFacts.image_ext; try assumption; try congruence.
    rewrite Hw2, Hh2, Hwh, Hhh. intros x y c Hx Hy Hc.
    rewrite Hpx2, Hhh, Hpxh, Hpx by (rewrite ?Hwh, ?Hhh; lia). reflexivity.
Qed.

Lemma flips_compose_to_half_turn_witness :
  (Transform.well_formed Transform.sample /\ 0 <> 1) /\
  Transform.arcade_flip_image (Transform.arcade_flip_image Transform.sample 1) 0
  = Transform.arcade_rotate_image Transform.sample 180.
Proof.
  assert (H : 0 <> 1) by lia.
  split; [exact (conj sample_well_formed H)|].
  exact (proj1 (flips_compose_to_half_turn Transform.sample 0 sample_well_formed H)).
Defined.

End TransformMore.

(** ** Input: held keys, clearing and the pump *)

Module InputMore.

Lemma set_key_well_formed (p : Input.platform) (sym v : Z) (st : Input.state) :
  Input.well_formed p st -> Input.well_formed p (Input.set_key p sym v st).
Proof.
  intros (Hk & Hl & Hs). unfold Input.set_key, Input.well_formed.
  destruct (Input.event_slot p sym); simpl; rewrite ?length_insert; auto.
Qed.

Lemma run_well_formed (p : Input.platform) (acts : list Input.action) :
  forall st, Input.well_formed p st -> Input.well_formed p (snd (Input.run p acts st)).
Proof.
  induction acts as [|a acts IH]; intros st Hwf; [exact Hwf|].
  destruct a as [events|key_val|].
  - rewrite InputFacts.run_update. apply IH. now apply InputFacts.update_well_formed.
  - rewrite InputFacts.run_query. cbn [snd]. apply IH.
    now apply InputFacts.pressed_once_tables.
  - cbn [Input.run]. apply IH. destruct Hwf as (Hk & Hl & Hs).
    unfold Input.well_formed, Input.arcade_clear_keys. simpl.
    rewrite !length_replicate. auto.
Qed.

(** X6: while a press is unbroken, [arcade_key_pressed] keeps returning 2
    for the key, whatever events arrive and whatever queries
    ([arcade_key_pressed_once] included) are made in between: the edge query
    consumes the edge, never the held state. *)
Theorem key_pressed_while_held (p : Input.platform) (key_val : Z)
    (acts : list Input.action) (st : Input.state) :
  Input.well_formed p st ->
  Input.current st (Input.key_slot p key_val) = 1 ->
  Input.unbroken p (Input.key_slot p key_val) acts = true ->
  Input.arcade_key_pressed p key_val (snd (Input.run p acts st)) = 2.
Proof.
  revert st. induction acts as [|a acts IH]; intros st Hwf Hcur Hun.
  - unfold Input.arcade_key_pressed. unfold Input.current in Hcur. simpl.
    now rewrite Hcur.
  - simpl in Hun. apply andb_true_iff in Hun as [Ha Hun].
    destruct a as [events|k|]; [| |discriminate Ha].
    + rewrite InputFacts.run_update. apply negb_true_iff in Ha.
      apply IH; [now apply InputFacts.update_well_formed| |exact Hun].
      apply InputFacts.update_keeps_down; try assumption.
      destruct Hwf as (-> & _ & Hs). specialize (Hs key_val). lia.
    + rewrite InputFacts.run_query. cbn [snd].
      destruct (InputFacts.pressed_once_tables p k st Hwf) as (Hwf1 & Hks & _).
      apply IH; [exact Hwf1| |exact Hun].
      unfold Input.current. rewrite Hks. exact Hcur.
Qed.

Lemma key_pressed_while_held_witness :
  let acts := [Input.PressedOnce Input.a_space; Input.Update [Input.KeyPress 97];
               Input.PressedOnce Input.a_space; Input.Update []] in
  let st := snd (Input.arcade_update Input.X11 [Input.KeyPress Input.a_space]
                   Input.initial) in
  (Input.well_formed Input.X11 st /\
   Input.current st (Input.key_slot Input.X11 Input.a_space) = 1 /\
   Input.unbroken Input.X11 (Input.key_slot Input.X11 Input.a_space) acts = true) /\
  Input.arcade_key_pressed Input.X11 Input.a_space (snd (Input.run Input.X11 acts st)) = 2.
Proof.
  intros acts st.
  assert (Hwf : Input.well_formed Input.X11 st).
  { split; [reflexivity|split; [reflexivity|exact InputFacts.x11_slot_range]]. }
  assert (Hc : Input.current st (Input.key_slot Input.X11 Input.a_space) = 1)
    by reflexivity.
  assert (Hu : Input.unbroken Input.X11 (Input.key_slot Input.X11 Input.a_space) acts
               = true) by reflexivity.
  split; [exact (conj Hwf (conj Hc Hu))|].
  exact (key_pressed_while_held Input.X11 Input.a_space acts st Hwf Hc Hu).
Defined.

(** X7: [arcade_clear_keys] forgets every key: right after it, both
    queries return 0 for every key, also for one that is physically held,
    and the key is reported again (once) as soon as a new press event for it
    arrives. *)
Theorem clear_keys_forgets_presses (p : Input.platform) (key_val sym : Z)
    (st : Input.state) :
  Input.well_formed p st ->
  Input.event_slot p sym = Some (Input.key_slot p key_val) ->
  Input.well_formed p (Input.arcade_clear_keys st) /\
  Input.arcade_key_pressed p key_val (Input.arcade_clear_keys st) = 0 /\
  fst (Input.arcade_key_pressed_once p key_val (Input.arcade_clear_keys st)) = 0 /\
  fst (Input.arcade_key_pressed_once p key_val
         (snd (Input.arcade_update p [Input.KeyPress sym] (Input.arcade_clear_keys st))))
  = 2.
Proof.
  intros (Hk & Hl & Hs) Hsym. pose proof (Hs key_val) as Hslot.
  assert (Hz : (replicate 256 0 : list Z) !!! Z.to_nat (Input.key_slot p key_val) = 0)
    by (apply lookup_total_replicate_2; lia).
  split; [|split; [|split]].
  - unfold Input.well_formed, Input.arcade_clear_keys. simpl.
    rewrite !length_replicate. auto.
  - unfold Input.arcade_key_pressed, Input.arcade_clear_keys. simpl.
    now rewrite Hk, Hz.
  - rewrite InputFacts.pressed_once_result.
    unfold Input.current, Input.arcade_clear_keys. simpl. now rewrite Hk, Hz.
  - rewrite InputFacts.pressed_once_result.
    change (snd (Input.arcade_update p [Input.KeyPress sym] (Input.arcade_clear_keys st)))
      with (Input.set_key p sym 1 (Input.arcade_clear_keys st)).
    unfold Input.set_key. rewrite Hsym.
    unfold Input.current, Input.previous, Input.arcade_clear_keys.
    cbn [Input.key_states Input.last_key_states]. rewrite Hk, Hl, Hz.
    rewrite list_lookup_total_insert_eq by (rewrite length_replicate; lia).
    reflexivity.
Qed.

Lemma clear_keys_forgets_presses_witness :
  let st := snd (Input.arcade_update Input.X11 [Input.KeyPress Input.a_space]
                   Input.initial) in
  (Input.well_formed Input.X11 st /\
   Input.event_slot Input.X11 Input.a_space
   = Some (Input.key_slot Input.X11 Input.a_space)) /\
  Input.arcade_key_pressed Input.X11 Input.a_space st = 2 /\
  Input.arcade_key_pressed Input.X11 Input.a_space (Input.arcade_clear_keys st) = 0.
Proof.
  intros st.
  assert (Hwf : Input.well_formed Input.X11 st).
  { split; [reflexivity|split; [reflexivity|exact InputFacts.x11_slot_range]]. }
  assert (He : Input.event_slot Input.X11 Input.a_space
               = Some (Input.key_slot Input.X11 Input.a_space)) by reflexivity.
  split; [exact (conj Hwf He)|]. split; [reflexivity|].
  exact (proj1 (proj2 (clear_keys_forgets_presses Input.X11 Input.a_space Input.a_space
                         st Hwf He))).
Defined.

Lemma update_no_close (p : Input.platform) (events : list Input.event) :
  forall st, existsb Pump.is_close events = false ->
             fst (Input.arcade_update p events st) = true.
Proof.
  induction events as [|ev events IH]; intros st Hno; [reflexivity|].
  simpl in Hno. apply orb_false_iff in Hno as [Hev Hno].
  destruct ev; simpl; try discriminate Hev; now apply IH.
Qed.

(** X8: the pump reports "continue" exactly when its batch holds no close
    request, and it stops at the first close request: the events behind it
    have no effect on the key tables. *)
Theorem update_stops_at_close (p : Input.platform) (pre post : list Input.event)
    (st : Input.state) :
  existsb Pump.is_close pre = false ->
  fst (Input.arcade_update p pre st) = true /\
  Input.arcade_update p (pre ++ Input.CloseRequest :: post) st
  = (false, snd (Input.arcade_update p pre st)).
Proof.
  intros Hno. split; [now apply update_no_close|].
  revert st. induction pre as [|ev pre IH]; intros st; [reflexivity|].
  simpl in Hno. apply orb_false_iff in Hno as [Hev Hno].
  destruct ev; simpl; try discriminate Hev; now apply IH.
Qed.

Lemma update_stops_at_close_witness :
  existsb Pump.is_close [Input.KeyPress Input.a_space] = false /\
  Input.arcade_update Input.X11
    ([Input.KeyPress Input.a_space] ++ Input.CloseRequest :: [Input.KeyRelease Input.a_space])
    Input.initial
  = (false, snd (Input.arcade_update Input.X11 [Input.KeyPress Input.a_space]
                   Input.initial)).
Proof.
  split; [reflexivity|].
  exact (proj2 (update_stops_at_close Input.X11 [Input.KeyPress Input.a_space]
                  [Input.KeyRelease Input.a_space] Input.initial eq_refl)).
Defined.

(** X9: on X11 only the low byte of a key symbol selects the table slot,
    so a press of one key is seen by the queries of every key code with the
    same low byte: after a press of the key symbol 0xff63 the query
    [arcade_key_pressed] of [a_c] (0x63) returns 2, and
    [arcade_key_pressed_once] of [a_c] returns 2 when the slot was up at
    the last edge query ([last_key_states] holds 0) and 0 when it was
    already recorded as down. *)
Theorem x11_keys_share_low_byte (sym key_val : Z) (st : Input.state) :
  Input.well_formed Input.X11 st ->
  Z.land sym 255 = Z.land key_val 255 ->
  Input.arcade_key_pressed Input.X11 key_val
    (snd (Input.arcade_update Input.X11 [Input.KeyPress sym] st)) = 2 /\
  fst (Input.arcade_key_pressed_once Input.X11 key_val
         (snd (Input.arcade_update Input.X11 [Input.KeyPress sym] st)))
  = (if Input.previous st (Input.key_slot Input.X11 key_val) =? 0 then 2 else 0).
Proof.
  intros (Hk & Hl & Hs) Hlow. pose proof (Hs key_val) as Hslot.
  change (Input.key_slot Input.X11 key_val) with (Z.land key_val 255) in *.
  assert (Hcur : Input.key_states
                   (snd (Input.arcade_update Input.X11 [Input.KeyPress sym] st))
                 !!! Z.to_nat (Z.land key_val 255) = 1).
  { simpl. unfold Input.set_key. simpl. rewrite Hlow.
    apply list_lookup_total_insert_eq. lia. }
  split.
  - unfold Input.arcade_key_pressed.
    change (Input.key_slot Input.X11 key_val) with (Z.land key_val 255).
    now rewrite Hcur.
  - rewrite InputFacts.pressed_once_result. unfold Input.current, Input.previous.
    change (Input.key_slot Input.X11 key_val) with (Z.land key_val 255).
    rewrite Hcur. reflexivity.
Qed.

Lemma x11_keys_share_low_byte_witness :
  (Input.well_formed Input.X11 Input.initial /\
   Z.land Pump.insert_sym 255 = Z.land Pump.a_c 255) /\
  Input.arcade_key_pressed Input.X11 Pump.a_c
    (snd (Input.arcade_update Input.X11 [Input.KeyPress Pump.insert_sym] Input.initial))
  = 2.
Proof.
  assert (Hwf : Input.well_formed Input.X11 Input.initial).
  { split; [reflexivity|split; [reflexivity|exact InputFacts.x11_slot_range]]. }
  assert (Hlow : Z.land Pump.insert_sym 255 = Z.land Pump.a_c 255) by reflexivity.
  split; [exact (conj Hwf Hlow)|].
  exact (proj1 (x11_keys_share_low_byte Pump.insert_sym Pump.a_c Input.initial Hwf Hlow)).
Defined.

End InputMore.

(** ** Timing *)

Module TimingFacts.

Lemma delta_time_within (current_time last_time : F64.double) :
  Body.within (fst (Timing.arcade_delta_time current_time last_time)) Timing.tenth /\
  snd (Timing.arcade_delta_time current_time last_time) = current_time.
Proof.
  unfold Timing.arcade_delta_time, Body.within.
  destruct (F64.eqb last_time F64.zero || F64.eqb current_time F64.zero);
    [split; [split|]; reflexivity|].
  cbn [fst snd]. split; [|reflexivity].
  set (d := F64.to_float (F64.sub current_time last_time)).
  destruct (F32.gt d Timing.tenth) eqn:Hhi.
  - change (F32.lt Timing.tenth F32.zero) with false. cbv iota.
    split; [reflexivity|apply F32Facts.gt_irrefl].
  - destruct (F32.lt d F32.zero) eqn:Hlo.
    + split; reflexivity.
    + split; assumption.
Qed.

(** X10: whatever the clock readings are, no call of [arcade_delta_time]
    returns a value above 0.1 or below 0 (a value that is a number lies in
    [[0, 0.1]]), and the first call, made while the stored time is still 0,
    returns 0. *)
Theorem delta_time_is_clamped (readings : list F64.double) (last_time : F64.double) :
  Forall (fun d => Body.within d Timing.tenth /\
                   (F32.is_nan d = false ->
                    F32.le F32.zero d = true /\ F32.le d Timing.tenth = true))
         (Timing.deltas readings last_time) /\
  (forall current_time,
     Timing.arcade_delta_time current_time F64.zero = (F32.zero, current_time)).
Proof.
  split; [|reflexivity].
  revert last_time. induction readings as [|t readings IH]; intros last_time;
    [constructor|].
  cbn [Timing.deltas]. constructor; [|apply IH].
  destruct (delta_time_within t last_time) as [Hw _].
  split; [exact Hw|]. intros Hn. now apply SpriteFacts.within_le.
Qed.

End TimingFacts.

(** ** Releasing sprites *)

Module ReleaseFacts.






End ReleaseFacts.

(** ** Animated sprites: the displayed frame *)

Module AnimatedFacts.

Lemma placed_at_self (c : ArcadeImageSprite.t) : Animated.placed_at c c = c.
Proof. destruct c; reflexivity. Qed.

Lemma assign_field_value
    (set : F32.float -> ArcadeImageSprite.t -> ArcadeImageSprite.t)
    (get : ArcadeImageSprite.t -> F32.float) (i current : Z)
    (frames : list ArcadeImageSprite.t) (fi c : ArcadeImageSprite.t) :
  0 <= i -> 0 <= current ->
  frames !! Z.to_nat i = Some fi -> frames !! Z.to_nat current = Some c ->
  Loader.assign_field set get i current frames
  = UB.Done (<[Z.to_nat i := set (get c) fi]> frames).
Proof.
  intros Hi Hc Hfi Hcur. unfold Loader.assign_field.
  rewrite (LoopFacts.array_get_done frames i fi Hi Hfi). cbn [UB.bind].
  rewrite (LoopFacts.array_get_done frames current c Hc Hcur). cbn [UB.bind].
  apply LoopFacts.array_set_done. apply lookup_lt_Some in Hfi. lia.
Qed.

(** One iteration of the copying loop gives frame [i] the position and the
    velocity of the current frame. *)
Lemma sync_body_value (i current : Z) (frames : list ArcadeImageSprite.t)
    (fi c : ArcadeImageSprite.t) :
  0 <= i -> 0 <= current ->
  frames !! Z.to_nat i = Some fi -> frames !! Z.to_nat current = Some c ->
  (let? frames := Loader.assign_field ArcadeImageSprite.set_x ArcadeImageSprite.x
                    i current frames in
   let? frames := Loader.assign_field ArcadeImageSprite.set_y ArcadeImageSprite.y
                    i current frames in
   let? frames := Loader.assign_field ArcadeImageSprite.set_vx ArcadeImageSprite.vx
                    i current frames in
   Loader.assign_field ArcadeImageSprite.set_vy ArcadeImageSprite.vy
     i current frames)
  = UB.Done (<[Z.to_nat i := Animated.placed_at c fi]> frames).
Proof.
  intros Hi Hc Hfi Hcur.
  assert (Hlt : (Z.to_nat i < length frames)%nat) by (eapply lookup_lt_Some; exact Hfi).
  destruct (decide (Z.to_nat i = Z.to_nat current)) as [Heq|Hne].
  - rewrite <- Heq in Hcur. rewrite Hfi in Hcur. injection Hcur as ->.
    assert (Hic : i = current) by lia. subst current.
    rewrite (assign_field_value _ _ i i frames c c) by (try lia; exact Hfi).
    cbn [UB.bind].
    rewrite (assign_field_value _ _ i i _ _ _ Hi Hi
               (list_lookup_insert_eq _ _ _ Hlt) (list_lookup_insert_eq _ _ _ Hlt)).
    cbn [UB.bind]. rewrite list_insert_insert_eq.
    rewrite (assign_field_value _ _ i i _ _ _ Hi Hi
               (list_lookup_insert_eq _ _ _ Hlt) (list_lookup_insert_eq _ _ _ Hlt)).
    cbn [UB.bind]. rewrite list_insert_insert_eq.
    rewrite (assign_field_value _ _ i i _ _ _ Hi Hi
               (list_lookup_insert_eq _ _ _ Hlt) (list_lookup_insert_eq _ _ _ Hlt)).
    rewrite list_insert_insert_eq. destruct c; reflexivity.
  - assert (Hcur' : forall v, (<[Z.to_nat i := v]> frames) !! Z.to_nat current = Some c).
    { intros v. rewrite list_lookup_insert_ne by exact Hne. exact Hcur. }
    rewrite (assign_field_value _ _ i current frames fi c) by (try lia; assumption).
    cbn [UB.bind].
    rewrite (assign_field_value _ _ i current _ _ _ Hi Hc
               (list_lookup_insert_eq _ _ _ Hlt) (Hcur' _)).
    cbn [UB.bind]. rewrite list_insert_insert_eq.
    rewrite (assign_field_value _ _ i current _ _ _ Hi Hc
               (list_lookup_insert_eq _ _ _ Hlt) (Hcur' _)).
    cbn [UB.bind]. rewrite list_insert_insert_eq.
    rewrite (assign_field_value _ _ i current _ _ _ Hi Hc
               (list_lookup_insert_eq _ _ _ Hlt) (Hcur' _)).
    rewrite list_insert_insert_eq. reflexivity.
Qed.

(** The copying loop gives every frame the position and the velocity of
    the current frame and changes nothing else. *)
Lemma sync_loop_value (n current : Z) (frames : list ArcadeImageSprite.t)
    (c : ArcadeImageSprite.t) :
  Z.of_nat (length frames) = n ->
  0 <= current ->
  frames !! Z.to_nat current = Some c ->
  Loop.for_loop_ub n (fun i frames =>
    let? frames := Loader.assign_field ArcadeImageSprite.set_x ArcadeImageSprite.x
                     i current frames in
    let? frames := Loader.assign_field ArcadeImageSprite.set_y ArcadeImageSprite.y
                     i current frames in
    let? frames := Loader.assign_field ArcadeImageSprite.set_vx ArcadeImageSprite.vx
                     i current frames in
    Loader.assign_field ArcadeImageSprite.set_vy ArcadeImageSprite.vy
      i current frames) frames
  = UB.Done (Animated.placed_at c <$> frames).
Proof.
  intros Hlen Hc Hcur.
  match goal with
  | |- Loop.for_loop_ub _ ?body _ = _ =>
      destruct (LoopFacts.for_loop_ub_ind
        (fun j (fr : list ArcadeImageSprite.t) =>
           length fr = length frames /\
           forall k f, frames !! k = Some f ->
                       fr !! k = Some (if decide (k < Z.to_nat j)%nat
                                       then Animated.placed_at c f else f))
        n body frames ltac:(lia)) as (fr & -> & Hl & Hfr)
  end.
  - split; [reflexivity|]. intros k f Hk.
    destruct (decide (k < Z.to_nat 0)%nat); [lia|exact Hk].
  - intros i fr Hi [Hl Hfr].
    destruct (lookup_lt_is_Some_2 frames (Z.to_nat i)) as [fi Hfi]; [lia|].
    assert (Hfri : fr !! Z.to_nat i = Some fi).
    { rewrite (Hfr _ _ Hfi). destruct (decide (Z.to_nat i < Z.to_nat i)%nat); [lia|].
      reflexivity. }
    assert (Hfrc : fr !! Z.to_nat current = Some c).
    { rewrite (Hfr _ _ Hcur).
      destruct (decide (Z.to_nat current < Z.to_nat i)%nat); [|reflexivity].
      now rewrite placed_at_self. }
    rewrite (sync_body_value i current fr fi c) by (try lia; assumption).
    eexists. split; [reflexivity|]. split; [now rewrite length_insert|].
    intros k f Hk. destruct (decide (k = Z.to_nat i)) as [->|Hne].
    + rewrite list_lookup_insert_eq by lia. rewrite Hfi in Hk. injection Hk as ->.
      destruct (decide (Z.to_nat i < Z.to_nat (i + 1))%nat); [reflexivity|lia].
    + rewrite list_lookup_insert_ne by congruence. rewrite (Hfr _ _ Hk).
      destruct (decide (k < Z.to_nat i)%nat), (decide (k < Z.to_nat (i + 1))%nat);
        try reflexivity; lia.
  - f_equal. apply list_eq. intros k. rewrite list_lookup_fmap.
    destruct (frames !! k) as [f|] eqn:Hk.
    + rewrite (Hfr _ _ Hk). apply lookup_lt_Some in Hk.
      destruct (decide (k < Z.to_nat n)%nat); [reflexivity|lia].
    + apply lookup_ge_None. apply lookup_ge_None in Hk. lia.
Qed.

(** X13: a call of [arcade_move_animated_sprite] on an animation that
    holds its [frame_count] frames, with the frame index in range, the
    frame counter below [INT_MAX] and the first frame active, moves the
    displayed frame with [arcade_move_image_sprite] and then gives every
    frame of the array the position (x, y) and the velocity (vx, vy) of
    the moved frame; size, pixel buffer and active flag of the other
    frames are left as they were, and the array stays in the same block.
    The frame interval may be any [int]. *)
Theorem move_animated_syncs_frames (a : ArcadeAnimatedSprite.t)
    (gravity : F32.float) (window_height : Z) :
  Anim.well_formed a ->
  0 <= ArcadeAnimatedSprite.current_frame a < ArcadeAnimatedSprite.frame_count a ->
  Int.min_signed <= ArcadeAnimatedSprite.frame_counter a < Int.max_signed ->
  Anim.first_active a ->
  exists block frames cur cur' a',
    ArcadeAnimatedSprite.frames a = Some (block, frames) /\
    Animated.displayed a = Some cur /\
    Sprite.arcade_move_image_sprite (Some cur) gravity window_height = Some cur' /\
    Loader.arcade_move_animated_sprite (Some a) gravity window_height
    = UB.Done (Some a') /\
    ArcadeAnimatedSprite.frames a'
    = Some (block,
            Animated.placed_at cur'
              <$> <[Z.to_nat (ArcadeAnimatedSprite.current_frame a) := cur']> frames) /\
    ArcadeAnimatedSprite.frame_counter a'
    = (if ArcadeAnimatedSprite.frame_interval a
          <=? ArcadeAnimatedSprite.frame_counter a + 1
       then 0 else ArcadeAnimatedSprite.frame_counter a + 1).
Proof.
  intros Hwf Hcur Hctr Hfirst.
  destruct a as [fr count cur interval ctr].
  destruct Hwf as (Hrc & Hri & block & frames & Hfr & Hlen).
  simpl in Hrc, Hri, Hfr, Hlen, Hcur, Hctr. subst fr.
  destruct Hfirst as (b & fs & f0 & Heq & Hf0 & Hact). simpl in Heq.
  injection Heq as <- <-.
  destruct (lookup_lt_is_Some_2 frames (Z.to_nat cur)) as [c Hc]; [lia|].
  destruct (AnimFacts.move_image_active c gravity window_height) as (c' & Hmove & _).
  exists block, frames, c, c'.
  unfold Loader.arcade_move_animated_sprite, Animated.displayed.
  cbn [ArcadeAnimatedSprite.frames ArcadeAnimatedSprite.frame_count
       ArcadeAnimatedSprite.current_frame ArcadeAnimatedSprite.frame_interval
       ArcadeAnimatedSprite.frame_counter].
  rewrite (LoopFacts.array_get_done frames 0 f0) by (try lia; exact Hf0).
  cbn [UB.bind].
  destruct (Z.eqb_spec (ArcadeImageSprite.active f0) 0) as [Hoff|_]; [contradiction|].
  rewrite (LoopFacts.array_get_done frames cur c (proj1 Hcur) Hc). cbn [UB.bind].
  rewrite Hmove. rewrite LoopFacts.array_set_done by lia. cbn [UB.bind].
  rewrite (sync_loop_value count cur (<[Z.to_nat cur := c']> frames) c').
  2:{ rewrite length_insert. exact Hlen. }
  2:{ lia. }
  2:{ apply list_lookup_insert_eq. lia. }
  cbn [UB.bind].
  rewrite (AnimFacts.wrap_in_range (ctr + 1))
    by (unfold Int.in_range; unfold Int.max_signed in Hctr |- *; lia).
  destruct (interval <=? ctr + 1).
  - destruct (Z.eqb_spec count 0) as [|_]; [lia|].
    eexists. split; [reflexivity|]. split; [exact Hc|]. split; [reflexivity|].
    split; [reflexivity|]. split; reflexivity.
  - eexists. split; [reflexivity|]. split; [exact Hc|]. split; [reflexivity|].
    split; [reflexivity|]. split; reflexivity.
Qed.

Lemma move_animated_syncs_frames_witness :
  let still := ArcadeAnimatedSprite.mk
                 (Some (0%nat, replicate 3 (Body.scenario (F32.of_int 100) F32.zero None)))
                 3 1 0 7 in
  (Anim.well_formed still /\
   0 <= ArcadeAnimatedSprite.current_frame still < ArcadeAnimatedSprite.frame_count still /\
   Int.min_signed <= ArcadeAnimatedSprite.frame_counter still < Int.max_signed /\
   Anim.first_active still) /\
  exists block frames cur cur' a',
    ArcadeAnimatedSprite.frames still = Some (block, frames) /\
    Animated.displayed still = Some cur /\
    Sprite.arcade_move_image_sprite (Some cur) Body.half 600 = Some cur' /\
    Loader.arcade_move_animated_sprite (Some still) Body.half 600
    = UB.Done (Some a') /\
    ArcadeAnimatedSprite.frames a'
    = Some (block,
            Animated.placed_at cur'
              <$> <[Z.to_nat (ArcadeAnimatedSprite.current_frame still) := cur']>
                    frames) /\
    ArcadeAnimatedSprite.frame_counter a' = 0.
Proof.
  intros still.
  assert (Hwf : Anim.well_formed still).
  { unfold Anim.well_formed, Int.in_range, Int.min_signed, Int.max_signed. simpl.
    split; [lia|]. split; [lia|]. do 2 eexists. split; reflexivity. }
  assert (Hcur : 0 <= ArcadeAnimatedSprite.current_frame still
                 < ArcadeAnimatedSprite.frame_count still) by (simpl; lia).
  assert (Hctr : Int.min_signed <= ArcadeAnimatedSprite.frame_counter still
                 < Int.max_signed)
    by (unfold Int.min_signed, Int.max_signed; simpl; lia).
  assert (Hfirst : Anim.first_active still).
  { unfold Anim.first_active. do 3 eexists. split; [reflexivity|].
    split; [reflexivity|]. discriminate. }
  split; [exact (conj Hwf (conj Hcur (conj Hctr Hfirst)))|].
  exact (move_animated_syncs_frames still Body.half 600 Hwf Hcur Hctr Hfirst).
Defined.

Lemma image_collision_collide (a b : ArcadeImageSprite.t) :
  Sprite.arcade_check_image_collision (Some a) (Some b)
  = Body.collide (Body.of_image a) (Body.of_image b).
Proof. reflexivity. Qed.

(** X14: [arcade_check_animated_collision] on an animation that holds its
    frames and whose frame index is in range returns 1 exactly when the
    first frame is active and the displayed frame and the other sprite are
    both active with overlapping rectangles, and 0 otherwise.  For a null
    animation or a null sprite it returns 0, and a non-null animation with
    a null frame array makes the call undefined when the other sprite is
    not null. *)
Theorem animated_collision_spec (a : ArcadeAnimatedSprite.t)
    (other : ArcadeImageSprite.t) :
  Anim.well_formed a ->
  0 <= ArcadeAnimatedSprite.current_frame a < ArcadeAnimatedSprite.frame_count a ->
  (exists block frames f0 cur r,
     ArcadeAnimatedSprite.frames a = Some (block, frames) /\
     frames !! 0%nat = Some f0 /\
     Animated.displayed a = Some cur /\
     Animated.arcade_check_animated_collision (Some a) (Some other) = UB.Done r /\
     (r = 1 \/ r = 0) /\
     (r = 1 <-> ArcadeImageSprite.active f0 <> 0 /\
                Body.overlap (Body.of_image cur) (Body.of_image other))) /\
  Animated.arcade_check_animated_collision None (Some other) = UB.Done 0 /\
  Animated.arcade_check_animated_collision (Some a) None = UB.Done 0 /\
  (forall n i c, Animated.arcade_check_animated_collision
                   (Some (ArcadeAnimatedSprite.mk None n i c 0)) (Some other)
                 = UB.Undefined).
Proof.
  intros Hwf Hcur. split; [|split; [reflexivity|split; [reflexivity|reflexivity]]].
  destruct a as [fr count cur interval ctr].
  destruct Hwf as (Hrc & Hri & block & frames & Hfr & Hlen).
  simpl in Hrc, Hri, Hfr, Hlen, Hcur. subst fr.
  destruct (lookup_lt_is_Some_2 frames 0%nat) as [f0 Hf0]; [lia|].
  destruct (lookup_lt_is_Some_2 frames (Z.to_nat cur)) as [c Hc]; [lia|].
  exists block, frames, f0, c.
  unfold Animated.arcade_check_animated_collision, Animated.displayed.
  cbn [ArcadeAnimatedSprite.frames ArcadeAnimatedSprite.current_frame].
  rewrite (LoopFacts.array_get_done frames 0 f0) by (try lia; exact Hf0).
  cbn [UB.bind].
  rewrite (LoopFacts.array_get_done frames cur c (proj1 Hcur) Hc). cbn [UB.bind].
  rewrite image_collision_collide.
  destruct (SpriteFacts.collide_spec (Body.of_image c) (Body.of_image other))
    as [Hiff Hval].
  destruct (Z.eqb_spec (ArcadeImageSprite.active f0) 0) as [Hoff|Hon].
  - exists 0. cbn [orb]. split; [reflexivity|]. split; [exact Hf0|].
    split; [exact Hc|]. split; [reflexivity|]. split; [now right|].
    split; [discriminate|]. intros [Hne _]. contradiction.
  - destruct (Z.eqb_spec (ArcadeImageSprite.active other) 0) as [Hooff|Hoon].
    + exists 0. cbn [orb]. split; [reflexivity|]. split; [exact Hf0|].
      split; [exact Hc|]. split; [reflexivity|]. split; [now right|].
      split; [discriminate|]. intros [_ (_ & Hb & _)]. contradiction.
    + exists (Body.collide (Body.of_image c) (Body.of_image other)). cbn [orb].
      split; [reflexivity|]. split; [exact Hf0|]. split; [exact Hc|].
      split; [reflexivity|]. split; [exact Hval|].
      split; [intros Hr; split; [exact Hon|now apply Hiff]|].
      intros [_ Hov]. now apply Hiff.
Qed.

Lemma animated_collision_spec_witness :
  let other := Body.scenario (F32.of_int 120) F32.zero None in
  (Anim.well_formed Anim.bird /\
   0 <= ArcadeAnimatedSprite.current_frame Anim.bird
     < ArcadeAnimatedSprite.frame_count Anim.bird) /\
  Animated.arcade_check_animated_collision (Some Anim.bird) (Some other) = UB.Done 1 /\
  Animated.arcade_check_animated_collision (Some Anim.bird) None = UB.Done 0.
Proof.
  intros other.
  assert (Hinv : 0 <= ArcadeAnimatedSprite.current_frame Anim.bird
                 < ArcadeAnimatedSprite.frame_count Anim.bird) by (simpl; lia).
  split; [exact (conj AnimFacts.bird_well_formed Hinv)|].
  destruct (animated_collision_spec Anim.bird other AnimFacts.bird_well_formed Hinv)
    as (_ & _ & Hnull & _).
  split; [vm_compute; reflexivity|exact Hnull].
Defined.

End AnimatedFacts.

(** ** Rendering *)

Module RenderFacts.

Lemma index_inj (W px py x y : Z) :
  0 <= px < W -> 0 <= x < W -> py * W + px = y * W + x -> px = x /\ py = y.
Proof. intros Hpx Hx Heq. assert (py = y) by nia. subst. lia. Qed.

Lemma index_lt (W H px py : Z) :
  0 <= px < W -> 0 <= py < H -> 0 <= py * W + px < W * H.
Proof. intros Hpx Hpy. nia. Qed.

Section RectLoop.

Variables (W H x_start y_start nx ny : Z).
Variable cell : Z -> Z -> option Z.
Variable body : Z -> Z -> list Z -> UB.outcome (list Z).
Variable old : list Z.

Hypothesis Hlen : Z.of_nat (length old) = W * H.
Hypothesis Hnx : x_start + nx <= W.
Hypothesis Hny : y_start + ny <= H.
Hypothesis Hbody :
  forall sx sy p, 0 <= sx < nx -> 0 <= sy < ny ->
                  0 <= x_start + sx -> 0 <= y_start + sy ->
                  length p = length old ->
                  body sx sy p
                  = UB.Done (match cell sx sy with
                             | Some c => <[Z.to_nat ((y_start + sy) * W + (x_start + sx)) := c]> p
                             | None => p
                             end).

Local Abbreviation rect_new := (Render.rect_new W x_start y_start nx ny cell old).
Local Abbreviation rect_done := (Render.rect_done W H x_start y_start nx ny cell old).

Lemma rect_new_outside (px py : Z) :
  Render.spans x_start nx px && Render.spans y_start ny py = false ->
  rect_new px py = old !! Z.to_nat (py * W + px).
Proof. unfold Render.rect_new. now intros ->. Qed.

Lemma rect_done_ext (p : list Z) (done done' : Z -> Z -> bool) :
  rect_done p done ->
  (forall px py, 0 <= px < W -> 0 <= py < H -> done px py <> done' px py ->
                 Render.spans x_start nx px && Render.spans y_start ny py = false) ->
  rect_done p done'.
Proof.
  intros [Hl Hp] Hd. split; [exact Hl|]. intros px py Hpx Hpy.
  rewrite (Hp px py Hpx Hpy).
  destruct (done px py) eqn:Ha, (done' px py) eqn:Hb; try reflexivity.
  - apply rect_new_outside, Hd; try assumption. congruence.
  - symmetry. apply rect_new_outside, Hd; try assumption. congruence.
Qed.

Lemma rect_row (sy : Z) (p : list Z) :
  0 <= sy < ny -> 0 <= y_start + sy ->
  rect_done p (fun _ py => py <? y_start + sy) ->
  exists p',
    Loop.for_loop_ub nx (fun sx p =>
      if x_start + sx <? 0 then UB.Done p else body sx sy p) p = UB.Done p' /\
    rect_done p' (fun _ py => py <? y_start + (sy + 1)).
Proof.
  intros Hsy Hy Hp.
  destruct (Z.le_gt_cases 0 nx) as [Hnx0|Hneg].
  2:{ exists p. split.
      - unfold Loop.for_loop_ub. replace (Z.to_nat nx) with 0%nat by lia. reflexivity.
      - apply (rect_done_ext p _ _ Hp). intros px py Hpx Hpy _.
        unfold Render.spans. destruct (Z.leb_spec x_start px), (Z.ltb_spec px (x_start + nx));
          simpl; try reflexivity. lia. }
  destruct (LoopFacts.for_loop_ub_ind
    (fun k q => rect_done q (fun px py => (py <? y_start + sy)
                                          || ((py =? y_start + sy) && (px <? x_start + k))))
    nx (fun sx p => if x_start + sx <? 0 then UB.Done p else body sx sy p) p Hnx0)
    as (p' & Hrun & Hp').
  - apply (rect_done_ext p _ _ Hp). intros px py Hpx Hpy Hne.
    unfold Render.spans.
    destruct (Z.ltb_spec py (y_start + sy)), (Z.eqb_spec py (y_start + sy)),
      (Z.ltb_spec px (x_start + 0)), (Z.leb_spec x_start px); simpl in *;
      try reflexivity; try congruence; lia.
  - intros k q Hk Hq.
    destruct (Z.ltb_spec (x_start + k) 0) as [Hxneg|Hxpos].
    + exists q. split; [reflexivity|].
      apply (rect_done_ext q _ _ Hq). intros px py Hpx Hpy Hne.
      destruct (Z.ltb_spec py (y_start + sy)), (Z.eqb_spec py (y_start + sy)),
        (Z.ltb_spec px (x_start + k)), (Z.ltb_spec px (x_start + (k + 1)));
        simpl in *; try congruence; lia.
    + destruct Hq as [Hl Hq].
      rewrite (Hbody k sy q Hk Hsy Hxpos Hy Hl).
      eexists. split; [reflexivity|].
      assert (Hcell : rect_new (x_start + k) (y_start + sy)
                      = match cell k sy with
                        | Some c => Some c
                        | None => old !! Z.to_nat ((y_start + sy) * W + (x_start + k))
                        end).
      { unfold Render.rect_new, Render.spans.
        destruct (Z.leb_spec x_start (x_start + k)); [|lia].
        destruct (Z.ltb_spec (x_start + k) (x_start + nx)); [|lia].
        destruct (Z.leb_spec y_start (y_start + sy)); [|lia].
        destruct (Z.ltb_spec (y_start + sy) (y_start + ny)); [|lia].
        simpl. replace (x_start + k - x_start) with k by lia.
        replace (y_start + sy - y_start) with sy by lia. reflexivity. }
      assert (Hq0 : q !! Z.to_nat ((y_start + sy) * W + (x_start + k))
                    = old !! Z.to_nat ((y_start + sy) * W + (x_start + k))).
      { rewrite Hq by lia.
        destruct (Z.ltb_spec (y_start + sy) (y_start + sy)); [lia|].
        destruct (Z.ltb_spec (x_start + k) (x_start + k)); [lia|].
        now rewrite andb_false_r. }
      split; [destruct (cell k sy); [rewrite length_insert|]; exact Hl|].
      intros px py Hpx Hpy.
      destruct (Z.eq_dec (py * W + px) ((y_start + sy) * W + (x_start + k))) as [Heq|Hne].
      * destruct (index_inj W px py (x_start + k) (y_start + sy)) as [-> ->];
          [lia|lia|exact Heq|].
        destruct (Z.ltb_spec (y_start + sy) (y_start + sy)); [lia|].
        rewrite Z.eqb_refl.
        destruct (Z.ltb_spec (x_start + k) (x_start + (k + 1))); [|lia].
        simpl. rewrite Hcell.
        destruct (cell k sy) as [c|]; [|exact Hq0].
        apply list_lookup_insert_eq.
        pose proof (index_lt W H (x_start + k) (y_start + sy)). lia.
      * assert (Hsame : (match cell k sy with
                         | Some c => <[Z.to_nat ((y_start + sy) * W + (x_start + k)) := c]> q
                         | None => q
                         end) !! Z.to_nat (py * W + px) = q !! Z.to_nat (py * W + px)).
        { destruct (cell k sy); [|reflexivity].
          apply list_lookup_insert_ne.
          pose proof (index_lt W H px py Hpx Hpy).
          pose proof (index_lt W H (x_start + k) (y_start + sy)). lia. }
        rewrite Hsame, (Hq px py Hpx Hpy).
        assert (Hxy : ~ (px = x_start + k /\ py = y_start + sy))
          by (intros [-> ->]; contradiction).
        destruct (Z.ltb_spec py (y_start + sy)), (Z.eqb_spec py (y_start + sy)),
          (Z.ltb_spec px (x_start + k)), (Z.ltb_spec px (x_start + (k + 1)));
          simpl; try reflexivity; lia.
  - exists p'. split; [exact Hrun|].
    apply (rect_done_ext p' _ _ Hp'). intros px py Hpx Hpy Hne.
    unfold Render.spans.
    destruct (Z.ltb_spec py (y_start + sy)), (Z.eqb_spec py (y_start + sy)),
      (Z.ltb_spec px (x_start + nx)), (Z.ltb_spec py (y_start + (sy + 1))),
      (Z.leb_spec x_start px); simpl in *; try reflexivity; try congruence; lia.
Qed.

(** The two nested loops of [draw_sprite] are defined and set every pixel
    of the window to its final content. *)
Lemma rect_loop :
  exists p',
    Loop.for_loop_ub ny (fun sy p =>
      if y_start + sy <? 0 then UB.Done p else
      Loop.for_loop_ub nx (fun sx p =>
        if x_start + sx <? 0 then UB.Done p else body sx sy p) p) old = UB.Done p' /\
    length p' = length old /\
    forall px py, 0 <= px < W -> 0 <= py < H ->
                  p' !! Z.to_nat (py * W + px) = rect_new px py.
Proof.
  assert (H0 : rect_done old (fun _ _ => false)) by (split; [reflexivity|]; auto).
  destruct (Z.le_gt_cases 0 ny) as [Hny0|Hneg].
  2:{ exists old. split.
      - unfold Loop.for_loop_ub. replace (Z.to_nat ny) with 0%nat by lia. reflexivity.
      - destruct (rect_done_ext old _ (fun _ _ => true) H0) as [Hl Hp]; [|now split].
        intros px py Hpx Hpy _. unfold Render.spans.
        destruct (Z.leb_spec y_start py), (Z.ltb_spec py (y_start + ny));
          simpl; rewrite ?andb_false_r; try reflexivity. lia. }
  destruct (LoopFacts.for_loop_ub_ind
    (fun j q => rect_done q (fun _ py => py <? y_start + j))
    ny (fun sy p =>
          if y_start + sy <? 0 then UB.Done p else
          Loop.for_loop_ub nx (fun sx p =>
            if x_start + sx <? 0 then UB.Done p else body sx sy p) p) old Hny0)
    as (p' & Hrun & Hp').
  - apply (rect_done_ext old _ _ H0). intros px py Hpx Hpy Hne.
    unfold Render.spans.
    destruct (Z.ltb_spec py (y_start + 0)), (Z.leb_spec y_start py); simpl in *;
      rewrite ?andb_false_r; try reflexivity; try congruence; lia.
  - intros j q Hj Hq.
    destruct (Z.ltb_spec (y_start + j) 0) as [Hyneg|Hypos].
    + exists q. split; [reflexivity|].
      apply (rect_done_ext q _ _ Hq). intros px py Hpx Hpy Hne.
      destruct (Z.ltb_spec py (y_start + j)), (Z.ltb_spec py (y_start + (j + 1)));
        simpl in *; try congruence; lia.
    + apply rect_row; assumption.
  - exists p'. split; [exact Hrun|].
    destruct (rect_done_ext p' _ (fun _ _ => true) Hp') as [Hl Hp]; [|now split].
    intros px py Hpx Hpy Hne. unfold Render.spans.
    destruct (Z.ltb_spec py (y_start + ny)), (Z.leb_spec y_start py); simpl in *;
      rewrite ?andb_false_r; try reflexivity; try congruence; lia.
Qed.

End RectLoop.

Lemma int_add_done (a b : Z) :
  Int.in_range (a + b) -> Render.int_add a b = UB.Done (a + b).
Proof.
  unfold Int.in_range, Render.int_add. intros [Hlo Hhi].
  destruct (Z.leb_spec Int.min_signed (a + b)); [|lia].
  destruct (Z.leb_spec (a + b) Int.max_signed); [|lia]. reflexivity.
Qed.

Lemma int_mul_done (a b : Z) :
  Int.in_range (a * b) -> Render.int_mul a b = UB.Done (a * b).
Proof.
  unfold Int.in_range, Render.int_mul. intros [Hlo Hhi].
  apply Z.leb_le in Hlo, Hhi. now rewrite Hlo, Hhi.
Qed.

(** Inside an array of [W * H] cells, a number that is an [int], the
    index of a cell is computed without overflow. *)
Lemma index_done (W H x y : Z) :
  0 <= x < W -> 0 <= y < H -> Int.in_range (W * H) ->
  Render.index y W x = UB.Done (y * W + x).
Proof.
  intros Hx Hy Hr. pose proof (index_lt W H x y Hx Hy) as Hi.
  assert (Hrow : 0 <= y * W) by nia.
  unfold Render.index.
  rewrite int_mul_done by (unfold Int.in_range, Int.min_signed in *; lia).
  cbn [UB.bind].
  apply int_add_done. unfold Int.in_range, Int.min_signed in *. lia.
Qed.

Lemma spans_window (start len lim p : Z) :
  p < lim ->
  Render.spans start (Z.min (start + len) lim - start) p = Render.spans start len p.
Proof.
  intros Hp. unfold Render.spans.
  destruct (Z.leb_spec start p), (Z.ltb_spec p (start + (Z.min (start + len) lim - start))),
    (Z.ltb_spec p (start + len)); simpl; try reflexivity; lia.
Qed.

Lemma spans_window_image (start len lim n p : Z) :
  p < lim ->
  Render.spans start (Z.min (Z.min (start + len) lim - start) n) p
  = Render.spans start len p && (p - start <? n).
Proof.
  intros Hp. unfold Render.spans.
  destruct (Z.leb_spec start p),
    (Z.ltb_spec p (start + Z.min (Z.min (start + len) lim - start) n)),
    (Z.ltb_spec p (start + len)), (Z.ltb_spec (p - start) n); simpl; try reflexivity; lia.
Qed.

(** Where the cast is defined, [F32.to_int] is the cast. *)
Lemma cast_to_int (f : F32.float) (z : Z) :
  Cast.int_of_float f = UB.Done z -> F32.to_int f = z.
Proof.
  unfold Cast.int_of_float, Cast.trunc, F32.to_int.
  destruct f as [s|s| |s m e]; try discriminate.
  - intros H. injection H as <-. reflexivity.
  - destruct (Z.leb_spec Int.min_signed
                (cond_Zopp s match e with
                             | 0 => Z.pos m
                             | Z.pos _ => Z.pos m * 2 ^ e
                             | Z.neg _ => Z.pos m / 2 ^ (- e)
                             end)) as [Hlo|]; [|discriminate].
    destruct (Z.leb_spec (cond_Zopp s match e with
                                      | 0 => Z.pos m
                                      | Z.pos _ => Z.pos m * 2 ^ e
                                      | Z.neg _ => Z.pos m / 2 ^ (- e)
                                      end) Int.max_signed) as [Hhi|]; [|discriminate].
    cbn [andb]. intros H. injection H as <-.
    apply AnimFacts.wrap_in_range. split; assumption.
Qed.

(** The colour branch, pixel by pixel. *)
Lemma draw_color_spec (s : ArcadeSprite.t) (st : Render.State) :
  Render.well_formed st ->
  Render.geometry (ArcadeSprite.x s) (ArcadeSprite.y s)
    (ArcadeSprite.width s) (ArcadeSprite.height s) ->
  exists p',
    Render.draw_color s st = UB.Done (Render.set_pixels p' st) /\
    length p' = length (Render.pixels st) /\
    forall px py, 0 <= px < Render.width st -> 0 <= py < Render.height st ->
      p' !! Z.to_nat (py * Render.width st + px)
      = if Render.spans (F32.to_int (ArcadeSprite.x s))
                        (F32.to_int (ArcadeSprite.width s)) px
           && Render.spans (F32.to_int (ArcadeSprite.y s))
                           (F32.to_int (ArcadeSprite.height s)) py
        then Some (ArcadeSprite.color s)
        else Render.pixels st !! Z.to_nat (py * Render.width st + px).
Proof.
  intros (HW & HH & Hrange & Hlen)
    (x_start & y_start & w & h & Hcx & Hcy & Hcw & Hch & Hxr & Hyr).
  unfold Render.draw_color.
  rewrite Hcx, Hcy, Hcw, Hch. cbn [UB.bind].
  rewrite (int_add_done _ _ Hxr). cbn [UB.bind].
  rewrite (int_add_done _ _ Hyr). cbn [UB.bind].
  rewrite (cast_to_int _ _ Hcx), (cast_to_int _ _ Hcy), (cast_to_int _ _ Hcw),
    (cast_to_int _ _ Hch).
  destruct (rect_loop (Render.width st) (Render.height st) x_start y_start
              (Z.min (x_start + w) (Render.width st) - x_start)
              (Z.min (y_start + h) (Render.height st) - y_start)
              (fun _ _ => Some (ArcadeSprite.color s))
              (fun dx dy p =>
                 let? i := Render.index (y_start + dy) (Render.width st) (x_start + dx) in
                 UB.array_set p i (ArcadeSprite.color s))
              (Render.pixels st) Hlen ltac:(lia) ltac:(lia))
    as (p' & Hrun & Hl & Hp).
  - intros sx sy p Hsx Hsy Hx Hy Hlp.
    rewrite (index_done (Render.width st) (Render.height st)) by (try exact Hrange; lia).
    cbn [UB.bind]. apply LoopFacts.array_set_done.
    pose proof (index_lt (Render.width st) (Render.height st) (x_start + sx)
                  (y_start + sy)). lia.
  - cbv beta in Hrun. rewrite Hrun. cbn [UB.bind]. exists p'.
    split; [reflexivity|]. split; [exact Hl|].
    intros px py Hpx Hpy. rewrite (Hp px py Hpx Hpy). unfold Render.rect_new.
    rewrite (spans_window x_start w (Render.width st) px) by lia.
    rewrite (spans_window y_start h (Render.height st) py) by lia.
    now destruct (Render.spans x_start w px && Render.spans y_start h py).
Qed.

(** The image branch, pixel by pixel. *)
Lemma draw_image_spec (s : ArcadeImageSprite.t) (data : list Z) (st : Render.State) :
  Render.well_formed st ->
  Render.geometry (ArcadeImageSprite.x s) (ArcadeImageSprite.y s)
    (ArcadeImageSprite.width s) (ArcadeImageSprite.height s) ->
  (0 < ArcadeImageSprite.image_width s -> 0 < ArcadeImageSprite.image_height s ->
   Int.in_range (ArcadeImageSprite.image_width s * ArcadeImageSprite.image_height s) /\
   ArcadeImageSprite.image_width s * ArcadeImageSprite.image_height s
   <= Z.of_nat (length data)) ->
  exists p',
    Render.draw_image s data st = UB.Done (Render.set_pixels p' st) /\
    length p' = length (Render.pixels st) /\
    forall px py, 0 <= px < Render.width st -> 0 <= py < Render.height st ->
      p' !! Z.to_nat (py * Render.width st + px)
      = let sx := px - F32.to_int (ArcadeImageSprite.x s) in
        let sy := py - F32.to_int (ArcadeImageSprite.y s) in
        let pixel := Loop.load data (sy * ArcadeImageSprite.image_width s + sx) in
        if Render.spans (F32.to_int (ArcadeImageSprite.x s))
                        (F32.to_int (ArcadeImageSprite.width s)) px
           && Render.spans (F32.to_int (ArcadeImageSprite.y s))
                           (F32.to_int (ArcadeImageSprite.height s)) py
           && (sx <? ArcadeImageSprite.image_width s)
           && (sy <? ArcadeImageSprite.image_height s)
           && (0 <? Z.shiftr pixel 24)
        then Some pixel
        else Render.pixels st !! Z.to_nat (py * Render.width st + px).
Proof.
  intros (HW & HH & Hrange & Hlen)
    (x_start & y_start & w & h & Hcx & Hcy & Hcw & Hch & Hxr & Hyr) Hdata.
  unfold Render.draw_image.
  rewrite Hcx, Hcy, Hcw, Hch. cbn [UB.bind].
  rewrite (int_add_done _ _ Hxr). cbn [UB.bind].
  rewrite (int_add_done _ _ Hyr). cbn [UB.bind].
  rewrite (cast_to_int _ _ Hcx), (cast_to_int _ _ Hcy), (cast_to_int _ _ Hcw),
    (cast_to_int _ _ Hch).
  set (iw := ArcadeImageSprite.image_width s) in *.
  set (ih := ArcadeImageSprite.image_height s) in *.
  destruct (rect_loop (Render.width st) (Render.height st) x_start y_start
              (Z.min (Z.min (x_start + w) (Render.width st) - x_start) iw)
              (Z.min (Z.min (y_start + h) (Render.height st) - y_start) ih)
              (fun sx sy => let pixel := Loop.load data (sy * iw + sx) in
                            if 0 <? Z.shiftr pixel 24 then Some pixel else None)
              (fun sx sy p =>
                 let? j := Render.index sy iw sx in
                 let? pixel := UB.array_get data j in
                 if 0 <? Z.shiftr pixel 24
                 then
                   let? i := Render.index (y_start + sy) (Render.width st)
                               (x_start + sx) in
                   UB.array_set p i pixel
                 else UB.Done p)
              (Render.pixels st) Hlen ltac:(lia) ltac:(lia))
    as (p' & Hrun & Hl & Hp).
  - intros sx sy p Hsx Hsy Hx Hy Hlp.
    assert (Hidx : 0 <= sy * iw + sx < iw * ih) by (apply index_lt; lia).
    destruct (Hdata ltac:(lia) ltac:(lia)) as [Harea Hfit].
    rewrite (index_done iw ih sx sy) by (try exact Harea; lia). cbn [UB.bind].
    destruct (lookup_lt_is_Some_2 data (Z.to_nat (sy * iw + sx))) as [v Hv]; [lia|].
    rewrite (LoopFacts.array_get_done data _ v (proj1 Hidx) Hv). cbn [UB.bind].
    unfold Loop.load. rewrite (list_lookup_total_correct _ _ _ Hv). cbv zeta.
    destruct (0 <? Z.shiftr v 24); [|reflexivity].
    rewrite (index_done (Render.width st) (Render.height st)) by (try exact Hrange; lia).
    cbn [UB.bind]. apply LoopFacts.array_set_done.
    pose proof (index_lt (Render.width st) (Render.height st) (x_start + sx)
                  (y_start + sy)). lia.
  - cbv beta in Hrun. rewrite Hrun. cbn [UB.bind]. exists p'.
    split; [reflexivity|]. split; [exact Hl|].
    intros px py Hpx Hpy. rewrite (Hp px py Hpx Hpy). unfold Render.rect_new.
    rewrite (spans_window_image x_start w (Render.width st) iw px) by lia.
    rewrite (spans_window_image y_start h (Render.height st) ih py) by lia.
    cbv zeta.
    destruct (Render.spans x_start w px), (Render.spans y_start h py),
      (px - x_start <? iw), (py - y_start <? ih); cbn [andb]; try reflexivity.
    destruct (0 <? Z.shiftr (Loop.load data ((py - y_start) * iw + (px - x_start))) 24);
      reflexivity.
Qed.

(** [draw_sprite] on a drawable sprite, pixel by pixel. *)
Lemma draw_sprite_pixels (u : Group.ArcadeAnySprite) (type : Z) (st : Render.State) :
  Render.well_formed st -> Render.drawable u type ->
  exists st',
    Render.draw_sprite (Some u) type st = UB.Done st' /\
    Render.well_formed st' /\
    Render.width st' = Render.width st /\
    Render.height st' = Render.height st /\
    Render.bg_color st' = Render.bg_color st /\
    forall px py, 0 <= px < Render.width st -> 0 <= py < Render.height st ->
      Render.at_xy st' px py
      = match Render.paint u type px py with
        | Some c => Some c
        | None => Render.at_xy st px py
        end.
Proof.
  intros Hwf Hdraw.
  assert (Hsame : forall u' t', (forall px py, Render.paint u' t' px py = None) ->
            Render.well_formed st /\
            Render.width st = Render.width st /\ Render.height st = Render.height st /\
            Render.bg_color st = Render.bg_color st /\
            forall px py, 0 <= px < Render.width st -> 0 <= py < Render.height st ->
              Render.at_xy st px py
              = match Render.paint u' t' px py with
                | Some c => Some c
                | None => Render.at_xy st px py
                end).
  { intros u' t' Hnone. split; [exact Hwf|]. do 3 (split; [reflexivity|]).
    intros px py _ _. now rewrite Hnone. }
  assert (Hset : forall p', length p' = length (Render.pixels st) ->
            Render.well_formed (Render.set_pixels p' st)).
  { intros p' Hl. destruct Hwf as (HW & HH & Hr & Hlen).
    unfold Render.well_formed. cbn [Render.set_pixels Render.pixels Render.width
                                    Render.height]. rewrite Hl. auto. }
  unfold Render.draw_sprite. destruct u as [s|s].
  - destruct Hdraw as (Ht & Hgeo).
    destruct (Z.eqb_spec type Group.SPRITE_COLOR) as [->|Hne].
    + destruct (Z.eqb_spec (ArcadeSprite.active s) 0) as [Hoff|Hon].
      * exists st. split; [reflexivity|]. apply (Hsame (Group.sprite s)).
        intros px py. unfold Render.paint. rewrite Hoff. reflexivity.
      * destruct (draw_color_spec s st Hwf (Hgeo eq_refl Hon)) as (p' & -> & Hl & Hp).
        eexists. split; [reflexivity|]. split; [exact (Hset p' Hl)|].
        do 3 (split; [reflexivity|]). intros px py Hpx Hpy.
        unfold Render.at_xy, Render.paint.
        cbn [Render.set_pixels Render.pixels Render.width].
        rewrite (Hp px py Hpx Hpy).
        destruct (Z.eqb_spec (ArcadeSprite.active s) 0) as [|_]; [contradiction|].
        cbn [negb andb Z.eqb Group.SPRITE_COLOR].
        now destruct (Render.spans _ _ px && Render.spans _ _ py).
    + destruct (Z.eqb_spec type Group.SPRITE_IMAGE) as [|_]; [contradiction|].
      exists st. split; [reflexivity|]. apply (Hsame (Group.sprite s)).
      intros px py. unfold Render.paint.
      destruct (Z.eqb_spec type Group.SPRITE_COLOR); [contradiction|reflexivity].
  - destruct Hdraw as (Ht & Hgeo).
    destruct (Z.eqb_spec type Group.SPRITE_COLOR) as [|_]; [contradiction|].
    destruct (Z.eqb_spec type Group.SPRITE_IMAGE) as [->|Hne].
    + destruct (Z.eqb_spec (ArcadeImageSprite.active s) 0) as [Hoff|Hon].
      * exists st. split; [reflexivity|]. apply (Hsame (Group.image_sprite s)).
        intros px py. unfold Render.paint. rewrite Hoff.
        now destruct (ArcadeImageSprite.pixels s) as [[b d]|].
      * destruct (ArcadeImageSprite.pixels s) as [[b data]|] eqn:Hpx.
        2:{ exists st. split; [reflexivity|]. apply (Hsame (Group.image_sprite s)).
            intros px py. unfold Render.paint. now rewrite Hpx. }
        destruct (Hgeo eq_refl Hon b data eq_refl) as [Hrect Hdata].
        destruct (draw_image_spec s data st Hwf Hrect Hdata) as (p' & -> & Hl & Hp).
        eexists. split; [reflexivity|]. split; [exact (Hset p' Hl)|].
        do 3 (split; [reflexivity|]). intros px py Hpx' Hpy.
        unfold Render.at_xy, Render.paint.
        cbn [Render.set_pixels Render.pixels Render.width].
        rewrite (Hp px py Hpx' Hpy), Hpx. cbv zeta.
        destruct (Z.eqb_spec (ArcadeImageSprite.active s) 0) as [|_]; [contradiction|].
        cbn [negb andb Z.eqb Group.SPRITE_IMAGE].
        destruct (Render.spans _ _ px), (Render.spans _ _ py),
          (px - F32.to_int (ArcadeImageSprite.x s) <? ArcadeImageSprite.image_width s),
          (py - F32.to_int (ArcadeImageSprite.y s) <? ArcadeImageSprite.image_height s);
          cbn [andb]; try reflexivity.
        now destruct (0 <? Z.shiftr _ 24).
    + exists st. split; [reflexivity|]. apply (Hsame (Group.image_sprite s)).
      intros px py. unfold Render.paint.
      destruct (ArcadeImageSprite.pixels s) as [[b d]|]; [|reflexivity].
      destruct (Z.eqb_spec type Group.SPRITE_IMAGE); [contradiction|reflexivity].
Qed.

(** X15: [draw_sprite] on a drawable sprite (one that is stored in the
    union member its type names and whose casts to [int] are defined) is
    defined wherever in the range of [int] the sprite lies, also partly or
    wholly outside the window, and it changes the frame buffer exactly at
    the pixels that the sprite paints: a window pixel inside the
    rectangle of an active colour sprite gets the sprite's colour; a
    window pixel inside the rectangle of an active image sprite gets the
    image pixel at its offset from the corner when that pixel exists and
    its alpha byte is not 0; every other pixel, and every pixel when the
    sprite is inactive, has no pixel buffer or has a type other than the
    two known ones, keeps its content.  The window size and the
    background colour are untouched.  A sprite whose position is not a
    number or lies outside the range of [int] is not drawable: for an
    active colour sprite at x = 2^32 the call is undefined. *)
Theorem draw_sprite_spec (u : Group.ArcadeAnySprite) (type : Z) (st : Render.State) :
  Render.well_formed st -> Render.drawable u type ->
  (exists st',
     Render.draw_sprite (Some u) type st = UB.Done st' /\
     Render.well_formed st' /\
     Render.width st' = Render.width st /\
     Render.height st' = Render.height st /\
     Render.bg_color st' = Render.bg_color st /\
     forall px py, 0 <= px < Render.width st -> 0 <= py < Render.height st ->
       Render.at_xy st' px py
       = match Render.paint u type px py with
         | Some c => Some c
         | None => Render.at_xy st px py
         end) /\
  Render.draw_sprite
    (Some (Group.sprite (ArcadeSprite.mk (F32.lit 1 32) F32.zero (F32.of_int 2)
                           (F32.of_int 1) F32.zero F32.zero 65280 1)))
    Group.SPRITE_COLOR st
  = UB.Undefined.
Proof.
  intros Hwf Hdraw. split; [exact (draw_sprite_pixels u type st Hwf Hdraw)|].
  reflexivity.
Qed.

Lemma draw_sprite_spec_witness :
  let st := Render.mk (replicate 12 0) 4 3 0 in
  let u := Group.sprite (ArcadeSprite.mk (F32.of_int 2) (F32.of_int 1) (F32.of_int 5)
                           (F32.of_int 1) F32.zero F32.zero 65280 1) in
  (Render.well_formed st /\ Render.drawable u Group.SPRITE_COLOR) /\
  exists st',
    Render.draw_sprite (Some u) Group.SPRITE_COLOR st = UB.Done st' /\
    Render.at_xy st' 3 1 = Some 65280 /\ Render.at_xy st' 1 1 = Some 0.
Proof.
  intros st u.
  assert (Hwf : Render.well_formed st).
  { unfold Render.well_formed, Int.in_range. vm_compute. intuition discriminate. }
  assert (Hd : Render.drawable u Group.SPRITE_COLOR).
  { split; [discriminate|]. intros _ _. exists 2, 1, 5, 1.
    unfold Int.in_range. vm_compute. intuition discriminate. }
  split; [exact (conj Hwf Hd)|].
  destruct (draw_sprite_spec u Group.SPRITE_COLOR st Hwf Hd)
    as ((st' & Hrun & _ & _ & _ & _ & Hpix) & _).
  exists st'. split; [exact Hrun|]. split.
  - rewrite (Hpix 3 1) by (simpl; lia). reflexivity.
  - rewrite (Hpix 1 1) by (simpl; lia). reflexivity.
Defined.

(** The clearing loop of [arcade_render_scene]. *)
Lemma clear_loop (n bg : Z) (old : list Z) :
  0 <= n -> Z.of_nat (length old) = n ->
  exists p',
    Loop.for_loop_ub n (fun i pixels => UB.array_set pixels i bg) old = UB.Done p' /\
    length p' = length old /\
    forall k, (k < length old)%nat -> p' !! k = Some bg.
Proof.
  intros Hn Hlen.
  destruct (LoopFacts.for_loop_ub_ind
    (fun j (p : list Z) => length p = length old /\
                           forall k, (k < Z.to_nat j)%nat -> p !! k = Some bg)
    n (fun i pixels => UB.array_set pixels i bg) old Hn) as (p' & Hrun & Hl & Hp).
  - split; [reflexivity|]. intros k Hk. lia.
  - intros i p Hi [Hl Hp]. rewrite LoopFacts.array_set_done by lia.
    eexists. split; [reflexivity|]. split; [now rewrite length_insert|].
    intros k Hk. destruct (decide (k = Z.to_nat i)) as [->|Hne].
    + apply list_lookup_insert_eq. lia.
    + rewrite list_lookup_insert_ne by congruence. apply Hp. lia.
  - exists p'. split; [exact Hrun|]. split; [exact Hl|].
    intros k Hk. apply Hp. lia.
Qed.

Lemma composite_snoc (scene : list (Group.ArcadeAnySprite * Z))
    (e : Group.ArcadeAnySprite * Z) (bg px py : Z) :
  Render.composite (scene ++ [e]) bg px py
  = default (Render.composite scene bg px py) (Render.paint (fst e) (snd e) px py).
Proof. unfold Render.composite. now rewrite fold_left_app. Qed.

(** The frame that [arcade_render_scene] leaves, pixel by pixel. *)
Lemma render_scene_pixels (sprites : list Group.ArcadeAnySprite) (count : Z)
    (types : list Z) (st : Render.State) :
  Render.well_formed st ->
  0 <= count <= Z.of_nat (length sprites) ->
  count <= Z.of_nat (length types) ->
  Forall (fun e => Render.drawable (fst e) (snd e)) (Render.scene sprites count types) ->
  exists st',
    Render.arcade_render_scene sprites count types st = UB.Done st' /\
    Render.well_formed st' /\
    Render.width st' = Render.width st /\
    Render.height st' = Render.height st /\
    Render.bg_color st' = Render.bg_color st /\
    forall px py, 0 <= px < Render.width st -> 0 <= py < Render.height st ->
      Render.at_xy st' px py
      = Some (Render.composite (Render.scene sprites count types)
                (Render.bg_color st) px py).
Proof.
  intros Hwf Hcount Htypes Hall. pose proof Hwf as (HW & HH & Hr & Hlen).
  unfold Render.arcade_render_scene.
  rewrite (int_mul_done _ _ Hr). cbn [UB.bind].
  destruct (clear_loop (Render.width st * Render.height st) (Render.bg_color st)
              (Render.pixels st) ltac:(nia) Hlen) as (p0 & -> & Hl0 & Hp0).
  cbn [UB.bind].
  destruct (LoopFacts.for_loop_ub_ind
    (fun i (s : Render.State) =>
       Render.well_formed s /\
       Render.width s = Render.width st /\ Render.height s = Render.height st /\
       Render.bg_color s = Render.bg_color st /\
       forall px py, 0 <= px < Render.width st -> 0 <= py < Render.height st ->
         Render.at_xy s px py
         = Some (Render.composite (Render.scene sprites i types)
                   (Render.bg_color st) px py))
    count
    (fun i st => let? s := UB.array_get sprites i in
                 let? t := UB.array_get types i in
                 Render.draw_sprite (Some s) t st)
    (Render.set_pixels p0 st) (proj1 Hcount)) as (st' & Hrun & Hst').
  - split.
    { unfold Render.well_formed.
      cbn [Render.set_pixels Render.pixels Render.width Render.height].
      rewrite Hl0. auto. }
    do 3 (split; [reflexivity|]). intros px py Hpx Hpy.
    unfold Render.at_xy. cbn [Render.set_pixels Render.pixels Render.width].
    rewrite Hp0; [reflexivity|].
    pose proof (index_lt (Render.width st) (Render.height st) px py Hpx Hpy). lia.
  - intros i s Hi (Hswf & HsW & HsH & Hsbg & Hspix).
    destruct (lookup_lt_is_Some_2 sprites (Z.to_nat i)) as [u Hu]; [lia|].
    destruct (lookup_lt_is_Some_2 types (Z.to_nat i)) as [t Ht]; [lia|].
    rewrite (LoopFacts.array_get_done sprites i u (proj1 Hi) Hu). cbn [UB.bind].
    rewrite (LoopFacts.array_get_done types i t (proj1 Hi) Ht). cbn [UB.bind].
    assert (Hzip : zip sprites types !! Z.to_nat i = Some (u, t)).
    { apply lookup_zip_Some. split; assumption. }
    assert (Hd : Render.drawable u t).
    { apply (proj1 (Forall_lookup _ _) Hall (Z.to_nat i) (u, t)).
      unfold Render.scene. rewrite lookup_take_lt by lia. exact Hzip. }
    destruct (draw_sprite_pixels u t s Hswf Hd)
      as (s' & -> & Hwf' & HW' & HH' & Hbg' & Hpix').
    exists s'. split; [reflexivity|]. split; [exact Hwf'|].
    split; [congruence|]. split; [congruence|]. split; [congruence|].
    intros px py Hpx Hpy. rewrite Hpix' by lia. rewrite Hspix by lia.
    unfold Render.scene. replace (Z.to_nat (i + 1)) with (S (Z.to_nat i)) by lia.
    rewrite (take_S_r _ _ _ Hzip), composite_snoc. cbn [fst snd].
    now destruct (Render.paint u t px py).
  - exists st'. split; [exact Hrun|]. exact Hst'.
Qed.

(** X16: [arcade_render_scene] on sprites that are drawable (each stored
    in the union member its type names, with the casts of its position
    and size to [int] defined) is defined, and the frame it leaves is fixed by the scene alone, whatever the buffer held
    before: every pixel of the window has the colour of the last of the
    first [count] sprites that paints it, and the background colour when
    none does.  So later sprites cover earlier ones, transparent image
    pixels let what lies beneath show through, and no trace of the
    previous frame remains. *)
Theorem render_scene_spec (sprites : list Group.ArcadeAnySprite) (count : Z)
    (types : list Z) (st : Render.State) :
  Render.well_formed st ->
  0 <= count <= Z.of_nat (length sprites) ->
  count <= Z.of_nat (length types) ->
  Forall (fun e => Render.drawable (fst e) (snd e)) (Render.scene sprites count types) ->
  exists st',
    Render.arcade_render_scene sprites count types st = UB.Done st' /\
    Render.well_formed st' /\
    Render.width st' = Render.width st /\
    Render.height st' = Render.height st /\
    Render.bg_color st' = Render.bg_color st /\
    forall px py, 0 <= px < Render.width st -> 0 <= py < Render.height st ->
      Render.at_xy st' px py
      = Some (Render.composite (Render.scene sprites count types)
                (Render.bg_color st) px py).
Proof.
  intros Hwf Hcount Htypes Hall.
  exact (render_scene_pixels sprites count types st Hwf Hcount Htypes Hall).
Qed.

Lemma render_scene_spec_witness :
  let st := Render.mk (replicate 12 99) 4 3 7 in
  let bar := Group.sprite (ArcadeSprite.mk F32.zero (F32.of_int 1) (F32.of_int 4)
                             (F32.of_int 1) F32.zero F32.zero 65280 1) in
  let img := Group.image_sprite
               (ArcadeImageSprite.mk (F32.of_int 1) (F32.of_int 1) (F32.of_int 2)
                  (F32.of_int 1) F32.zero F32.zero
                  (Some (0%nat, [4278190335; 1193046])) 2 1 1) in
  let sprites := [bar; img] in
  let types := [Group.SPRITE_COLOR; Group.SPRITE_IMAGE] in
  (Render.well_formed st /\ 0 <= 2 <= Z.of_nat (length sprites) /\
   2 <= Z.of_nat (length types) /\
   Forall (fun e => Render.drawable (fst e) (snd e)) (Render.scene sprites 2 types)) /\
  exists st',
    Render.arcade_render_scene sprites 2 types st = UB.Done st' /\
    Render.at_xy st' 0 0 = Some 7 /\
    Render.at_xy st' 1 1 = Some 4278190335 /\
    Render.at_xy st' 2 1 = Some 65280.
Proof.
  intros st bar img sprites types.
  assert (Hwf : Render.well_formed st).
  { unfold Render.well_formed, Int.in_range. vm_compute. intuition discriminate. }
  assert (Hc : 0 <= 2 <= Z.of_nat (length sprites)) by (simpl; lia).
  assert (Ht : 2 <= Z.of_nat (length types)) by (simpl; lia).
  assert (Hall : Forall (fun e => Render.drawable (fst e) (snd e))
                   (Render.scene sprites 2 types)).
  { change (Render.scene sprites 2 types)
      with [(bar, Group.SPRITE_COLOR); (img, Group.SPRITE_IMAGE)].
    apply Forall_cons_2; [|apply Forall_cons_2; [|apply Forall_nil_2]].
    - split; [discriminate|]. intros _ _. exists 0, 1, 4, 1.
      unfold Int.in_range. vm_compute. intuition discriminate.
    - split; [discriminate|]. intros _ _ block data Hpixels.
      injection Hpixels as <- <-. split.
      + exists 1, 1, 2, 1. unfold Int.in_range. vm_compute. intuition discriminate.
      + intros _ _. unfold Int.in_range. vm_compute. intuition discriminate. }
  split; [exact (conj Hwf (conj Hc (conj Ht Hall)))|].
  destruct (render_scene_spec sprites 2 types st Hwf Hc Ht Hall)
    as (st' & Hrun & _ & _ & _ & _ & Hpix).
  exists st'. split; [exact Hrun|]. split; [|split].
  - rewrite (Hpix 0 0) by (simpl; lia). reflexivity.
  - rewrite (Hpix 1 1) by (simpl; lia). reflexivity.
  - rewrite (Hpix 2 1) by (simpl; lia). reflexivity.
Defined.

End RenderFacts.

(** ** The strict loader *)

Module StrictFacts.

Lemma free_live (p : nat) (h : Heap.t) :
  p ∈ Heap.live h -> Strict.free p h = UB.Done (Heap.free p h).
Proof. intros Hp. unfold Strict.free. now rewrite decide_True by exact Hp. Qed.

Lemma area_in_range (tw th : Z) : Int.in_range (tw * th * 4) -> Int.in_range (tw * th).
Proof. unfold Int.in_range, Int.min_signed, Int.max_signed. lia. Qed.

(** Inside the range of [int] and for a size that is not negative the
    strict loader is defined and is the loader. *)
Lemma load_defined (E : Stb.env) (s : ArcadeImageSprite.t) (fn : string) (tw th : Z)
    (h : Heap.t) :
  Int.in_range (tw * th * 4) -> 0 <= tw * th ->
  Strict.load_image_sprite E (Some s) (Some fn) tw th h
  = UB.Done (Loader.load_image_sprite E (Some s) (Some fn) tw th h).
Proof.
  intros Hr Hpos.
  unfold Strict.load_image_sprite, Loader.load_image_sprite, Stb.stbi_load.
  destruct (Stb.files E fn) as [img|]; [|reflexivity].
  pose proof (LoaderFacts.malloc_spec h) as H1.
  destruct (Heap.malloc h) as [[data|] h1]; [|reflexivity].
  destruct H1 as [Hd1 Hl1].
  rewrite RenderFacts.int_mul_done by (apply area_in_range; exact Hr). cbn [UB.bind].
  rewrite RenderFacts.int_mul_done by exact Hr. cbn [UB.bind].
  unfold Strict.malloc. destruct (Z.ltb_spec (tw * th * 4) 0) as [Hneg|_]; [lia|].
  pose proof (LoaderFacts.malloc_spec h1) as H2.
  destruct (Heap.malloc h1) as [[resized|] h2].
  2:{ rewrite free_live by (rewrite H2, Hl1; set_solver). reflexivity. }
  destruct H2 as [Hd2 Hl2].
  assert (Hdata : data ∈ Heap.live h2) by (rewrite Hl2, Hl1; set_solver).
  assert (Hres : forall h', Heap.live h' = Heap.live h2 ->
                            resized ∈ Heap.live (Heap.free data h')).
  { intros h' Hh'. unfold Heap.free. cbn [Heap.live]. rewrite Hh', Hl2.
    rewrite Hl1 in Hd2. set_solver. }
  destruct (Stb.resize E (Stb.data img) (Stb.width img) (Stb.height img) tw th)
    as [resized_data|].
  2:{ rewrite free_live by exact Hdata. cbn [UB.bind].
      rewrite free_live by (apply Hres; reflexivity). reflexivity. }
  pose proof (LoaderFacts.malloc_spec h2) as H3.
  destruct (Heap.malloc h2) as [[px|] h3].
  - destruct H3 as [Hd3 Hl3].
    rewrite free_live by (rewrite Hl3; set_solver). cbn [UB.bind].
    rewrite free_live.
    2:{ unfold Heap.free. cbn [Heap.live]. rewrite Hl3, Hl2.
        rewrite Hl1 in Hd2. set_solver. }
    reflexivity.
  - rewrite free_live by (rewrite H3; exact Hdata). cbn [UB.bind].
    rewrite free_live by (apply Hres; exact H3). reflexivity.
Qed.

(** For a negative size the strict loader fails and leaves no block. *)
Lemma load_negative (E : Stb.env) (s : ArcadeImageSprite.t) (fn : string) (tw th : Z)
    (h : Heap.t) :
  Int.in_range (tw * th * 4) -> tw * th < 0 ->
  exists h',
    Strict.load_image_sprite E (Some s) (Some fn) tw th h = UB.Done (1, Some s, h') /\
    Heap.live h' = Heap.live h.
Proof.
  intros Hr Hneg. unfold Strict.load_image_sprite, Stb.stbi_load.
  destruct (Stb.files E fn) as [img|]; [|now exists h].
  pose proof (LoaderFacts.malloc_spec h) as H1.
  destruct (Heap.malloc h) as [[data|] h1]; [|now exists h1].
  destruct H1 as [Hd1 Hl1].
  rewrite RenderFacts.int_mul_done by (apply area_in_range; exact Hr). cbn [UB.bind].
  rewrite RenderFacts.int_mul_done by exact Hr. cbn [UB.bind].
  unfold Strict.malloc. destruct (Z.ltb_spec (tw * th * 4) 0) as [_|Hpos]; [|lia].
  rewrite free_live by (rewrite Hl1; set_solver). cbn [UB.bind].
  eexists. split; [reflexivity|]. unfold Heap.free. cbn [Heap.live]. rewrite Hl1.
  set_solver.
Qed.

(** With defined casts and a size inside [int] that is not negative the
    strict constructor is defined and is the constructor. *)
Lemma create_defined (E : Stb.env) (x y w h : F32.float) (filename : option string)
    (hp : Heap.t) (tw th : Z) :
  Cast.int_of_float w = UB.Done tw -> Cast.int_of_float h = UB.Done th ->
  Int.in_range (tw * th * 4) -> 0 <= tw * th ->
  Strict.arcade_create_image_sprite E x y w h filename hp
  = UB.Done (Loader.arcade_create_image_sprite E x y w h filename hp).
Proof.
  intros Hw Hh Hr Hpos.
  unfold Strict.arcade_create_image_sprite, Loader.arcade_create_image_sprite.
  destruct filename as [fn|]; [|reflexivity].
  rewrite Hw, Hh. cbn [UB.bind]. rewrite load_defined by assumption. cbn [UB.bind].
  rewrite (RenderFacts.cast_to_int _ _ Hw), (RenderFacts.cast_to_int _ _ Hh).
  destruct (Loader.load_image_sprite _ _ _ _ _ _) as [[status [s1|]] hp1];
    [destruct (status =? 0)|]; reflexivity.
Qed.

(** What [arcade_create_image_sprite] returns once its casts are defined
    and the size is an [int]: a sprite without a pixel buffer and the
    blocks as before, or, for a size that is not negative, the sprite of
    the loader with its new pixel block. *)
Lemma create_spec (E : Stb.env) (x y w h : F32.float) (filename : option string)
    (hp : Heap.t) (tw th : Z) :
  Cast.int_of_float w = UB.Done tw -> Cast.int_of_float h = UB.Done th ->
  Int.in_range (tw * th * 4) ->
  exists s hp',
    Strict.arcade_create_image_sprite E x y w h filename hp = UB.Done (s, hp') /\
    ArcadeImageSprite.x s = x /\ ArcadeImageSprite.y s = y /\
    ArcadeImageSprite.active s = 1 /\
    ((ArcadeImageSprite.pixels s = None /\ Heap.live hp' = Heap.live hp) \/
     (~ Loader.undecodable E filename /\ 0 <= tw * th /\
      (s, hp') = Loader.arcade_create_image_sprite E x y w h filename hp /\
      exists px data, ArcadeImageSprite.pixels s = Some (px, data) /\
                      (px ∉ Heap.live hp) /\ Heap.live hp' = {[px]} ∪ Heap.live hp)).
Proof.
  intros Hw Hh Hr. unfold Strict.arcade_create_image_sprite.
  destruct filename as [fn|].
  2:{ do 2 eexists. split; [reflexivity|]. simpl. auto 10. }
  rewrite Hw, Hh. cbn [UB.bind].
  destruct (Z.le_gt_cases 0 (tw * th)) as [Hpos|Hneg].
  - rewrite load_defined by assumption. cbn [UB.bind].
    destruct (LoaderFacts.create_image_sprite_spec E x y w h (Some fn) hp)
      as (s & hp' & Hrun & Hx & Hy & Ha & Hcases).
    unfold Loader.arcade_create_image_sprite in Hrun.
    rewrite (RenderFacts.cast_to_int _ _ Hw), (RenderFacts.cast_to_int _ _ Hh) in Hrun.
    exists s, hp'. split.
    { destruct (Loader.load_image_sprite _ _ _ _ _ _) as [[status [s1|]] hp1].
      - destruct (status =? 0); now rewrite Hrun.
      - now rewrite Hrun. }
    split; [exact Hx|]. split; [exact Hy|]. split; [exact Ha|].
    destruct Hcases as [Hnone|(Hdec & Hsome)]; [now left|right].
    split; [exact Hdec|]. split; [exact Hpos|]. split; [|exact Hsome].
    unfold Loader.arcade_create_image_sprite.
    rewrite (RenderFacts.cast_to_int _ _ Hw), (RenderFacts.cast_to_int _ _ Hh).
    now rewrite Hrun.
  - destruct (load_negative E (ArcadeImageSprite.mk x y F32.zero F32.zero F32.zero
                                 F32.zero None 0 0 1) fn tw th hp Hr Hneg)
      as (hp' & -> & Hlive).
    cbn [UB.bind Z.eqb]. do 2 eexists. split; [reflexivity|]. simpl. auto 10.
Qed.

Lemma malloc_succeeds (h : Heap.t) :
  Heap.oom h = [] ->
  exists p h', Heap.malloc h = (Some p, h') /\ Heap.oom h' = [].
Proof.
  intros Hoom. unfold Heap.malloc. rewrite Hoom. do 2 eexists. split; reflexivity.
Qed.

(** With the file and its resized copy at hand and an allocator that
    does not fail, the loader returns a pixel buffer. *)
Lemma create_succeeds (E : Stb.env) (x y w h : F32.float) (fn : string)
    (hp : Heap.t) (img : Stb.Image) (resized_data : list Z) :
  Stb.files E fn = Some img ->
  Stb.resize E (Stb.data img) (Stb.width img) (Stb.height img)
    (F32.to_int w) (F32.to_int h) = Some resized_data ->
  Heap.oom hp = [] ->
  exists s hp',
    Loader.arcade_create_image_sprite E x y w h (Some fn) hp = (s, hp') /\
    ArcadeImageSprite.pixels s <> None /\ Heap.oom hp' = [].
Proof.
  intros Hfile Hresize Hoom.
  unfold Loader.arcade_create_image_sprite, Loader.load_image_sprite, Stb.stbi_load.
  rewrite Hfile.
  destruct (malloc_succeeds hp Hoom) as (data & h1 & -> & Hoom1).
  destruct (malloc_succeeds h1 Hoom1) as (resized & h2 & -> & Hoom2).
  rewrite Hresize.
  destruct (malloc_succeeds h2 Hoom2) as (px & h3 & -> & Hoom3).
  cbn [Z.eqb]. do 2 eexists. split; [reflexivity|]. split; [discriminate|].
  exact Hoom3.
Qed.

(** Releasing a sprite whose pixel block is live. *)
Lemma free_sprite_owned (s : ArcadeImageSprite.t) (p : nat) (d : list Z) (hp : Heap.t) :
  ArcadeImageSprite.pixels s = Some (p, d) -> p ∈ Heap.live hp ->
  exists s',
    Strict.arcade_free_image_sprite (Some s) hp = UB.Done (Some s', Heap.free p hp) /\
    ArcadeImageSprite.pixels s' = None /\
    ArcadeImageSprite.active s' = 0.
Proof.
  intros Hpix Hlive. unfold Strict.arcade_free_image_sprite. rewrite Hpix.
  rewrite free_live by exact Hlive. cbn [UB.bind].
  eexists. split; [reflexivity|]. split; reflexivity.
Qed.

End StrictFacts.

(** ** Flappy Bird: the pipes *)

Module FlappyBirdFacts.

Lemma store_pipe_done (pipes : list FlappyBird.Pipe) (i : Z) (s : ArcadeImageSprite.t) :
  0 <= i < Z.of_nat (length pipes) ->
  FlappyBird.store_pipe pipes i s = UB.Done (<[Z.to_nat i := FlappyBird.mk s 0]> pipes).
Proof.
  intros Hi. unfold FlappyBird.store_pipe.
  destruct (lookup_lt_is_Some_2 pipes (Z.to_nat i)) as [p Hp]; [lia|].
  rewrite (LoopFacts.array_get_done pipes i p (proj1 Hi) Hp). cbn [UB.bind].
  rewrite LoopFacts.array_set_done by exact Hi. cbn [UB.bind].
  rewrite (LoopFacts.array_get_done _ i (FlappyBird.mk s (FlappyBird.scored p)) (proj1 Hi))
    by (apply list_lookup_insert_eq; lia).
  cbn [UB.bind]. rewrite LoopFacts.array_set_done by (rewrite length_insert; exact Hi).
  now rewrite list_insert_insert_eq.
Qed.

Lemma take_agree {A : Type} (n : nat) (l l' : list A) :
  length l' = length l ->
  (forall i, (i < n)%nat -> l' !! i = l !! i) ->
  take n l' = take n l.
Proof.
  intros Hlen Hl. apply list_eq. intros i.
  destruct (decide (i < n)%nat) as [Hi|Hi].
  - rewrite !lookup_take_lt by exact Hi. now apply Hl.
  - rewrite !lookup_take_ge by lia. reflexivity.
Qed.

Lemma gap_cast_cases (n : nat) :
  (n < 150)%nat ->
  Cast.int_of_float (F32.add (F32.of_int 200) (F32.of_int (Z.of_nat n)))
  = UB.Done (200 + Z.of_nat n).
Proof.
  intros Hn.
  do 150 (destruct n as [|n]; [vm_compute; reflexivity|]).
  lia.
Qed.

(** The height of the top pipe is an [int] between 200 and 349. *)
Lemma gap_cast (rand : Z) :
  0 <= rand ->
  Cast.int_of_float (FlappyBird.gap_y rand) = UB.Done (200 + rand mod 150).
Proof.
  intros Hrand. unfold FlappyBird.gap_y, Int.rem.
  rewrite Z.rem_mod_nonneg by lia.
  pose proof (Z.mod_pos_bound rand 150 ltac:(lia)) as Hk.
  pose proof (gap_cast_cases (Z.to_nat (rand mod 150)) ltac:(lia)) as H.
  rewrite Z2Nat.id in H by lia. exact H.
Qed.

Lemma pipe_width_cast : Cast.int_of_float FlappyBird.PIPE_WIDTH = UB.Done 50.
Proof. vm_compute. reflexivity. Qed.

Lemma top_size (rand : Z) : 0 <= rand -> Int.in_range (50 * (200 + rand mod 150) * 4).
Proof.
  intros Hrand. pose proof (Z.mod_pos_bound rand 150 ltac:(lia)) as Hk.
  unfold Int.in_range, Int.min_signed, Int.max_signed. lia.
Qed.

Lemma small_count (c : Z) : -2 <= c <= 8 -> Int.wrap c = c.
Proof.
  intros Hc. apply AnimFacts.wrap_in_range.
  unfold Int.in_range, Int.min_signed, Int.max_signed. lia.
Qed.

(** The outcomes of [add_pipe_pair]. *)
Lemma add_pipe_pair_cases (E : Stb.env) (rand : Z)
    (pipes : list FlappyBird.Pipe) (pipe_count : Z)
    (window_width window_height speed : F32.float) (hp : Heap.t)
    (base : gset nat) (hb : Z) :
  Pipes.paired base pipes pipe_count hp ->
  0 <= rand ->
  Cast.int_of_float
    (F32.sub (F32.sub window_height (FlappyBird.gap_y rand)) FlappyBird.PIPE_GAP)
  = UB.Done hb ->
  Int.in_range (50 * hb * 4) ->
  exists pipes' count' hp',
    FlappyBird.add_pipe_pair E rand pipes pipe_count window_width window_height speed hp
    = UB.Done (pipes', count', hp') /\
    Pipes.paired base pipes' count' hp' /\
    (forall i, (i < Z.to_nat pipe_count)%nat -> pipes' !! i = pipes !! i) /\
    ((count' = pipe_count /\ Heap.live hp' = Heap.live hp) \/
     (count' = pipe_count + 2 /\ 0 <= hb /\
      exists top bottom ptop dtop pbottom dbottom,
        pipes' !! Z.to_nat pipe_count = Some (FlappyBird.mk top 0) /\
        pipes' !! Z.to_nat (pipe_count + 1) = Some (FlappyBird.mk bottom 0) /\
        ArcadeImageSprite.pixels top = Some (ptop, dtop) /\
        ArcadeImageSprite.pixels bottom = Some (pbottom, dbottom) /\
        ptop <> pbottom /\ (ptop ∉ Heap.live hp) /\ (pbottom ∉ Heap.live hp) /\
        Heap.live hp' = {[pbottom]} ∪ ({[ptop]} ∪ Heap.live hp) /\
        ArcadeImageSprite.x top = window_width /\
        ArcadeImageSprite.x bottom = window_width /\
        ArcadeImageSprite.y top = F32.zero /\
        ArcadeImageSprite.y bottom = F32.add (FlappyBird.gap_y rand) FlappyBird.PIPE_GAP /\
        ArcadeImageSprite.vx top = speed /\
        ArcadeImageSprite.vx bottom = speed)) /\
    (FlappyBird.MAX_PIPES - 1 <= pipe_count ->
     pipes' = pipes /\ count' = pipe_count /\ hp' = hp) /\
    (Stb.files E FlappyBird.pipe_top = None \/ Stb.files E FlappyBird.pipe_bottom = None ->
     count' = pipe_count).
Proof.
  intros Hpaired Hrand Hcast Hr.
  pose proof Hpaired as (Hlen & Hcount & Heven & blocks & Hbl & Hnd & Hdisj & Hlive).
  unfold FlappyBird.MAX_PIPES in *.
  unfold FlappyBird.add_pipe_pair, FlappyBird.MAX_PIPES.
  destruct (Z.leb_spec (6 - 1) pipe_count) as [Hfull|Hroom].
  { exists pipes, pipe_count, hp. split; [reflexivity|]. split; [exact Hpaired|].
    split; [reflexivity|]. split; [left; now split|]. split; [now intros _|].
    now intros _. }
  destruct (StrictFacts.create_spec E window_width F32.zero FlappyBird.PIPE_WIDTH
              (FlappyBird.gap_y rand) (Some FlappyBird.pipe_top) hp 50
              (200 + rand mod 150) pipe_width_cast (gap_cast rand Hrand)
              (top_size rand Hrand))
    as (top & hp1 & -> & Hx1 & Hy1 & _
        & [[Hnull Hl1]|(Hdec1 & _ & _ & ptop & dtop & Hpt & Hfresh1 & Hl1)]).
  { cbn [UB.bind]. rewrite Hnull. exists pipes, pipe_count, hp1.
    split; [reflexivity|]. split.
    { split; [exact Hlen|]. split; [exact Hcount|]. split; [exact Heven|].
      exists blocks. rewrite Hl1. now repeat split. }
    split; [reflexivity|]. split; [left; now split|]. split; [intros Hc; lia|].
    now intros _. }
  cbn [UB.bind]. rewrite Hpt. rewrite store_pipe_done by lia. cbn [UB.bind].
  rewrite (small_count (pipe_count + 1)) by lia.
  set (top' := ArcadeImageSprite.set_vx speed top).
  assert (Hpt' : ArcadeImageSprite.pixels top' = Some (ptop, dtop)) by exact Hpt.
  destruct (StrictFacts.create_spec E window_width
              (F32.add (FlappyBird.gap_y rand) FlappyBird.PIPE_GAP) FlappyBird.PIPE_WIDTH
              (F32.sub (F32.sub window_height (FlappyBird.gap_y rand)) FlappyBird.PIPE_GAP)
              (Some FlappyBird.pipe_bottom) hp1 50 hb pipe_width_cast Hcast Hr)
    as (bottom & hp2 & -> & Hx2 & Hy2 & _
        & [[Hnull Hl2]|(Hdec2 & Hpos2 & _ & pbot & dbot & Hpb & Hfresh2 & Hl2)]).
  - cbn [UB.bind]. rewrite Hnull.
    replace (pipe_count + 1 - 1) with pipe_count by lia.
    rewrite (small_count pipe_count) by lia.
    rewrite (LoopFacts.array_get_done _ pipe_count (FlappyBird.mk top' 0) (proj1 Hcount))
      by (apply list_lookup_insert_eq; lia).
    cbn [UB.bind FlappyBird.sprite FlappyBird.scored].
    destruct (StrictFacts.free_sprite_owned top' ptop dtop hp2 Hpt')
      as (freed & -> & _ & _); [rewrite Hl2, Hl1; set_solver|].
    cbn [UB.bind].
    rewrite LoopFacts.array_set_done by (rewrite length_insert; lia).
    cbn [UB.bind]. rewrite list_insert_insert_eq.
    assert (Hlive' : Heap.live (Heap.free ptop hp2) = Heap.live hp).
    { unfold Heap.free. cbn [Heap.live]. rewrite Hl2, Hl1. set_solver. }
    assert (Hkeep : forall i, (i < Z.to_nat pipe_count)%nat ->
                              <[Z.to_nat pipe_count := FlappyBird.mk freed 0]> pipes !! i
                              = pipes !! i).
    { intros i Hi. apply list_lookup_insert_ne. lia. }
    eexists _, pipe_count, _. split; [reflexivity|]. split.
    { split; [rewrite length_insert; exact Hlen|]. split; [exact Hcount|].
      split; [exact Heven|]. exists blocks.
      rewrite (take_agree _ pipes _ (length_insert _ _ _) Hkeep).
      split; [exact Hbl|]. split; [exact Hnd|]. split; [exact Hdisj|].
      now rewrite Hlive'. }
    split; [exact Hkeep|]. split; [left; now split|]. split; [intros Hc; lia|].
    now intros _.
  - cbn [UB.bind]. rewrite Hpb.
    rewrite store_pipe_done by (rewrite length_insert; lia). cbn [UB.bind].
    replace (pipe_count + 1 + 1) with (pipe_count + 2) by lia.
    rewrite (small_count (pipe_count + 2)) by lia.
    set (bottom' := ArcadeImageSprite.set_vx speed bottom).
    set (pipes' := <[Z.to_nat (pipe_count + 1) := FlappyBird.mk bottom' 0]>
                     (<[Z.to_nat pipe_count := FlappyBird.mk top' 0]> pipes)).
    assert (Hl' : length pipes' = length pipes) by (unfold pipes'; now rewrite !length_insert).
    assert (Hkeep : forall i, (i < Z.to_nat pipe_count)%nat -> pipes' !! i = pipes !! i).
    { intros i Hi. unfold pipes'. rewrite !list_lookup_insert_ne by lia. reflexivity. }
    assert (Htop : pipes' !! Z.to_nat pipe_count = Some (FlappyBird.mk top' 0)).
    { unfold pipes'. rewrite list_lookup_insert_ne by lia.
      apply list_lookup_insert_eq. lia. }
    assert (Hbot : pipes' !! Z.to_nat (pipe_count + 1) = Some (FlappyBird.mk bottom' 0)).
    { unfold pipes'. apply list_lookup_insert_eq. rewrite length_insert. lia. }
    assert (Hne : ptop <> pbot).
    { intros ->. apply Hfresh2. rewrite Hl1. set_solver. }
    assert (Hfb : pbot ∉ Heap.live hp) by (rewrite Hl1 in Hfresh2; set_solver).
    assert (Hlive' : Heap.live hp2 = {[pbot]} ∪ ({[ptop]} ∪ Heap.live hp))
      by (rewrite Hl2, Hl1; reflexivity).
    exists pipes', (pipe_count + 2), hp2. split; [reflexivity|]. split.
    { split; [rewrite Hl'; exact Hlen|].
      split; [unfold FlappyBird.MAX_PIPES; lia|].
      split; [rewrite Z.even_add, Heven; reflexivity|].
      exists (blocks ++ [ptop; pbot]).
      replace (Z.to_nat (pipe_count + 2)) with (S (S (Z.to_nat pipe_count))) by lia.
      replace (Z.to_nat (pipe_count + 1)) with (S (Z.to_nat pipe_count)) in Hbot by lia.
      rewrite (take_S_r _ _ _ Hbot), (take_S_r _ _ _ Htop).
      rewrite (take_agree _ pipes pipes' Hl' Hkeep), <- app_assoc, !fmap_app, Hbl.
      split.
      { f_equal. unfold Pipes.block_of. cbn [fmap list_fmap FlappyBird.sprite].
        assert (Hpb' : ArcadeImageSprite.pixels bottom' = Some (pbot, dbot)) by exact Hpb.
        now rewrite Hpt', Hpb'. }
      assert (Hin : forall b, b ∈ blocks -> b ∈ Heap.live hp).
      { intros b Hb. rewrite Hlive. set_solver. }
      split.
      { apply NoDup_app. split; [exact Hnd|]. split.
        - intros b Hb Hb'. apply Hin in Hb. set_solver.
        - apply NoDup_cons. split; [set_solver|]. apply NoDup_singleton. }
      split.
      { rewrite list_to_set_app_L. rewrite Hlive in Hfresh1, Hfb. simpl. set_solver. }
      rewrite Hlive', Hlive, list_to_set_app_L. simpl. set_solver. }
    split; [exact Hkeep|]. split.
    { right. split; [reflexivity|]. split; [nia|].
      exists top', bottom', ptop, dtop, pbot, dbot.
      split; [exact Htop|]. split; [exact Hbot|]. split; [exact Hpt|].
      split; [exact Hpb|]. split; [exact Hne|]. split; [exact Hfresh1|].
      split; [exact Hfb|]. split; [exact Hlive'|]. split; [exact Hx1|].
      split; [exact Hx2|]. split; [exact Hy1|]. split; [exact Hy2|].
      split; reflexivity. }
    split; [intros Hc; lia|].
    intros [Hno|Hno]; [elim Hdec1; exact Hno|elim Hdec2; exact Hno].
Qed.

(** With room in the array, both images at hand and an allocator that
    does not fail, [add_pipe_pair] adds a pair. *)
Lemma add_pipe_pair_grows (E : Stb.env) (rand : Z)
    (pipes : list FlappyBird.Pipe) (pipe_count : Z)
    (window_width window_height speed : F32.float) (hp : Heap.t) (hb : Z)
    (it ib : Stb.Image) (rt rb : list Z) :
  Z.of_nat (length pipes) = FlappyBird.MAX_PIPES ->
  0 <= pipe_count < FlappyBird.MAX_PIPES - 1 ->
  0 <= rand ->
  Cast.int_of_float
    (F32.sub (F32.sub window_height (FlappyBird.gap_y rand)) FlappyBird.PIPE_GAP)
  = UB.Done hb ->
  Int.in_range (50 * hb * 4) -> 0 <= hb ->
  Heap.oom hp = [] ->
  Stb.files E FlappyBird.pipe_top = Some it ->
  Stb.resize E (Stb.data it) (Stb.width it) (Stb.height it) 50 (200 + rand mod 150)
  = Some rt ->
  Stb.files E FlappyBird.pipe_bottom = Some ib ->
  Stb.resize E (Stb.data ib) (Stb.width ib) (Stb.height ib) 50 hb = Some rb ->
  exists pipes' hp',
    FlappyBird.add_pipe_pair E rand pipes pipe_count window_width window_height speed hp
    = UB.Done (pipes', pipe_count + 2, hp').
Proof.
  intros Hlen Hcount Hrand Hcast Hr Hhb Hoom Hft Hrt Hfb Hrb.
  unfold FlappyBird.MAX_PIPES in *.
  unfold FlappyBird.add_pipe_pair, FlappyBird.MAX_PIPES.
  destruct (Z.leb_spec (6 - 1) pipe_count) as [Hfull|_]; [lia|].
  pose proof (Z.mod_pos_bound rand 150 ltac:(lia)) as Hk.
  rewrite (StrictFacts.create_defined E window_width F32.zero FlappyBird.PIPE_WIDTH
             (FlappyBird.gap_y rand) (Some FlappyBird.pipe_top) hp 50
             (200 + rand mod 150) pipe_width_cast (gap_cast rand Hrand)
             (top_size rand Hrand)) by lia.
  cbn [UB.bind].
  destruct (StrictFacts.create_succeeds E window_width F32.zero FlappyBird.PIPE_WIDTH
              (FlappyBird.gap_y rand) FlappyBird.pipe_top hp it rt Hft)
    as (top & hp1 & -> & Hpt & Hoom1); [|exact Hoom|].
  { rewrite (RenderFacts.cast_to_int _ _ pipe_width_cast),
      (RenderFacts.cast_to_int _ _ (gap_cast rand Hrand)). exact Hrt. }
  destruct (ArcadeImageSprite.pixels top) as [pt|] eqn:Hpix1; [|contradiction].
  rewrite store_pipe_done by lia. cbn [UB.bind].
  rewrite (small_count (pipe_count + 1)) by lia.
  rewrite (StrictFacts.create_defined E window_width
             (F32.add (FlappyBird.gap_y rand) FlappyBird.PIPE_GAP) FlappyBird.PIPE_WIDTH
             (F32.sub (F32.sub window_height (FlappyBird.gap_y rand)) FlappyBird.PIPE_GAP)
             (Some FlappyBird.pipe_bottom) hp1 50 hb pipe_width_cast Hcast Hr) by lia.
  cbn [UB.bind].
  destruct (StrictFacts.create_succeeds E window_width
              (F32.add (FlappyBird.gap_y rand) FlappyBird.PIPE_GAP) FlappyBird.PIPE_WIDTH
              (F32.sub (F32.sub window_height (FlappyBird.gap_y rand)) FlappyBird.PIPE_GAP)
              FlappyBird.pipe_bottom hp1 ib rb Hfb)
    as (bottom & hp2 & -> & Hpb & Hoom2); [|exact Hoom1|].
  { rewrite (RenderFacts.cast_to_int _ _ pipe_width_cast),
      (RenderFacts.cast_to_int _ _ Hcast). exact Hrb. }
  destruct (ArcadeImageSprite.pixels bottom) as [pb|] eqn:Hpix2; [|contradiction].
  rewrite store_pipe_done by (rewrite length_insert; lia). cbn [UB.bind].
  replace (pipe_count + 1 + 1) with (pipe_count + 2) by lia.
  rewrite (small_count (pipe_count + 2)) by lia.
  do 2 eexists. reflexivity.
Qed.

(** X17: [add_pipe_pair], called for paired pipes with a value of
    [rand()] that is not negative and a window height for which the
    height of the bottom pipe, [(int)(window_height - gap_y - PIPE_GAP)],
    is an [int] [hb] with [50 * hb * 4] an [int], returns: it makes no
    access outside the array, no cast or size computation out of range
    and no release of a block that is not live.  It never changes an
    entry below the old count and leaves the pipes paired.  When the
    array has no room for a pair (count >= MAX_PIPES - 1) nothing at all
    changes.  When one of the two image files cannot be decoded the count
    stays.  When there is room, both files decode and resize, the bottom
    height is not negative and no allocation fails, the count grows by 2.
    In every case either the count and the live blocks are as before (a
    top pipe that was already loaded is released again), or the count
    has grown by exactly 2 and the two new entries are the top pipe at
    y = 0 and the bottom pipe at y = gap_y + PIPE_GAP, both unscored,
    both at [x = window_width] with [vx = speed], each with its own new
    pixel block. *)
Theorem add_pipe_pair_keeps_pairs (E : Stb.env) (rand : Z)
    (pipes : list FlappyBird.Pipe) (pipe_count : Z)
    (window_width window_height speed : F32.float) (hp : Heap.t)
    (base : gset nat) (hb : Z) :
  Pipes.paired base pipes pipe_count hp ->
  0 <= rand ->
  Cast.int_of_float
    (F32.sub (F32.sub window_height (FlappyBird.gap_y rand)) FlappyBird.PIPE_GAP)
  = UB.Done hb ->
  Int.in_range (50 * hb * 4) ->
  exists pipes' count' hp',
    FlappyBird.add_pipe_pair E rand pipes pipe_count window_width window_height speed hp
    = UB.Done (pipes', count', hp') /\
    Pipes.paired base pipes' count' hp' /\
    (forall i, (i < Z.to_nat pipe_count)%nat -> pipes' !! i = pipes !! i) /\
    ((count' = pipe_count /\ Heap.live hp' = Heap.live hp) \/
     (count' = pipe_count + 2 /\ 0 <= hb /\
      exists top bottom ptop dtop pbottom dbottom,
        pipes' !! Z.to_nat pipe_count = Some (FlappyBird.mk top 0) /\
        pipes' !! Z.to_nat (pipe_count + 1) = Some (FlappyBird.mk bottom 0) /\
        ArcadeImageSprite.pixels top = Some (ptop, dtop) /\
        ArcadeImageSprite.pixels bottom = Some (pbottom, dbottom) /\
        ptop <> pbottom /\ (ptop ∉ Heap.live hp) /\ (pbottom ∉ Heap.live hp) /\
        Heap.live hp' = {[pbottom]} ∪ ({[ptop]} ∪ Heap.live hp) /\
        ArcadeImageSprite.x top = window_width /\
        ArcadeImageSprite.x bottom = window_width /\
        ArcadeImageSprite.y top = F32.zero /\
        ArcadeImageSprite.y bottom = F32.add (FlappyBird.gap_y rand) FlappyBird.PIPE_GAP /\
        ArcadeImageSprite.vx top = speed /\
        ArcadeImageSprite.vx bottom = speed)) /\
    (FlappyBird.MAX_PIPES - 1 <= pipe_count ->
     pipes' = pipes /\ count' = pipe_count /\ hp' = hp) /\
    (Stb.files E FlappyBird.pipe_top = None \/ Stb.files E FlappyBird.pipe_bottom = None ->
     count' = pipe_count) /\
    (pipe_count < FlappyBird.MAX_PIPES - 1 -> Heap.oom hp = [] -> 0 <= hb ->
     forall it ib rt rb,
       Stb.files E FlappyBird.pipe_top = Some it ->
       Stb.resize E (Stb.data it) (Stb.width it) (Stb.height it) 50 (200 + rand mod 150)
       = Some rt ->
       Stb.files E FlappyBird.pipe_bottom = Some ib ->
       Stb.resize E (Stb.data ib) (Stb.width ib) (Stb.height ib) 50 hb = Some rb ->
       count' = pipe_count + 2).
Proof.
  intros Hpaired Hrand Hcast Hr.
  destruct (add_pipe_pair_cases E rand pipes pipe_count window_width window_height speed
              hp base hb Hpaired Hrand Hcast Hr)
    as (pipes' & count' & hp' & Hrun & Hp' & Hkeep & Hcases & Hfull & Hfail).
  exists pipes', count', hp'. split; [exact Hrun|]. split; [exact Hp'|].
  split; [exact Hkeep|]. split; [exact Hcases|]. split; [exact Hfull|].
  split; [exact Hfail|].
  intros Hroom Hoom Hhb it ib rt rb Hft Hrt Hfb Hrb.
  destruct Hpaired as (Hlen & Hcount & _).
  destruct (add_pipe_pair_grows E rand pipes pipe_count window_width window_height speed
              hp hb it ib rt rb Hlen (conj (proj1 Hcount) Hroom) Hrand Hcast Hr Hhb Hoom
              Hft Hrt Hfb Hrb) as (q & hq & Hgrow).
  rewrite Hgrow in Hrun. now injection Hrun as _ <- _.
Qed.

Lemma add_pipe_pair_keeps_pairs_witness :
  (Pipes.paired ∅ FlappyBird.no_pipes 0 Loader.empty_heap /\ 0 <= 42 /\
   Cast.int_of_float
     (F32.sub (F32.sub (F32.of_int 600) (FlappyBird.gap_y 42)) FlappyBird.PIPE_GAP)
   = UB.Done 223 /\
   Int.in_range (50 * 223 * 4)) /\
  exists pipes' hp',
    FlappyBird.add_pipe_pair FlappyBird.assets 42 FlappyBird.no_pipes 0
      (F32.of_int 800) (F32.of_int 600) (F32.of_int (-3)) Loader.empty_heap
    = UB.Done (pipes', 2, hp') /\
    Pipes.paired ∅ pipes' 2 hp'.
Proof.
  assert (H1 : Pipes.paired ∅ FlappyBird.no_pipes 0 Loader.empty_heap).
  { split; [reflexivity|]. split; [unfold FlappyBird.MAX_PIPES; lia|].
    split; [reflexivity|]. exists []. split; [reflexivity|]. split; [constructor|].
    split; [set_solver|]. simpl. set_solver. }
  assert (H2 : 0 <= 42) by lia.
  assert (H3 : Cast.int_of_float
                 (F32.sub (F32.sub (F32.of_int 600) (FlappyBird.gap_y 42))
                    FlappyBird.PIPE_GAP) = UB.Done 223) by (vm_compute; reflexivity).
  assert (H4 : Int.in_range (50 * 223 * 4)).
  { unfold Int.in_range, Int.min_signed, Int.max_signed. lia. }
  split; [exact (conj H1 (conj H2 (conj H3 H4)))|].
  destruct (add_pipe_pair_keeps_pairs FlappyBird.assets 42 FlappyBird.no_pipes 0
              (F32.of_int 800) (F32.of_int 600) (F32.of_int (-3)) Loader.empty_heap
              ∅ 223 H1 H2 H3 H4)
    as (pipes' & count' & hp' & Hrun & Hp' & _ & _ & _ & _ & Hgrow).
  assert (Hc : count' = 0 + 2).
  { apply (Hgrow ltac:(unfold FlappyBird.MAX_PIPES; lia) eq_refl ltac:(lia)
             (Stb.mkImage 1 1 [0; 255; 0; 255]) (Stb.mkImage 1 1 [0; 255; 0; 255])
             _ _ eq_refl eq_refl eq_refl eq_refl). }
  subst count'. exists pipes', hp'. split; [exact Hrun|exact Hp'].
Defined.

Lemma gap_cases (n : nat) :
  (n < 150)%nat ->
  F32.add (F32.of_int 200) (F32.of_int (Z.of_nat n)) = F32.of_int (200 + Z.of_nat n) /\
  F32.to_int (F32.of_int (200 + Z.of_nat n)) = 200 + Z.of_nat n /\
  F32.add (F32.of_int (200 + Z.of_nat n)) FlappyBird.PIPE_GAP
  = F32.of_int (335 + Z.of_nat n).
Proof.
  intros Hn.
  do 150 (destruct n as [|n]; [split; [|split]; vm_compute; reflexivity|]).
  lia.
Qed.

(** X24: the gap of a pipe pair is placed without rounding: for the value
    [rand] that [rand()] returns, [gap_y] is the integer
    [200 + rand % 150], between 200 and 349; this is the height in pixels
    to which the top pipe is scaled, and the bottom pipe starts exactly
    [PIPE_GAP] = 135 pixels below it. *)
Theorem gap_is_exact (rand : Z) :
  0 <= rand ->
  FlappyBird.gap_y rand = F32.of_int (200 + rand mod 150) /\
  F32.to_int (FlappyBird.gap_y rand) = 200 + rand mod 150 /\
  200 <= F32.to_int (FlappyBird.gap_y rand) <= 349 /\
  F32.add (FlappyBird.gap_y rand) FlappyBird.PIPE_GAP
  = F32.of_int (F32.to_int (FlappyBird.gap_y rand) + 135).
Proof.
  intros Hrand. unfold FlappyBird.gap_y, Int.rem.
  rewrite Z.rem_mod_nonneg by lia.
  pose proof (Z.mod_pos_bound rand 150 ltac:(lia)) as Hk.
  destruct (gap_cases (Z.to_nat (rand mod 150)) ltac:(lia)) as (H1 & H2 & H3).
  rewrite Z2Nat.id in H1, H2, H3 by lia.
  rewrite H1, H2, H3. split; [reflexivity|]. split; [reflexivity|].
  split; [lia|]. f_equal. lia.
Qed.

Lemma gap_is_exact_witness :
  0 <= 1804289383 /\
  FlappyBird.gap_y 1804289383 = F32.of_int 333 /\
  F32.add (FlappyBird.gap_y 1804289383) FlappyBird.PIPE_GAP = F32.of_int 468.
Proof.
  assert (H : 0 <= 1804289383) by lia.
  split; [exact H|].
  destruct (gap_is_exact 1804289383 H) as (Hg & Hi & _ & Hb).
  split; [exact Hg|]. rewrite Hb, Hi. reflexivity.
Defined.

End FlappyBirdFacts.

(** ** Filling and drawing a group *)

Module SceneFacts.

(** Below capacity the new entry is appended to the contents. *)
Lemma add_appends (group : Group.SpriteGroup) (s : Group.ArcadeAnySprite) (type : Z) :
  Scene.well_formed group ->
  Group.count group < Group.capacity group ->
  exists group',
    Group.arcade_add_sprite_to_group group s type = UB.Done group' /\
    Scene.well_formed group' /\
    Group.count group' = Group.count group + 1 /\
    Group.capacity group' = Group.capacity group /\
    Scene.contents group' = Scene.contents group ++ [(s, type)].
Proof.
  intros (Hc & Hr & Hs & Ht) Hroom. unfold Group.arcade_add_sprite_to_group.
  destruct (Z.ltb_spec (Group.count group) (Group.capacity group)); [|lia].
  rewrite !LoopFacts.array_set_done by lia. cbn [UB.bind].
  assert (Hw : Int.wrap (Group.count group + 1) = Group.count group + 1).
  { apply AnimFacts.wrap_in_range.
    unfold Int.in_range, Int.min_signed, Int.max_signed in *. lia. }
  rewrite Hw. eexists. split; [reflexivity|]. split.
  { unfold Scene.well_formed. cbn [Group.count Group.capacity Group.sprites Group.types].
    rewrite !length_insert. split; [lia|]. auto. }
  split; [reflexivity|]. split; [reflexivity|].
  unfold Scene.contents, Render.scene.
  cbn [Group.count Group.capacity Group.sprites Group.types].
  rewrite <- insert_zip_with.
  replace (Z.to_nat (Group.count group + 1)) with (S (Z.to_nat (Group.count group)))
    by lia.
  rewrite (take_S_r _ _ (s, type)).
  - now rewrite take_insert_ge by lia.
  - apply list_lookup_insert_eq. rewrite length_zip_with. lia.
Qed.

(** The contents of a group after successive additions. *)
Lemma add_all_contents (items : list (Group.ArcadeAnySprite * Z))
    (group : Group.SpriteGroup) :
  Scene.well_formed group ->
  exists group',
    Scene.add_all items group = UB.Done group' /\
    Scene.well_formed group' /\
    Group.capacity group' = Group.capacity group /\
    Group.count group'
    = Z.min (Group.count group + Z.of_nat (length items)) (Group.capacity group) /\
    Scene.contents group'
    = Scene.contents group
        ++ take (Z.to_nat (Group.capacity group - Group.count group)) items.
Proof.
  revert group. induction items as [|[s type] items IH]; intros group Hwf.
  - exists group. split; [reflexivity|]. split; [exact Hwf|]. split; [reflexivity|].
    destruct Hwf as (Hc & _). split; [simpl; lia|].
    now rewrite take_nil, app_nil_r.
  - cbn [Scene.add_all].
    destruct (Z.lt_ge_cases (Group.count group) (Group.capacity group)) as [Hroom|Hfull].
    + destruct (add_appends group s type Hwf Hroom)
        as (g1 & -> & Hwf1 & Hc1 & Hcap1 & Hcont1).
      cbn [UB.bind].
      destruct (IH g1 Hwf1) as (g2 & Hrun & Hwf2 & Hcap2 & Hc2 & Hcont2).
      exists g2. split; [exact Hrun|]. split; [exact Hwf2|].
      split; [congruence|]. split.
      { rewrite Hc2, Hc1, Hcap1. cbn [length]. lia. }
      rewrite Hcont2, Hcont1, Hcap1, Hc1, <- app_assoc. f_equal.
      replace (Z.to_nat (Group.capacity group - Group.count group))
        with (S (Z.to_nat (Group.capacity group - (Group.count group + 1)))) by lia.
      reflexivity.
    + assert (Hnoop : Group.arcade_add_sprite_to_group group s type = UB.Done group).
      { unfold Group.arcade_add_sprite_to_group.
        destruct (Z.ltb_spec (Group.count group) (Group.capacity group)); [lia|].
        reflexivity. }
      rewrite Hnoop. cbn [UB.bind].
      destruct (IH group Hwf) as (g2 & Hrun & Hwf2 & Hcap2 & Hc2 & Hcont2).
      exists g2. split; [exact Hrun|]. split; [exact Hwf2|].
      split; [exact Hcap2|]. split.
      { rewrite Hc2. cbn [length]. destruct Hwf as (Hc & _). lia. }
      rewrite Hcont2.
      replace (Z.to_nat (Group.capacity group - Group.count group)) with 0%nat by lia.
      reflexivity.
Qed.

(** X18: successive calls of [arcade_add_sprite_to_group] fill a group in
    the order of the calls and drop what does not fit: the contents after
    the calls are the contents before followed by the first
    [capacity - count] of the added sprites, each with its type; the
    entries that were there are never overwritten, and the count never
    exceeds the capacity. *)
Theorem adds_fill_in_order (items : list (Group.ArcadeAnySprite * Z))
    (group : Group.SpriteGroup) :
  Scene.well_formed group ->
  exists group',
    Scene.add_all items group = UB.Done group' /\
    Scene.well_formed group' /\
    Group.capacity group' = Group.capacity group /\
    Group.count group'
    = Z.min (Group.count group + Z.of_nat (length items)) (Group.capacity group) /\
    Scene.contents group'
    = Scene.contents group
        ++ take (Z.to_nat (Group.capacity group - Group.count group)) items.
Proof.
  intros Hwf. exact (add_all_contents items group Hwf).
Qed.

Lemma adds_fill_in_order_witness :
  let c := Group.sprite (ArcadeSprite.mk (F32.of_int 100) (F32.of_int 500)
                           (F32.of_int 200) (F32.of_int 20) F32.zero F32.zero 65280 1) in
  let i := Group.image_sprite (Body.scenario (F32.of_int 560) F32.zero None) in
  let group := Group.mk [i; i] [7; 7] 0 2 in
  let items := [(c, Group.SPRITE_COLOR); (i, Group.SPRITE_IMAGE); (c, Group.SPRITE_COLOR)] in
  Scene.well_formed group /\
  exists group',
    Scene.add_all items group = UB.Done group' /\
    Group.count group' = 2 /\
    Scene.contents group' = [(c, Group.SPRITE_COLOR); (i, Group.SPRITE_IMAGE)].
Proof.
  intros c i group items.
  assert (Hwf : Scene.well_formed group).
  { unfold Scene.well_formed, Int.in_range, Int.min_signed, Int.max_signed. simpl. lia. }
  split; [exact Hwf|].
  destruct (adds_fill_in_order items group Hwf) as (g' & Hrun & _ & _ & Hc & Hcont).
  exists g'. split; [exact Hrun|]. split; [exact Hc|exact Hcont].
Defined.

(** X19: [arcade_add_animated_to_group] on an animation that holds its
    frames and whose frame index is in range is defined; it adds a copy of
    the displayed frame as an image sprite when the first frame is active
    and the group has room, and leaves the group as it is otherwise, also
    for a null animation. *)
Theorem add_animated_adds_displayed_frame (group : Group.SpriteGroup)
    (a : ArcadeAnimatedSprite.t) :
  Scene.well_formed group -> Anim.well_formed a ->
  0 <= ArcadeAnimatedSprite.current_frame a < ArcadeAnimatedSprite.frame_count a ->
  Scene.arcade_add_animated_to_group group None = UB.Done group /\
  exists group' cur,
    Scene.arcade_add_animated_to_group group (Some a) = UB.Done group' /\
    Animated.displayed a = Some cur /\
    Scene.well_formed group' /\
    (Anim.first_active a -> Group.count group < Group.capacity group ->
     Scene.contents group'
     = Scene.contents group ++ [(Group.image_sprite cur, Group.SPRITE_IMAGE)]) /\
    (~ Anim.first_active a \/ Group.count group = Group.capacity group ->
     group' = group).
Proof.
  intros Hg Hwf Hcur. split; [reflexivity|].
  destruct a as [fr count cur interval ctr].
  destruct Hwf as (Hrc & Hri & block & frames & Hfr & Hlen).
  simpl in Hrc, Hri, Hfr, Hlen, Hcur. subst fr.
  destruct (lookup_lt_is_Some_2 frames 0%nat) as [f0 Hf0]; [lia|].
  destruct (lookup_lt_is_Some_2 frames (Z.to_nat cur)) as [c Hc]; [lia|].
  unfold Scene.arcade_add_animated_to_group, Animated.displayed.
  cbn [ArcadeAnimatedSprite.frames ArcadeAnimatedSprite.current_frame].
  rewrite (LoopFacts.array_get_done frames 0 f0) by (try lia; exact Hf0).
  cbn [UB.bind].
  destruct (Z.eqb_spec (ArcadeImageSprite.active f0) 0) as [Hoff|Hon].
  - exists group, c. split; [reflexivity|]. split; [exact Hc|]. split; [exact Hg|].
    split; [|reflexivity].
    intros (b & fs & g0 & Heq & Hg0 & Hact) _. simpl in Heq. injection Heq as <- <-.
    rewrite Hf0 in Hg0. injection Hg0 as <-. contradiction.
  - rewrite (LoopFacts.array_get_done frames cur c (proj1 Hcur) Hc). cbn [UB.bind].
    destruct (Z.lt_ge_cases (Group.count group) (Group.capacity group)) as [Hroom|Hfull].
    + destruct (add_appends group (Group.image_sprite c) Group.SPRITE_IMAGE Hg Hroom)
        as (g1 & -> & Hwf1 & Hc1 & _ & Hcont1).
      exists g1, c. split; [reflexivity|]. split; [exact Hc|]. split; [exact Hwf1|].
      split; [intros _ _; exact Hcont1|].
      intros [Hna|Heq]; [|lia]. exfalso. apply Hna.
      exists block, frames, f0. split; [reflexivity|]. now split.
    + exists group, c. unfold Group.arcade_add_sprite_to_group.
      destruct (Z.ltb_spec (Group.count group) (Group.capacity group)); [lia|].
      split; [reflexivity|]. split; [exact Hc|]. split; [exact Hg|].
      split; [intros _ Hlt; lia|reflexivity].
Qed.

Lemma add_animated_adds_displayed_frame_witness :
  let group := Group.mk (replicate 2 (Group.image_sprite Loader.blank)) [0; 0] 0 2 in
  (Scene.well_formed group /\ Anim.well_formed Anim.bird /\
   0 <= ArcadeAnimatedSprite.current_frame Anim.bird
     < ArcadeAnimatedSprite.frame_count Anim.bird) /\
  exists group',
    Scene.arcade_add_animated_to_group group (Some Anim.bird) = UB.Done group' /\
    Group.count group' = 1.
Proof.
  intros group.
  assert (Hg : Scene.well_formed group).
  { unfold Scene.well_formed, Int.in_range, Int.min_signed, Int.max_signed. simpl. lia. }
  assert (Hinv : 0 <= ArcadeAnimatedSprite.current_frame Anim.bird
                 < ArcadeAnimatedSprite.frame_count Anim.bird) by (simpl; lia).
  split; [exact (conj Hg (conj AnimFacts.bird_well_formed Hinv))|].
  destruct (add_animated_adds_displayed_frame group Anim.bird Hg
              AnimFacts.bird_well_formed Hinv) as (_ & g' & cur & Hrun & _).
  exists g'. split; [exact Hrun|].
  vm_compute in Hrun. injection Hrun as <-. reflexivity.
Defined.

(** X20: a group that was filled by successive additions of drawable
    sprites (each stored in the union member its type names, with the
    casts of its position and size to [int] defined) is drawn by
    [arcade_render_group] as the scene of the sprites that fitted, in the
    order in which they were added: every pixel of the window gets the
    colour of the last added sprite that paints it and the background
    colour when none does, and a sprite that was added to the full group
    is not drawn. *)
Theorem render_filled_group (items : list (Group.ArcadeAnySprite * Z))
    (capacity : Z) (sprites : list Group.ArcadeAnySprite) (types : list Z)
    (st : Render.State) :
  Scene.well_formed (Group.mk sprites types 0 capacity) ->
  Render.well_formed st ->
  Forall (fun e => Render.drawable (fst e) (snd e)) items ->
  exists group st',
    Scene.add_all items (Group.mk sprites types 0 capacity) = UB.Done group /\
    Render.arcade_render_group group st = UB.Done st' /\
    Render.well_formed st' /\
    forall px py, 0 <= px < Render.width st -> 0 <= py < Render.height st ->
      Render.at_xy st' px py
      = Some (Render.composite (take (Z.to_nat capacity) items)
                (Render.bg_color st) px py).
Proof.
  intros Hg Hst Hall.
  destruct (add_all_contents items _ Hg) as (g' & Hrun & Hwf' & Hcap & Hc & Hcont).
  cbn [Group.count Group.capacity] in Hcap, Hc, Hcont.
  assert (Hscene : Scene.contents g' = take (Z.to_nat capacity) items).
  { rewrite Hcont. unfold Scene.contents, Render.scene. cbn [Group.count].
    change (Z.to_nat 0) with 0%nat. rewrite take_0, Z.sub_0_r. reflexivity. }
  destruct Hwf' as (Hcnt & Hr & Hls & Hlt).
  destruct (RenderFacts.render_scene_pixels (Group.sprites g') (Group.count g')
              (Group.types g') st Hst ltac:(lia) ltac:(lia))
    as (st' & Hrender & Hwfst & _ & _ & _ & Hpix).
  { change (Render.scene (Group.sprites g') (Group.count g') (Group.types g'))
      with (Scene.contents g').
    rewrite Hscene. apply Forall_take. exact Hall. }
  exists g', st'. split; [exact Hrun|]. split; [exact Hrender|]. split; [exact Hwfst|].
  intros px py Hpx Hpy. rewrite (Hpix px py Hpx Hpy).
  change (Render.scene (Group.sprites g') (Group.count g') (Group.types g'))
    with (Scene.contents g').
  now rewrite Hscene.
Qed.

Lemma render_filled_group_witness :
  let st := Render.mk (replicate 12 99) 4 3 7 in
  let green := Group.sprite (ArcadeSprite.mk F32.zero F32.zero (F32.of_int 2)
                               (F32.of_int 2) F32.zero F32.zero 65280 1) in
  let red := Group.sprite (ArcadeSprite.mk F32.zero F32.zero (F32.of_int 4)
                             (F32.of_int 3) F32.zero F32.zero 16711680 1) in
  let items := [(green, Group.SPRITE_COLOR); (red, Group.SPRITE_COLOR)] in
  (Scene.well_formed (Group.mk [red] [5] 0 1) /\ Render.well_formed st /\
   Forall (fun e => Render.drawable (fst e) (snd e)) items) /\
  exists group st',
    Scene.add_all items (Group.mk [red] [5] 0 1) = UB.Done group /\
    Render.arcade_render_group group st = UB.Done st' /\
    Render.at_xy st' 1 1 = Some 65280 /\
    Render.at_xy st' 3 2 = Some 7.
Proof.
  intros st green red items.
  assert (Hg : Scene.well_formed (Group.mk [red] [5] 0 1)).
  { unfold Scene.well_formed, Int.in_range, Int.min_signed, Int.max_signed. simpl. lia. }
  assert (Hst : Render.well_formed st).
  { unfold Render.well_formed, Int.in_range. vm_compute. intuition discriminate. }
  assert (Hall : Forall (fun e => Render.drawable (fst e) (snd e)) items).
  { apply Forall_cons_2; [|apply Forall_cons_2; [|apply Forall_nil_2]].
    - split; [discriminate|]. intros _ _. exists 0, 0, 2, 2.
      unfold Int.in_range. vm_compute. intuition discriminate.
    - split; [discriminate|]. intros _ _. exists 0, 0, 4, 3.
      unfold Int.in_range. vm_compute. intuition discriminate. }
  split; [exact (conj Hg (conj Hst Hall))|].
  destruct (render_filled_group items 1 [red] [5] st Hg Hst Hall)
    as (g' & st' & Hrun & Hrender & _ & Hpix).
  exists g', st'. split; [exact Hrun|]. split; [exact Hrender|]. split.
  - rewrite (Hpix 1 1) by (simpl; lia). reflexivity.
  - rewrite (Hpix 3 2) by (simpl; lia). reflexivity.
Defined.

End SceneFacts.

(** ** Blinking text *)

Module TextFacts.

Lemma mod_double (c n : Z) :
  0 <= c -> 0 < n ->
  c mod (2 * n) = (if Z.even (c / n) then 0 else n) + c mod n.
Proof.
  intros Hc Hn.
  pose proof (Z.div_mod c n ltac:(lia)) as Hdm.
  pose proof (Z.mod_pos_bound c n Hn) as Hr.
  pose proof (Z.div_pos c n Hc Hn) as Hq.
  destruct (Z.even (c / n)) eqn:Hev.
  - apply Z.even_spec in Hev as [k Hk].
    symmetry. apply (Z.mod_unique c (2 * n) k); [lia|]. rewrite Hk in Hdm. lia.
  - assert (Hodd : Z.odd (c / n) = true) by (rewrite <- Z.negb_even, Hev; reflexivity).
    apply Z.odd_spec in Hodd as [k Hk].
    symmetry. apply (Z.mod_unique c (2 * n) k); [lia|]. rewrite Hk in Hdm. lia.
Qed.

(** X21: with a positive interval the blinking text is drawn during the
    first [blink_interval] frames of every [2 * blink_interval] frames:
    in frame [c] it is drawn exactly when [c / blink_interval] is even, and
    the test has period [2 * blink_interval].  With a negative interval
    the text is never drawn, and with the interval 0 the test divides by
    zero. *)
Theorem blink_is_a_square_wave (counter interval : Z) :
  0 <= counter -> Int.in_range (2 * interval) ->
  (0 < interval ->
   Text.blink_shown counter interval = UB.Done (Z.even (counter / interval)) /\
   Text.blink_shown (counter + 2 * interval) interval
   = Text.blink_shown counter interval) /\
  (interval < 0 -> Text.blink_shown counter interval = UB.Done false) /\
  Text.blink_shown counter 0 = UB.Undefined.
Proof.
  intros Hc Hr. split; [|split; [|reflexivity]].
  - intros Hn.
    assert (Hshown : forall c, 0 <= c ->
              Text.blink_shown c interval = UB.Done (Z.even (c / interval))).
    { intros c Hc0. unfold Text.blink_shown. cbv zeta.
      destruct Hr as [Hlo Hhi].
      destruct (Z.leb_spec Int.min_signed (2 * interval)); [|lia].
      destruct (Z.leb_spec (2 * interval) Int.max_signed); [|lia].
      cbn [andb].
      destruct (Z.eqb_spec (2 * interval) 0) as [|_]; [lia|].
      unfold Int.rem. rewrite Z.rem_mod_nonneg by lia.
      rewrite (mod_double c interval Hc0 Hn).
      pose proof (Z.mod_pos_bound c interval Hn).
      destruct (Z.even (c / interval)); f_equal.
      - apply Z.ltb_lt. lia.
      - apply Z.ltb_ge. lia. }
    split; [apply Hshown; exact Hc|].
    rewrite !Hshown by lia. f_equal.
    replace ((counter + 2 * interval) / interval) with (counter / interval + 2)
      by (rewrite Z.div_add by lia; reflexivity).
    rewrite Z.even_add. now destruct (Z.even (counter / interval)).
  - intros Hneg. unfold Text.blink_shown. cbv zeta.
    destruct Hr as [Hlo Hhi].
    destruct (Z.leb_spec Int.min_signed (2 * interval)); [|lia].
    destruct (Z.leb_spec (2 * interval) Int.max_signed); [|lia].
    cbn [andb].
    destruct (Z.eqb_spec (2 * interval) 0) as [|_]; [lia|].
    f_equal. apply Z.ltb_ge. unfold Int.rem.
    pose proof (Z.rem_nonneg counter (2 * interval) ltac:(lia) Hc). lia.
Qed.

Lemma blink_is_a_square_wave_witness :
  (0 <= 47 /\ Int.in_range (2 * 30)) /\
  Text.blink_shown 47 30 = UB.Done false /\
  Text.blink_shown 107 30 = UB.Done false /\
  Text.blink_shown 47 (-30) = UB.Done false.
Proof.
  assert (H1 : 0 <= 47) by lia.
  assert (H2 : Int.in_range (2 * 30))
    by (unfold Int.in_range, Int.min_signed, Int.max_signed; lia).
  split; [exact (conj H1 H2)|].
  destruct (blink_is_a_square_wave 47 30 H1 H2) as (Hpos & _ & _).
  destruct (Hpos ltac:(lia)) as [Hshown Hperiod].
  split; [exact Hshown|]. split; [|reflexivity].
  change 107 with (47 + 2 * 30). rewrite Hperiod. exact Hshown.
Defined.

End TextFacts.

(** ** Packed pixels *)

Module PixelFacts.

Lemma lor_disjoint (u v k : Z) :
  0 <= k -> 0 <= v < 2 ^ k -> Z.lor (u * 2 ^ k) v = u * 2 ^ k + v.
Proof.
  intros Hk Hv.
  assert (Hland : Z.land (u * 2 ^ k) v = 0).
  { apply Z.bits_inj'. intros n Hn. rewrite Z.land_spec, Z.bits_0.
    destruct (Z.lt_ge_cases n k) as [Hlt|Hge].
    - now rewrite Z.mul_pow2_bits_low.
    - rewrite <- (Z.mod_small v (2 ^ k)) by exact Hv.
      rewrite Z.mod_pow2_bits_high by lia. apply andb_false_r. }
  pose proof (Z.add_lor_land (u * 2 ^ k) v) as Hadd. lia.
Qed.

(** The value that the repacking loop stores for the bytes R, G, B, A. *)
Lemma pack_value (r g b a : Z) :
  0 <= r < 256 -> 0 <= g < 256 -> 0 <= b < 256 -> 0 <= a < 256 ->
  Z.lor (Z.lor (Z.lor (Z.shiftl r 16) (Z.shiftl g 8)) b) (Z.shiftl a 24) mod 2 ^ 32
  = Pixel.argb a r g b.
Proof.
  intros Hr Hg Hb Ha. unfold Pixel.argb. rewrite !Z.shiftl_mul_pow2 by lia.
  assert (H1 : Z.lor (r * 2 ^ 16) (g * 2 ^ 8) = r * 2 ^ 16 + g * 2 ^ 8)
    by (apply lor_disjoint; lia).
  assert (H2 : Z.lor (r * 2 ^ 16 + g * 2 ^ 8) b = r * 2 ^ 16 + g * 2 ^ 8 + b).
  { replace (r * 2 ^ 16 + g * 2 ^ 8) with ((r * 256 + g) * 2 ^ 8) by lia.
    apply lor_disjoint; lia. }
  assert (H3 : Z.lor (a * 2 ^ 24) (r * 2 ^ 16 + g * 2 ^ 8 + b)
               = a * 2 ^ 24 + (r * 2 ^ 16 + g * 2 ^ 8 + b))
    by (apply lor_disjoint; lia).
  rewrite H1, H2, Z.lor_comm, H3. rewrite Z.mod_small by lia. lia.
Qed.

Lemma argb_alpha (r g b a : Z) :
  0 <= r < 256 -> 0 <= g < 256 -> 0 <= b < 256 ->
  Z.shiftr (Pixel.argb a r g b) 24 = a.
Proof.
  intros Hr Hg Hb. unfold Pixel.argb. rewrite Z.shiftr_div_pow2 by lia.
  replace (a * 2 ^ 24 + r * 2 ^ 16 + g * 2 ^ 8 + b)
    with (r * 2 ^ 16 + g * 2 ^ 8 + b + a * 2 ^ 24) by lia.
  rewrite Z.div_add by lia. rewrite Z.div_small by lia. lia.
Qed.

Lemma load_byte (data : list Z) (i : Z) :
  Pixel.bytes data -> 0 <= i < Z.of_nat (length data) -> 0 <= Loop.load data i < 256.
Proof.
  intros Hb Hi. unfold Loop.load.
  destruct (lookup_lt_is_Some_2 data (Z.to_nat i)) as [v Hv]; [lia|].
  rewrite (list_lookup_total_correct _ _ _ Hv).
  exact (proj1 (Forall_lookup _ _) Hb _ _ Hv).
Qed.

(** X22: the repacking loop of [load_image_sprite] fills the whole pixel
    buffer, one pixel per four bytes of the resized image: the pixel at
    column x of row y is [0xAARRGGBB] for the bytes R, G, B, A at
    [(y * target_width + x) * 4], so that its top byte, the one that
    [draw_sprite] tests, is the alpha byte of the image. *)
Theorem pack_pixels_spec (target_width target_height : Z) (resized_data : list Z)
    (x y : Z) :
  Pixel.bytes resized_data ->
  target_width * target_height * 4 <= Z.of_nat (length resized_data) ->
  0 <= x < target_width -> 0 <= y < target_height ->
  let pixels :=
    Loader.pack_pixels target_width target_height resized_data
      (replicate (Z.to_nat (target_width * target_height)) 0) in
  let idx := (y * target_width + x) * 4 in
  Z.of_nat (length pixels) = target_width * target_height /\
  Loop.load pixels (y * target_width + x)
  = Pixel.argb (Loop.load resized_data (idx + 3)) (Loop.load resized_data idx)
      (Loop.load resized_data (idx + 1)) (Loop.load resized_data (idx + 2)) /\
  Z.shiftr (Loop.load pixels (y * target_width + x)) 24
  = Loop.load resized_data (idx + 3).
Proof.
  intros Hbytes Hlen Hx Hy pixels idx.
  set (value := fun x' y' =>
         Pixel.argb (Loop.load resized_data ((y' * target_width + x') * 4 + 3))
           (Loop.load resized_data ((y' * target_width + x') * 4))
           (Loop.load resized_data ((y' * target_width + x') * 4 + 1))
           (Loop.load resized_data ((y' * target_width + x') * 4 + 2))).
  set (L := Z.to_nat (target_width * target_height)).
  assert (HL : Z.of_nat L = target_width * target_height) by (unfold L; nia).
  assert (Hinv :
    length pixels = L /\
    forall x' y', 0 <= x' < target_width -> 0 <= y' < target_height ->
                  y' < target_height ->
                  pixels !! Z.to_nat (y' * target_width + x') = Some (value x' y')).
  { unfold pixels, Loader.pack_pixels.
    apply (LoopFacts.for_loop_ind
      (fun j (buf : list Z) =>
         length buf = L /\
         forall x' y', 0 <= x' < target_width -> 0 <= y' < target_height -> y' < j ->
                       buf !! Z.to_nat (y' * target_width + x') = Some (value x' y')));
      [lia| |].
    { split; [apply length_replicate|]. intros x' y' _ Hy' Hlt. lia. }
    intros j buf Hj [Hl Hbuf].
    assert (Hrow :
      length (Loop.for_loop target_width (fun x0 pixels0 =>
                Loop.store pixels0 (j * target_width + x0)
                  (Z.lor (Z.lor (Z.lor
                     (Z.shiftl (Loop.load resized_data ((j * target_width + x0) * 4)) 16)
                     (Z.shiftl (Loop.load resized_data ((j * target_width + x0) * 4 + 1)) 8))
                     (Loop.load resized_data ((j * target_width + x0) * 4 + 2)))
                     (Z.shiftl (Loop.load resized_data ((j * target_width + x0) * 4 + 3)) 24)
                   mod 2 ^ 32)) buf) = L /\
      forall x' y', 0 <= x' < target_width -> 0 <= y' < target_height ->
                    y' < j \/ (y' = j /\ x' < target_width) ->
                    Loop.for_loop target_width (fun x0 pixels0 =>
                      Loop.store pixels0 (j * target_width + x0)
                        (Z.lor (Z.lor (Z.lor
                           (Z.shiftl (Loop.load resized_data ((j * target_width + x0) * 4)) 16)
                           (Z.shiftl (Loop.load resized_data ((j * target_width + x0) * 4 + 1)) 8))
                           (Loop.load resized_data ((j * target_width + x0) * 4 + 2)))
                           (Z.shiftl (Loop.load resized_data ((j * target_width + x0) * 4 + 3)) 24)
                         mod 2 ^ 32)) buf
                    !! Z.to_nat (y' * target_width + x') = Some (value x' y')).
    { apply (LoopFacts.for_loop_ind
        (fun k (b : list Z) =>
           length b = L /\
           forall x' y', 0 <= x' < target_width -> 0 <= y' < target_height ->
                         y' < j \/ (y' = j /\ x' < k) ->
                         b !! Z.to_nat (y' * target_width + x') = Some (value x' y')));
        [lia| |].
      { split; [exact Hl|]. intros x' y' Hx' Hy' [Hlt|[_ Hlt]]; [|lia].
        now apply Hbuf. }
      intros k b Hk [Hlb Hb]. unfold Loop.store. split; [now rewrite length_insert|].
      intros x' y' Hx' Hy' Hdone.
      pose proof (RenderFacts.index_lt target_width target_height k j Hk Hj) as Hkj.
      destruct (Z.eq_dec (y' * target_width + x') (j * target_width + k)) as [Heq|Hne].
      - destruct (RenderFacts.index_inj target_width x' y' k j Hx' Hk Heq) as [-> ->].
        rewrite list_lookup_insert_eq by lia. f_equal. unfold value.
        apply pack_value; apply load_byte; try exact Hbytes; lia.
      - pose proof (RenderFacts.index_lt target_width target_height x' y' Hx' Hy').
        rewrite list_lookup_insert_ne by lia. apply Hb; try assumption.
        destruct Hdone as [Hlt|[-> Hlt]]; [now left|].
        right. split; [reflexivity|].
        assert (x' <> k) by (intros ->; contradiction). lia. }
    destruct Hrow as [Hrl Hrow]. split; [exact Hrl|].
    intros x' y' Hx' Hy' Hlt. apply Hrow; try assumption.
    destruct (Z.eq_dec y' j) as [->|]; [right; split; [reflexivity|lia]|left; lia]. }
  destruct Hinv as [Hl Hpix]. split; [lia|].
  assert (Hload : Loop.load pixels (y * target_width + x) = value x y).
  { unfold Loop.load. apply list_lookup_total_correct. apply Hpix; lia. }
  split; [exact Hload|]. rewrite Hload. unfold value.
  pose proof (RenderFacts.index_lt target_width target_height x y Hx Hy) as Hxy.
  apply argb_alpha; apply load_byte; try exact Hbytes; lia.
Qed.

Lemma pack_pixels_spec_witness :
  let data := [255; 0; 0; 255; 0; 255; 0; 0] in
  (Pixel.bytes data /\ 2 * 1 * 4 <= Z.of_nat (length data) /\ 0 <= 1 < 2 /\ 0 <= 0 < 1) /\
  Loop.load (Loader.pack_pixels 2 1 data (replicate (Z.to_nat (2 * 1)) 0)) (0 * 2 + 1)
  = Pixel.argb 0 0 255 0.
Proof.
  intros data.
  assert (H1 : Pixel.bytes data) by (repeat constructor; lia).
  assert (H2 : 2 * 1 * 4 <= Z.of_nat (length data)) by (simpl; lia).
  assert (H3 : 0 <= 1 < 2) by lia.
  assert (H4 : 0 <= 0 < 1) by lia.
  split; [exact (conj H1 (conj H2 (conj H3 H4)))|].
  exact (proj1 (proj2 (pack_pixels_spec 2 1 data 1 0 H1 H2 H3 H4))).
Defined.

Lemma for_loop_length (n : Z) (body : Z -> list Z -> list Z) (buf : list Z) :
  (forall i b, length (body i b) = length b) ->
  length (Loop.for_loop n body buf) = length buf.
Proof.
  intros Hbody. unfold Loop.for_loop. generalize (seq 0 (Z.to_nat n)). intros l.
  revert buf. induction l as [|i l IH]; intros buf; [reflexivity|].
  simpl. now rewrite IH, Hbody.
Qed.

Lemma pack_pixels_length (tw th : Z) (data buf : list Z) :
  length (Loader.pack_pixels tw th data buf) = length buf.
Proof.
  unfold Loader.pack_pixels. apply for_loop_length. intros y b.
  apply for_loop_length. intros x b'. unfold Loop.store. apply length_insert.
Qed.

(** The sizes that the loader records in a sprite with a pixel buffer. *)
Lemma created_sprite_sizes (E : Stb.env) (x y w h : F32.float)
    (filename : option string) (hp : Heap.t) (p : nat) (data : list Z) :
  let s := fst (Loader.arcade_create_image_sprite E x y w h filename hp) in
  ArcadeImageSprite.pixels s = Some (p, data) ->
  ArcadeImageSprite.image_width s = F32.to_int w /\
  ArcadeImageSprite.image_height s = F32.to_int h /\
  ArcadeImageSprite.width s = F32.of_int (F32.to_int w) /\
  ArcadeImageSprite.height s = F32.of_int (F32.to_int h) /\
  length data = Z.to_nat (F32.to_int w * F32.to_int h) /\
  ArcadeImageSprite.vx s = F32.zero /\ ArcadeImageSprite.vy s = F32.zero /\
  ArcadeImageSprite.active s = 1.
Proof.
  intros s. subst s. unfold Loader.arcade_create_image_sprite.
  destruct filename as [fn|]; [|discriminate].
  unfold Loader.load_image_sprite, Stb.stbi_load.
  destruct (Stb.files E fn) as [img|]; [|discriminate].
  destruct (Heap.malloc hp) as [[d|] h1]; [|discriminate].
  destruct (Heap.malloc h1) as [[r|] h2]; [|discriminate].
  destruct (Stb.resize E _ _ _ _ _) as [resized|]; [|discriminate].
  destruct (Heap.malloc h2) as [[px|] h3]; [|discriminate].
  cbn [fst Z.eqb]. cbn [ArcadeImageSprite.pixels ArcadeImageSprite.set_active
    ArcadeImageSprite.set_height ArcadeImageSprite.set_width ArcadeImageSprite.set_pixels
    ArcadeImageSprite.set_image_height ArcadeImageSprite.set_image_width
    ArcadeImageSprite.image_width ArcadeImageSprite.image_height ArcadeImageSprite.width
    ArcadeImageSprite.height ArcadeImageSprite.vx ArcadeImageSprite.vy
    ArcadeImageSprite.active ArcadeImageSprite.x ArcadeImageSprite.y].
  intros Hpix. injection Hpix as <- <-.
  rewrite pack_pixels_length, length_replicate. repeat split.
Qed.

(** X23: for a width and a height whose casts [(int)w] and [(int)h] are
    defined and whose product times 4, the size in bytes that the loader
    computes on [int], is an [int], [arcade_create_image_sprite] returns
    (its casts and size computations are in range and every release is
    of a live block), and a sprite that it returns with a pixel buffer
    has the requested size in both of its size records: the size is not
    negative, the image dimensions are [(int)w] and [(int)h], width and
    height are these integers as floats, and the buffer holds exactly
    [image_width * image_height] pixels, which is what the reads of
    [draw_sprite] rely on.  Its velocity is zero and it is active. *)
Theorem loaded_sprite_buffer (E : Stb.env) (x y w h : F32.float)
    (filename : option string) (hp : Heap.t) (tw th : Z) :
  Cast.int_of_float w = UB.Done tw ->
  Cast.int_of_float h = UB.Done th ->
  Int.in_range (tw * th * 4) ->
  exists s hp',
    Strict.arcade_create_image_sprite E x y w h filename hp = UB.Done (s, hp') /\
    forall p data,
      ArcadeImageSprite.pixels s = Some (p, data) ->
      0 <= tw * th /\
      ArcadeImageSprite.image_width s = tw /\
      ArcadeImageSprite.image_height s = th /\
      ArcadeImageSprite.width s = F32.of_int tw /\
      ArcadeImageSprite.height s = F32.of_int th /\
      Z.of_nat (length data) = ArcadeImageSprite.image_width s
                               * ArcadeImageSprite.image_height s /\
      ArcadeImageSprite.vx s = F32.zero /\ ArcadeImageSprite.vy s = F32.zero /\
      ArcadeImageSprite.active s = 1.
Proof.
  intros Hw Hh Hr.
  destruct (StrictFacts.create_spec E x y w h filename hp tw th Hw Hh Hr)
    as (s & hp' & Hrun & _ & _ & _ & Hcases).
  exists s, hp'. split; [exact Hrun|]. intros p data Hpix.
  destruct Hcases as [[Hnone _]|(_ & Hpos & Heq & _)]; [congruence|].
  pose proof (created_sprite_sizes E x y w h filename hp p data) as Hsizes.
  rewrite <- Heq in Hsizes. cbn [fst] in Hsizes.
  rewrite (RenderFacts.cast_to_int _ _ Hw), (RenderFacts.cast_to_int _ _ Hh) in Hsizes.
  destruct (Hsizes Hpix) as (Hiw & Hih & Hfw & Hfh & Hlen & Hvx & Hvy & Hact).
  split; [exact Hpos|]. split; [exact Hiw|]. split; [exact Hih|].
  split; [exact Hfw|]. split; [exact Hfh|].
  split; [rewrite Hlen, Hiw, Hih; lia|]. now repeat split.
Qed.

Lemma loaded_sprite_buffer_witness :
  (Cast.int_of_float (F32.of_int 2) = UB.Done 2 /\
   Cast.int_of_float (F32.of_int 3) = UB.Done 3 /\
   Int.in_range (2 * 3 * 4)) /\
  exists s hp' data,
    Strict.arcade_create_image_sprite Loader.one_file (F32.of_int 1) (F32.of_int 1)
      (F32.of_int 2) (F32.of_int 3) (Some "bird.png"%string) Loader.empty_heap
    = UB.Done (s, hp') /\
    ArcadeImageSprite.pixels s = Some (2%nat, data) /\
    ArcadeImageSprite.image_width s = 2 /\ ArcadeImageSprite.image_height s = 3 /\
    Z.of_nat (length data) = 6.
Proof.
  assert (H1 : Cast.int_of_float (F32.of_int 2) = UB.Done 2) by (vm_compute; reflexivity).
  assert (H2 : Cast.int_of_float (F32.of_int 3) = UB.Done 3) by (vm_compute; reflexivity).
  assert (H3 : Int.in_range (2 * 3 * 4)).
  { unfold Int.in_range, Int.min_signed, Int.max_signed. lia. }
  split; [exact (conj H1 (conj H2 H3))|].
  destruct (loaded_sprite_buffer Loader.one_file (F32.of_int 1) (F32.of_int 1)
              (F32.of_int 2) (F32.of_int 3) (Some "bird.png"%string) Loader.empty_heap
              2 3 H1 H2 H3) as (s & hp' & Hrun & Hsizes).
  assert (Hpix : exists data, ArcadeImageSprite.pixels s = Some (2%nat, data)).
  { vm_compute in Hrun. injection Hrun as <- _. eexists. reflexivity. }
  destruct Hpix as [data Hpix].
  destruct (Hsizes 2%nat data Hpix) as (_ & Hiw & Hih & _ & _ & Hlen & _).
  exists s, hp', data. split; [exact Hrun|]. split; [exact Hpix|].
  split; [exact Hiw|]. split; [exact Hih|]. rewrite Hlen, Hiw, Hih. reflexivity.
Defined.

End PixelFacts.

(** ** Flappy Bird: the life of a pipe pair *)

Module PipesFacts.

Lemma free_pipe_owned (pipes : list FlappyBird.Pipe) (hp : Heap.t) (i : Z)
    (p : FlappyBird.Pipe) (b : nat) :
  0 <= i -> pipes !! Z.to_nat i = Some p -> Pipes.block_of p = Some b ->
  b ∈ Heap.live hp ->
  exists p', Pipes.free_pipe i (pipes, hp)
             = UB.Done (<[Z.to_nat i := p']> pipes, Heap.free b hp) /\
             Pipes.block_of p' = None /\
             ArcadeImageSprite.active (FlappyBird.sprite p') = 0.
Proof.
  intros Hi Hp Hb Hlive. unfold Pipes.free_pipe. cbn [fst snd].
  rewrite (LoopFacts.array_get_done pipes i p Hi Hp). cbn [UB.bind].
  unfold Pipes.block_of in Hb.
  destruct (ArcadeImageSprite.pixels (FlappyBird.sprite p)) as [[b' d]|] eqn:Hpix;
    [|discriminate Hb].
  simpl in Hb. injection Hb as ->.
  destruct (StrictFacts.free_sprite_owned (FlappyBird.sprite p) b d hp Hpix Hlive)
    as (s' & -> & Hnone & Hoff).
  cbn [UB.bind].
  rewrite LoopFacts.array_set_done by (apply lookup_lt_Some in Hp; lia).
  cbn [UB.bind]. eexists. split; [reflexivity|].
  unfold Pipes.block_of. cbn [FlappyBird.sprite]. rewrite Hnone. now split.
Qed.

(** The loop that moves the pipes two places down. *)
Lemma shift_loop (n : Z) (pipes : list FlappyBird.Pipe) :
  0 <= n -> n + 2 <= Z.of_nat (length pipes) ->
  exists pipes',
    Loop.for_loop_ub n (fun i pipes =>
      let? p := UB.array_get pipes (i + 2) in
      UB.array_set pipes i p) pipes = UB.Done pipes' /\
    length pipes' = length pipes /\
    forall k, (k < Z.to_nat n)%nat -> pipes' !! k = pipes !! (k + 2)%nat.
Proof.
  intros Hn Hlen.
  destruct (LoopFacts.for_loop_ub_ind
    (fun j (q : list FlappyBird.Pipe) =>
       length q = length pipes /\
       (forall k, (k < Z.to_nat j)%nat -> q !! k = pipes !! (k + 2)%nat) /\
       (forall k, (Z.to_nat j <= k)%nat -> q !! k = pipes !! k))
    n (fun i pipes => let? p := UB.array_get pipes (i + 2) in UB.array_set pipes i p)
    pipes Hn) as (q & Hrun & Hl & Hq & _).
  - split; [reflexivity|]. split; [intros k Hk; lia|reflexivity].
  - intros i q Hi (Hl & Hlow & Hhigh).
    destruct (lookup_lt_is_Some_2 pipes (Z.to_nat (i + 2))) as [p Hp]; [lia|].
    rewrite (LoopFacts.array_get_done q (i + 2) p) by (try lia; rewrite Hhigh by lia; exact Hp).
    cbn [UB.bind]. rewrite LoopFacts.array_set_done by lia.
    eexists. split; [reflexivity|]. split; [now rewrite length_insert|]. split.
    + intros k Hk. destruct (decide (k = Z.to_nat i)) as [->|Hne].
      * rewrite list_lookup_insert_eq by lia. rewrite <- Hp. f_equal. lia.
      * rewrite list_lookup_insert_ne by congruence. apply Hlow. lia.
    + intros k Hk. rewrite list_lookup_insert_ne by lia. apply Hhigh. lia.
  - exists q. split; [exact Hrun|]. split; [exact Hl|exact Hq].
Qed.

Lemma blocks_lookup (pipes : list FlappyBird.Pipe) (n : nat) (blocks : list nat) (i : nat)
    (b : nat) :
  Pipes.block_of <$> take n pipes = Some <$> blocks ->
  blocks !! i = Some b ->
  exists p, pipes !! i = Some p /\ Pipes.block_of p = Some b /\ (i < n)%nat.
Proof.
  intros Heq Hb.
  apply (f_equal (fun l => l !! i)) in Heq. rewrite !list_lookup_fmap, Hb in Heq.
  simpl in Heq.
  destruct (take n pipes !! i) as [p|] eqn:Hp; [|discriminate Heq].
  simpl in Heq. injection Heq as Hbp.
  apply lookup_take_Some in Hp as [Hp Hi]. exists p. now split.
Qed.

(** In a list without repetitions an entry does not occur before itself. *)
Lemma not_in_take (blocks : list nat) (i : nat) (b : nat) :
  NoDup blocks -> blocks !! i = Some b -> b ∉ take i blocks.
Proof.
  intros Hnd Hb Hin. rewrite <- (take_drop_middle blocks i b Hb) in Hnd.
  apply NoDup_app in Hnd as (_ & Hsep & _). apply (Hsep b Hin). apply list_elem_of_here.
Qed.

(** The loop that frees every pipe in use. *)
Lemma clear_pipes_loop (pipes : list FlappyBird.Pipe) (count : Z) (blocks : list nat)
    (hp : Heap.t) :
  0 <= count <= Z.of_nat (length pipes) ->
  Pipes.block_of <$> take (Z.to_nat count) pipes = Some <$> blocks ->
  NoDup blocks ->
  (forall b, b ∈ blocks -> b ∈ Heap.live hp) ->
  exists pipes' hp',
    Loop.for_loop_ub count Pipes.free_pipe (pipes, hp) = UB.Done (pipes', hp') /\
    length pipes' = length pipes /\
    Heap.live hp' = Heap.live hp ∖ list_to_set blocks /\
    (forall k p, (k < Z.to_nat count)%nat -> pipes' !! k = Some p ->
                 Pipes.block_of p = None /\
                 ArcadeImageSprite.active (FlappyBird.sprite p) = 0) /\
    (forall k, (Z.to_nat count <= k)%nat -> pipes' !! k = pipes !! k).
Proof.
  intros Hcount Hblocks Hnd Hown.
  assert (Hbl : length blocks = Z.to_nat count).
  { apply (f_equal length) in Hblocks. rewrite !length_fmap, length_take in Hblocks. lia. }
  destruct (LoopFacts.for_loop_ub_ind
    (fun j (st : list FlappyBird.Pipe * Heap.t) =>
       length (fst st) = length pipes /\
       (forall k, (Z.to_nat j <= k)%nat -> fst st !! k = pipes !! k) /\
       (forall k p, (k < Z.to_nat j)%nat -> fst st !! k = Some p ->
                    Pipes.block_of p = None /\
                    ArcadeImageSprite.active (FlappyBird.sprite p) = 0) /\
       Heap.live (snd st) = Heap.live hp ∖ list_to_set (take (Z.to_nat j) blocks))
    count Pipes.free_pipe (pipes, hp) (proj1 Hcount))
    as ([q hq] & Hrun & Hl & Hhigh & Hlow & Hlive).
  - split; [reflexivity|]. split; [reflexivity|]. split; [intros k p Hk; lia|].
    cbn [snd]. simpl. set_solver.
  - intros i [q hq] Hi (Hl & Hhigh & Hlow & Hlive). cbn [fst snd] in *.
    destruct (lookup_lt_is_Some_2 blocks (Z.to_nat i)) as [b Hb]; [lia|].
    destruct (blocks_lookup pipes _ blocks _ b Hblocks Hb) as (p & Hp & Hpb & _).
    destruct (free_pipe_owned q hq i p b (proj1 Hi)) as (p' & -> & Hnone & Hoff);
      [rewrite Hhigh by lia; exact Hp|exact Hpb| |].
    { rewrite Hlive. apply elem_of_difference. split.
      - apply Hown. apply (list_elem_of_lookup_2 _ _ _ Hb).
      - rewrite elem_of_list_to_set. exact (not_in_take blocks _ b Hnd Hb). }
    eexists. split; [reflexivity|]. cbn [fst snd]. split; [now rewrite length_insert|].
    split; [|split].
    + intros k Hk. rewrite list_lookup_insert_ne by lia. apply Hhigh. lia.
    + intros k r Hk Hr. destruct (decide (k = Z.to_nat i)) as [->|Hne].
      * rewrite list_lookup_insert_eq in Hr by lia. injection Hr as <-. now split.
      * rewrite list_lookup_insert_ne in Hr by congruence. apply (Hlow k r); [lia|exact Hr].
    + unfold Heap.free. cbn [Heap.live]. rewrite Hlive.
      replace (Z.to_nat (i + 1)) with (S (Z.to_nat i)) by lia.
      rewrite (take_S_r _ _ _ Hb), list_to_set_app_L. simpl. set_solver.
  - exists q, hq. cbn [fst snd] in *. split; [exact Hrun|]. split; [exact Hl|].
    split; [rewrite Hlive, take_ge by lia; reflexivity|]. split; [exact Hlow|exact Hhigh].
Qed.

(** Removing the first pair and clearing keep the pipes paired. *)
Lemma paired_steps (base : gset nat) (pipes : list FlappyBird.Pipe) (count : Z)
    (hp : Heap.t) :
  Pipes.paired base pipes count hp ->
  (exists pipes' count' hp',
     Pipes.remove_offscreen pipes count hp = UB.Done (pipes', count', hp') /\
     Pipes.paired base pipes' count' hp' /\
     forall p0, pipes !! 0%nat = Some p0 ->
       if negb (count =? 0) && Pipes.left_window p0
       then count' = count - 2 /\
            (forall k, (k < Z.to_nat (count - 2))%nat ->
                       pipes' !! k = pipes !! (k + 2)%nat) /\
            exists p1 b0 b1,
              pipes !! 1%nat = Some p1 /\
              Pipes.block_of p0 = Some b0 /\ Pipes.block_of p1 = Some b1 /\
              b0 <> b1 /\ b0 ∈ Heap.live hp /\ b1 ∈ Heap.live hp /\
              Heap.live hp' = Heap.live hp ∖ {[b0; b1]}
       else pipes' = pipes /\ count' = count /\ hp' = hp) /\
  (exists pipes' hp',
     Pipes.clear_pipes pipes count hp = UB.Done (pipes', 0, hp') /\
     Pipes.paired base pipes' 0 hp' /\
     Heap.live hp' = base /\
     (forall k p, (k < Z.to_nat count)%nat -> pipes' !! k = Some p ->
                  Pipes.block_of p = None /\
                  ArcadeImageSprite.active (FlappyBird.sprite p) = 0) /\
     (forall k, (Z.to_nat count <= k)%nat -> pipes' !! k = pipes !! k)).
Proof.
  intros Hpaired.
  pose proof Hpaired as (Hlen & Hcount & Heven & blocks & Hbl & Hnd & Hdisj & Hlive).
  unfold FlappyBird.MAX_PIPES in *.
  assert (Hblen : length blocks = Z.to_nat count).
  { apply (f_equal length) in Hbl. rewrite !length_fmap, length_take in Hbl. lia. }
  assert (Hown : forall b, b ∈ blocks -> b ∈ Heap.live hp).
  { intros b Hb. rewrite Hlive. set_solver. }
  split.
  - unfold Pipes.remove_offscreen.
    destruct (Z.eqb_spec count 0) as [H0|Hpos].
    { exists pipes, count, hp. split; [reflexivity|]. split; [exact Hpaired|].
      intros p0 _. cbn [negb andb]. now repeat split. }
    assert (H2 : 2 <= count).
    { destruct (Z.eq_dec count 1) as [->|]; [discriminate Heven|lia]. }
    destruct blocks as [|b0 [|b1 rest]]; try (simpl in Hblen; lia).
    destruct (blocks_lookup pipes _ _ 0%nat b0 Hbl eq_refl) as (p0 & Hp0 & Hb0 & _).
    destruct (blocks_lookup pipes _ _ 1%nat b1 Hbl eq_refl) as (p1 & Hp1 & Hb1 & _).
    rewrite (LoopFacts.array_get_done pipes 0 p0) by (try lia; exact Hp0).
    cbn [UB.bind].
    destruct (Pipes.left_window p0) eqn:Hleft.
    2:{ exists pipes, count, hp. split; [reflexivity|]. split; [exact Hpaired|].
        intros q0 Hq0. rewrite Hp0 in Hq0. injection Hq0 as <-. rewrite Hleft.
        rewrite andb_false_r. now repeat split. }
    apply NoDup_cons in Hnd as [Hn0 Hnd]. apply NoDup_cons in Hnd as [Hn1 Hnd].
    assert (Hne : b0 <> b1) by (intros ->; apply Hn0; apply list_elem_of_here).
    assert (Hin0 : b0 ∈ Heap.live hp) by (apply Hown; set_solver).
    assert (Hin1 : b1 ∈ Heap.live hp) by (apply Hown; set_solver).
    destruct (free_pipe_owned pipes hp 0 p0 b0 ltac:(lia) Hp0 Hb0 Hin0)
      as (p0' & -> & _ & _).
    cbn [UB.bind].
    destruct (free_pipe_owned (<[Z.to_nat 0 := p0']> pipes) (Heap.free b0 hp) 1 p1 b1
                ltac:(lia)) as (p1' & -> & _ & _);
      [rewrite list_lookup_insert_ne by lia; exact Hp1|exact Hb1| |].
    { unfold Heap.free. cbn [Heap.live]. set_solver. }
    cbn [UB.bind fst snd].
    destruct (shift_loop (count - 2) (<[Z.to_nat 1 := p1']> (<[Z.to_nat 0 := p0']> pipes)))
      as (pipes' & -> & Hl' & Hshift); [lia|rewrite !length_insert; lia|].
    cbn [UB.bind].
    rewrite (FlappyBirdFacts.small_count (count - 2)) by lia.
    assert (Hmoved : forall k, (k < Z.to_nat (count - 2))%nat ->
                               pipes' !! k = pipes !! (k + 2)%nat).
    { intros k Hk. rewrite (Hshift k Hk).
      rewrite !list_lookup_insert_ne by lia. reflexivity. }
    assert (Hlive' : Heap.live (Heap.free b1 (Heap.free b0 hp))
                     = Heap.live hp ∖ {[b0; b1]}).
    { unfold Heap.free. cbn [Heap.live]. set_solver. }
    exists pipes', (count - 2), (Heap.free b1 (Heap.free b0 hp)).
    split; [reflexivity|]. split.
    + rewrite !length_insert in Hl'.
      split; [unfold FlappyBird.MAX_PIPES; lia|].
      split; [unfold FlappyBird.MAX_PIPES; lia|].
      split.
      { replace count with (count - 2 + 2) in Heven by lia.
        rewrite Z.even_add in Heven. simpl in Heven.
        now destruct (Z.even (count - 2)). }
      exists rest. split.
      { assert (Htake : take (Z.to_nat (count - 2)) pipes'
                        = drop 2 (take (Z.to_nat count) pipes)).
        { apply list_eq. intros k. rewrite lookup_drop.
          destruct (decide (k < Z.to_nat (count - 2))%nat) as [Hk|Hk].
          - rewrite lookup_take_lt by exact Hk. rewrite lookup_take_lt by lia.
            rewrite (Hmoved k Hk). f_equal. lia.
          - rewrite !lookup_take_ge by lia. reflexivity. }
        rewrite Htake, fmap_drop, Hbl. reflexivity. }
      split; [exact Hnd|]. split; [simpl in Hdisj; set_solver|].
      rewrite Hlive', Hlive. simpl. simpl in Hdisj. set_solver.
    + intros q0 Hq0. rewrite Hp0 in Hq0. injection Hq0 as <-. rewrite Hleft.
      destruct (Z.eqb_spec count 0) as [|_]; [contradiction|]. cbn [negb andb].
      split; [reflexivity|]. split; [exact Hmoved|].
      exists p1, b0, b1. now repeat split.
  - unfold Pipes.clear_pipes.
    destruct (clear_pipes_loop pipes count blocks hp ltac:(lia) Hbl Hnd Hown)
      as (pipes' & hp' & -> & Hl' & Hlive' & Hfreed & Hrest).
    cbn [UB.bind fst snd]. exists pipes', hp'. split; [reflexivity|].
    assert (Hbase : Heap.live hp' = base) by (rewrite Hlive', Hlive; set_solver).
    split; [|split; [exact Hbase|split; [exact Hfreed|exact Hrest]]].
    split; [unfold FlappyBird.MAX_PIPES; lia|].
    split; [unfold FlappyBird.MAX_PIPES; lia|]. split; [reflexivity|].
    exists []. split; [reflexivity|]. split; [constructor|].
    split; [set_solver|]. rewrite Hbase. set_solver.
Qed.

(** X25: the pipes of Flappy Bird stay paired and own their pixel
    buffers while they are removed.  From a state in which the count is
    even, every pipe in use holds its own live buffer and no other block
    was allocated since the start, the two steps of the game loop that
    release pipes are defined (so no buffer is released twice) and lead
    to such a state again.  The removal block of [main] acts exactly when
    the count is not 0 and the first pipe has left the window
    ([x + PIPE_WIDTH < 0]): the count then drops by 2, the remaining
    pipes move two places down in their order, and exactly the two
    different buffers of the first pair are released; otherwise nothing
    changes.  The clearing loop of a restart releases every pipe in use
    (each has no buffer and is inactive afterwards), leaves the other
    entries alone, sets the count to 0, and exactly the blocks of the
    start stay live: no buffer is leaked. *)
Theorem pipes_stay_paired (base : gset nat) (pipes : list FlappyBird.Pipe) (count : Z)
    (hp : Heap.t) :
  Pipes.paired base pipes count hp ->
  (exists pipes' count' hp',
     Pipes.remove_offscreen pipes count hp = UB.Done (pipes', count', hp') /\
     Pipes.paired base pipes' count' hp' /\
     forall p0, pipes !! 0%nat = Some p0 ->
       if negb (count =? 0) && Pipes.left_window p0
       then count' = count - 2 /\
            (forall k, (k < Z.to_nat (count - 2))%nat ->
                       pipes' !! k = pipes !! (k + 2)%nat) /\
            exists p1 b0 b1,
              pipes !! 1%nat = Some p1 /\
              Pipes.block_of p0 = Some b0 /\ Pipes.block_of p1 = Some b1 /\
              b0 <> b1 /\ b0 ∈ Heap.live hp /\ b1 ∈ Heap.live hp /\
              Heap.live hp' = Heap.live hp ∖ {[b0; b1]}
       else pipes' = pipes /\ count' = count /\ hp' = hp) /\
  (exists pipes' hp',
     Pipes.clear_pipes pipes count hp = UB.Done (pipes', 0, hp') /\
     Pipes.paired base pipes' 0 hp' /\
     Heap.live hp' = base /\
     (forall k p, (k < Z.to_nat count)%nat -> pipes' !! k = Some p ->
                  Pipes.block_of p = None /\
                  ArcadeImageSprite.active (FlappyBird.sprite p) = 0) /\
     (forall k, (Z.to_nat count <= k)%nat -> pipes' !! k = pipes !! k)).
Proof.
  intros Hpaired. exact (paired_steps base pipes count hp Hpaired).
Qed.

Lemma pipes_stay_paired_witness :
  let hp := Heap.mk {[2%nat; 5%nat; 3%nat; 7%nat]} [] in
  Pipes.paired ∅ Pipes.two_pairs 4 hp /\
  exists pipes' hp',
    Pipes.remove_offscreen Pipes.two_pairs 4 hp = UB.Done (pipes', 2, hp') /\
    pipes' !! 0%nat = Some (Pipes.pipe_at 140 3) /\
    pipes' !! 1%nat = Some (Pipes.pipe_at 140 7) /\
    Pipes.paired ∅ pipes' 2 hp'.
Proof.
  intros hp.
  assert (H : Pipes.paired ∅ Pipes.two_pairs 4 hp).
  { split; [reflexivity|]. split; [unfold FlappyBird.MAX_PIPES; lia|].
    split; [reflexivity|]. exists [2; 5; 3; 7]%nat. split; [reflexivity|].
    split; [repeat (apply NoDup_cons; split; [set_solver|]); apply NoDup_nil_2|].
    split; [set_solver|]. simpl. set_solver. }
  split; [exact H|].
  destruct (pipes_stay_paired ∅ Pipes.two_pairs 4 hp H)
    as ((pipes' & count' & hp' & Hrun & Hp' & Hfirst) & _).
  pose proof (Hfirst (Pipes.pipe_at (-60) 2) eq_refl) as Hcase.
  change (negb (4 =? 0) && Pipes.left_window (Pipes.pipe_at (-60) 2)) with true in Hcase.
  destruct Hcase as (Hc & Hmoved & _).
  change (4 - 2) with 2 in Hc. subst count'.
  exists pipes', hp'. split; [exact Hrun|].
  split; [exact (Hmoved 0%nat ltac:(simpl; lia))|].
  split; [exact (Hmoved 1%nat ltac:(simpl; lia))|exact Hp'].
Defined.

End PipesFacts.

(** ** Image transforms: files and buffers *)

Module FilesFacts.

Lemma length_append (s t : string) :
  String.length (s ++ t)%string = (String.length s + String.length t)%nat.
Proof. induction s as [|c s IH]; simpl; [reflexivity|]. now rewrite IH. Qed.

Lemma malloc_never_fails (h : Heap.t) :
  Heap.oom h = [] ->
  exists p, Heap.malloc h = (Some p, Heap.mk ({[p]} ∪ Heap.live h) []) /\
            (p ∉ Heap.live h).
Proof.
  intros Hoom. unfold Heap.malloc. rewrite Hoom. eexists. split; [reflexivity|].
  apply is_fresh.
Qed.

Lemma transform_file_settled (remap : Stb.Image -> Stb.Image) (E : Stb.env)
    (O : Files.Oracle) (input_path : string) (w : Files.World) :
  match Files.transform_file remap E O input_path w with
  | UB.Done r => Files.settled remap E O input_path w r
  | UB.Undefined =>
      Stb.files E input_path <> None /\ Files.mkstemp O <> None /\
      Files.write_ok O = false
  end.
Proof.
  unfold Files.transform_file, Stb.stbi_load, Files.settled.
  destruct (Stb.files E input_path) as [img|] eqn:Hfile; [|reflexivity].
  pose proof (LoaderFacts.malloc_spec (Files.heap w)) as H1.
  destruct (Heap.malloc (Files.heap w)) as [[data|] h1]; [|exact H1].
  destruct H1 as [Hd Hl1].
  pose proof (LoaderFacts.malloc_spec h1) as H2.
  destruct (Heap.malloc h1) as [[out|] h2].
  2:{ cbn [fst snd Files.heap Heap.free Heap.live]. rewrite H2, Hl1. set_solver. }
  destruct H2 as [Ho Hl2].
  destruct (Files.mkstemp O) as [temp_path|] eqn:Htemp.
  2:{ cbn [fst snd Files.heap Heap.free Heap.live]. rewrite Hl2, Hl1. set_solver. }
  pose proof (LoaderFacts.malloc_spec h2) as H3.
  destruct (Heap.malloc h2) as [[full|] h3].
  2:{ cbn [fst snd Files.heap Heap.free Heap.live]. rewrite H3, Hl2, Hl1. set_solver. }
  destruct H3 as [Hf Hl3].
  destruct (Files.write_ok O) eqn:Hwrite.
  2:{ split; [discriminate|]. split; [discriminate|reflexivity]. }
  cbv zeta.
  pose proof (LoaderFacts.malloc_spec (Heap.free out (Heap.free data h3))) as H4.
  destruct (Heap.malloc (Heap.free out (Heap.free data h3))) as [[result|] h4].
  2:{ cbn [fst snd Files.heap Heap.free Heap.live] in *.
      rewrite H4, Hl3, Hl2, Hl1. set_solver. }
  destruct H4 as [Hr Hl4].
  cbn [fst snd Files.heap Files.files Heap.free Heap.live] in *.
  exists temp_path, img. split; [reflexivity|]. split; [reflexivity|].
  split; [reflexivity|].
  rewrite Hl3, Hl2, Hl1 in Hr.
  split; [set_solver|]. split; [|reflexivity].
  rewrite Hl4, Hl3, Hl2, Hl1. set_solver.
Qed.

(** With an allocator that never fails, the outcome is decided by
    [stbi_write_png]. *)
Lemma transform_file_runs (remap : Stb.Image -> Stb.Image) (E : Stb.env)
    (O : Files.Oracle) (input_path : string) (w : Files.World) (img : Stb.Image)
    (temp_path : string) :
  Stb.files E input_path = Some img ->
  Files.mkstemp O = Some temp_path ->
  Heap.oom (Files.heap w) = [] ->
  if Files.write_ok O then
    exists result w',
      Files.transform_file remap E O input_path w
      = UB.Done (Some (result, (temp_path ++ ".png")%string), w') /\
      Files.files w' !! temp_path = Some None /\
      Files.files w' !! (temp_path ++ ".png")%string = Some (Some (remap img))
  else Files.transform_file remap E O input_path w = UB.Undefined.
Proof.
  intros Hfile Htemp Hoom. unfold Files.transform_file, Stb.stbi_load. rewrite Hfile.
  destruct (malloc_never_fails _ Hoom) as (data & -> & _).
  destruct (malloc_never_fails (Heap.mk ({[data]} ∪ Heap.live (Files.heap w)) [])
              eq_refl) as (out & -> & _).
  rewrite Htemp.
  destruct (malloc_never_fails
              (Heap.mk ({[out]} ∪ Heap.live
                          (Heap.mk ({[data]} ∪ Heap.live (Files.heap w)) [])) [])
              eq_refl) as (full & -> & _).
  destruct (Files.write_ok O); [|reflexivity]. cbv zeta.
  match goal with
  | |- context [Heap.malloc ?h] =>
      destruct (malloc_never_fails h eq_refl) as (result & -> & _)
  end.
  eexists result, _. split; [reflexivity|]. cbn [Files.files].
  assert (Hne : temp_path <> (temp_path ++ ".png")%string).
  { intros Heq. apply (f_equal String.length) in Heq.
    rewrite length_append in Heq. simpl in Heq. lia. }
  split; [|apply lookup_insert_eq].
  rewrite lookup_insert_ne by congruence. apply lookup_insert_eq.
Qed.

(** X26: outside Windows, [arcade_flip_image] and [arcade_rotate_image]
    release the decoded image and the output buffer on every path on
    which they return.  A call that returns [NULL] leaves exactly the
    blocks live that were live before.  A call that returns a path leaves
    one new block, the returned string [<temp>.png], and the files that
    were there together with the image file [<temp>.png], which holds the
    transformed image, and the empty file [<temp>] of [mkstemp].  A call
    can fail to return only after [stbi_write_png] has failed. *)
Theorem transforms_release_buffers (E : Stb.env) (O : Files.Oracle)
    (input_path : string) (flip_type degrees : Z) (w : Files.World) :
  match Files.arcade_flip_image E O input_path flip_type w with
  | UB.Done r =>
      Files.settled (fun i => Transform.arcade_flip_image i flip_type) E O input_path w r
  | UB.Undefined => Files.write_ok O = false
  end /\
  match Files.arcade_rotate_image E O input_path degrees w with
  | UB.Done r =>
      Files.settled (fun i => Transform.arcade_rotate_image i degrees) E O input_path w r
  | UB.Undefined => Files.write_ok O = false
  end.
Proof.
  unfold Files.arcade_flip_image, Files.arcade_rotate_image. split.
  - pose proof (transform_file_settled
                  (fun i => Transform.arcade_flip_image i flip_type) E O input_path w) as Hf.
    destruct (Files.transform_file _ E O input_path w); [exact Hf|apply Hf].
  - pose proof (transform_file_settled
                  (fun i => Transform.arcade_rotate_image i degrees) E O input_path w) as Hr.
    destruct (Files.transform_file _ E O input_path w); [exact Hr|apply Hr].
Qed.

(** X27: outside Windows, when the image is decoded, the temporary file
    is created and no allocation fails, a failure of [stbi_write_png]
    makes both transforms undefined: the error path frees the path buffer
    and then passes it to [fprintf]. *)
Theorem failed_write_reads_freed_path (E : Stb.env) (O : Files.Oracle)
    (input_path : string) (flip_type degrees : Z) (w : Files.World) (img : Stb.Image)
    (temp_path : string) :
  Stb.files E input_path = Some img ->
  Files.mkstemp O = Some temp_path ->
  Heap.oom (Files.heap w) = [] ->
  Files.write_ok O = false ->
  Files.arcade_flip_image E O input_path flip_type w = UB.Undefined /\
  Files.arcade_rotate_image E O input_path degrees w = UB.Undefined.
Proof.
  intros Hfile Htemp Hoom Hwrite.
  unfold Files.arcade_flip_image, Files.arcade_rotate_image. split.
  - pose proof (transform_file_runs (fun i => Transform.arcade_flip_image i flip_type)
                  E O input_path w img temp_path Hfile Htemp Hoom) as H.
    now rewrite Hwrite in H.
  - pose proof (transform_file_runs (fun i => Transform.arcade_rotate_image i degrees)
                  E O input_path w img temp_path Hfile Htemp Hoom) as H.
    now rewrite Hwrite in H.
Qed.

Lemma failed_write_reads_freed_path_witness :
  let O := Files.mkOracle (Some "/tmp/arcade_flip_a1B2c3"%string) false in
  let w := Files.mk Loader.empty_heap ∅ in
  (Stb.files Loader.one_file "bird.png" = Some (Stb.mkImage 1 1 [255; 0; 0; 255]) /\
   Files.mkstemp O = Some "/tmp/arcade_flip_a1B2c3"%string /\
   Heap.oom (Files.heap w) = [] /\ Files.write_ok O = false) /\
  Files.arcade_flip_image Loader.one_file O "bird.png" 1 w = UB.Undefined /\
  Files.arcade_rotate_image Loader.one_file O "bird.png" 90 w = UB.Undefined.
Proof.
  intros O w.
  assert (H1 : Stb.files Loader.one_file "bird.png"
               = Some (Stb.mkImage 1 1 [255; 0; 0; 255])) by reflexivity.
  assert (H2 : Files.mkstemp O = Some "/tmp/arcade_flip_a1B2c3"%string) by reflexivity.
  assert (H3 : Heap.oom (Files.heap w) = []) by reflexivity.
  assert (H4 : Files.write_ok O = false) by reflexivity.
  split; [exact (conj H1 (conj H2 (conj H3 H4)))|].
  exact (failed_write_reads_freed_path Loader.one_file O "bird.png" 1 90 w _ _ H1 H2 H3 H4).
Defined.

(** X28: outside Windows, a transform that succeeds returns the path
    [<temp>.png], where [<temp>] is the name that [mkstemp] chose; the
    file of that name holds the flipped or rotated image, and the empty
    file [<temp>] itself is still there after the call. *)
Theorem transform_leaves_temp_file (E : Stb.env) (O : Files.Oracle)
    (input_path : string) (flip_type degrees : Z) (w : Files.World) (img : Stb.Image)
    (temp_path : string) :
  Stb.files E input_path = Some img ->
  Files.mkstemp O = Some temp_path ->
  Heap.oom (Files.heap w) = [] ->
  Files.write_ok O = true ->
  (exists result w',
     Files.arcade_flip_image E O input_path flip_type w
     = UB.Done (Some (result, (temp_path ++ ".png")%string), w') /\
     Files.files w' !! temp_path = Some None /\
     Files.files w' !! (temp_path ++ ".png")%string
     = Some (Some (Transform.arcade_flip_image img flip_type))) /\
  (exists result w',
     Files.arcade_rotate_image E O input_path degrees w
     = UB.Done (Some (result, (temp_path ++ ".png")%string), w') /\
     Files.files w' !! temp_path = Some None /\
     Files.files w' !! (temp_path ++ ".png")%string
     = Some (Some (Transform.arcade_rotate_image img degrees))).
Proof.
  intros Hfile Htemp Hoom Hwrite.
  unfold Files.arcade_flip_image, Files.arcade_rotate_image. split.
  - pose proof (transform_file_runs (fun i => Transform.arcade_flip_image i flip_type)
                  E O input_path w img temp_path Hfile Htemp Hoom) as H.
    rewrite Hwrite in H. exact H.
  - pose proof (transform_file_runs (fun i => Transform.arcade_rotate_image i degrees)
                  E O input_path w img temp_path Hfile Htemp Hoom) as H.
    rewrite Hwrite in H. exact H.
Qed.

Lemma transform_leaves_temp_file_witness :
  let O := Files.mkOracle (Some "/tmp/arcade_flip_a1B2c3"%string) true in
  let w := Files.mk Loader.empty_heap ∅ in
  (Stb.files Loader.one_file "bird.png" = Some (Stb.mkImage 1 1 [255; 0; 0; 255]) /\
   Files.mkstemp O = Some "/tmp/arcade_flip_a1B2c3"%string /\
   Heap.oom (Files.heap w) = [] /\ Files.write_ok O = true) /\
  exists result w',
    Files.arcade_flip_image Loader.one_file O "bird.png" 1 w
    = UB.Done (Some (result, "/tmp/arcade_flip_a1B2c3.png"%string), w') /\
    Files.files w' !! "/tmp/arcade_flip_a1B2c3"%string = Some None.
Proof.
  intros O w.
  assert (H1 : Stb.files Loader.one_file "bird.png"
               = Some (Stb.mkImage 1 1 [255; 0; 0; 255])) by reflexivity.
  assert (H2 : Files.mkstemp O = Some "/tmp/arcade_flip_a1B2c3"%string) by reflexivity.
  assert (H3 : Heap.oom (Files.heap w) = []) by reflexivity.
  assert (H4 : Files.write_ok O = true) by reflexivity.
  split; [exact (conj H1 (conj H2 (conj H3 H4)))|].
  destruct (transform_leaves_temp_file Loader.one_file O "bird.png" 1 90 w _ _ H1 H2 H3 H4)
    as ((result & w' & Hrun & Htmp & _) & _).
  exists result, w'. split; [exact Hrun|exact Htmp].
Defined.

End FilesFacts.
